(** * Host AHCI driver (vancouver/host/hostahci.cc): a shallow embedding

    The port driver [HostAhciPort] and the register mapping of [HostAhci]
    are embedded as functions over an explicit port state, in a monad of
    state and failure ([Logging::panic], [assert]).

    The controller is reached through volatile registers, the clock and the
    host-operation bus.  These are the environment [Env], a record of
    oracles: what the n-th volatile read returns, what the n-th reading of
    the clock returns, what an address translates to, what the device leaves
    in the IDENTIFY buffer.  A theorem over every [Env] holds for every
    device.  Register writes and commit messages are logged in the state.

    The busy wait of [wait_timeout] runs on fuel; [Fail OutOfFuel] is not a
    behaviour of the code, and a clock that is [live] never produces it. *)

From Stdlib Require Import Sorted.
From stdpp Require Import base numbers list option.

Local Open Scope Z_scope.

(** ** Machine integers *)

(** [unsigned] and, on the 32-bit target of the driver, [unsigned long]
    (the source stores [unsigned long] into [unsigned] registers and casts
    it to pointers). *)
Definition wrap32 (x : Z) : Z := x mod 2 ^ 32.
(** [timevalue] and [unsigned long long]. *)
Definition wrap64 (x : Z) : Z := x mod 2 ^ 64.
(** [unsigned char]. *)
Definition wrap8 (x : Z) : Z := x mod 2 ^ 8.

(** [~x] on [unsigned]. *)
Definition not32 (x : Z) : Z := wrap32 (Z.lnot x).
(** [1 << n] converted to [unsigned]. *)
Definition bit32 (n : Z) : Z := wrap32 (Z.shiftl 1 n).

Arguments wrap32 : simpl never.
Arguments wrap64 : simpl never.
Arguments wrap8 : simpl never.
Arguments not32 : simpl never.
Arguments bit32 : simpl never.

Fixpoint bsf_pos (p : positive) : Z :=
  match p with
  | xO q => 1 + bsf_pos q
  | _ => 0
  end.

(** [Cpu::bsf]: index of the lowest set bit (the source only calls it on a
    non-zero value). *)
Definition bsf (x : Z) : Z :=
  match x with
  | Zpos p => bsf_pos p
  | _ => 0
  end.

Fixpoint popcount_pos (p : positive) : Z :=
  match p with
  | xH => 1
  | xO q => popcount_pos q
  | xI q => 1 + popcount_pos q
  end.

Definition popcount (x : Z) : Z :=
  match x with
  | Zpos p => popcount_pos p
  | _ => 0
  end.

(** ** Registers and messages *)

(** The named members of [union HostAhciPortRegister]. *)
Inductive preg :=
| CLB | CLBU | FB | FBU | IS | IE | CMD | RES0 | TFD | SIG
| SSTS | SCTL | SERR | SACT | CI | SNTF | FBS.

#[global] Instance preg_eq_dec : EqDecision preg.
Proof. solve_decision. Defined.

(** The register that follows in the register file: [dst[1]] for a pointer
    [dst] to a register. *)
Definition preg_next (r : preg) : preg :=
  match r with
  | CLB => CLBU | CLBU => FB | FB => FBU | FBU => IS | IS => IE | IE => CMD
  | CMD => RES0 | RES0 => TFD | TFD => SIG | SIG => SSTS | SSTS => SCTL
  | SCTL => SERR | SERR => SACT | SACT => CI | CI => SNTF | SNTF => FBS
  | FBS => FBS
  end.

(** [MessageDisk::Type]; [DISK_OTHER] stands for every value that reaches the
    [default] branch of [receive]. *)
Inductive disk_type :=
| DISK_READ | DISK_WRITE | DISK_FLUSH_CACHE | DISK_GET_PARAMS | DISK_OTHER.

(** The status [irq] reports. *)
Inductive disk_status := DISK_OK.

(** Modelled from the spec: the message types are declared in
    vmm/motherboard.h, which is absent.  A descriptor has the two [unsigned]
    members the driver reads; a disk message has its type, the disk number,
    the first sector, the scatter/gather list [dma] of [dmacount] entries,
    the caller's region [physoffset], [physsize] and the caller's tag. *)
Record DmaDescriptor := { bytecount : Z; byteoffset : Z }.

Record MessageDisk := {
  msg_type : disk_type;
  msg_disknr : Z;
  msg_sector : Z;
  msg_dma : list DmaDescriptor;   (* dma[0..dmacount) *)
  msg_physoffset : Z;
  msg_physsize : Z;
  msg_usertag : Z
}.

(** Modelled from the spec: the commit message, (disknr, usertag, status)
    as [irq] constructs it. *)
Record MessageDiskCommit := {
  commit_disknr : Z;
  commit_usertag : Z;
  commit_status : disk_status
}.

(** Modelled from the spec: [HostGenericAta] is declared in
    host/hostgenericata.h, which is absent; the driver reads [_lba48]. *)
Record HostGenericAta := { _lba48 : bool }.

(** Modelled from the spec: [DmaDescriptor::sum_length] is declared in
    vmm/motherboard.h, which is absent; the spec calls it the total transfer
    length, the sum of the descriptor lengths, here in [unsigned long]. *)
Definition sum_length (dma : list DmaDescriptor) : Z :=
  fold_left (fun acc d => wrap32 (acc + bytecount d)) dma 0.

(** ** Port state *)

Definition CL_DWORDS : Z := 8.
Definition MAX_PRD_COUNT : Z := 64.
Definition FREQ : Z := 1000.
Definition TIMEOUT : Z := 200.

(** The members of [HostAhciPort], the memory it owns, and the log of what
    it did to its environment. *)
Record Port := {
  _disknr : Z;
  _max_slots : Z;
  _dmar : bool;
  cl_addr : Z;                 (* virtual address in [_cl] *)
  ct_addr : Z;                 (* virtual address in [_ct] *)
  fis_addr : Z;                (* virtual address in [_fis] *)
  _cl : list Z;                (* command list, dwords *)
  _ct : list Z;                (* command tables, dwords *)
  _tag : Z;
  _params : HostGenericAta;
  _usertags : list Z;
  _inprogress : Z;
  mmio : list (preg * Z);      (* register writes, oldest first *)
  n_reads : nat;               (* volatile register reads done so far *)
  n_clock : nat;               (* clock readings done so far *)
  commits : list MessageDiskCommit  (* sent on [_bus_commit], oldest first *)
}.

Definition set_cl (v : list Z) (w : Port) : Port :=
  {| _disknr := _disknr w; _max_slots := _max_slots w; _dmar := _dmar w;
     cl_addr := cl_addr w; ct_addr := ct_addr w; fis_addr := fis_addr w;
     _cl := v; _ct := _ct w; _tag := _tag w; _params := _params w;
     _usertags := _usertags w; _inprogress := _inprogress w;
     mmio := mmio w; n_reads := n_reads w; n_clock := n_clock w;
     commits := commits w |}.

Definition set_ct (v : list Z) (w : Port) : Port :=
  {| _disknr := _disknr w; _max_slots := _max_slots w; _dmar := _dmar w;
     cl_addr := cl_addr w; ct_addr := ct_addr w; fis_addr := fis_addr w;
     _cl := _cl w; _ct := v; _tag := _tag w; _params := _params w;
     _usertags := _usertags w; _inprogress := _inprogress w;
     mmio := mmio w; n_reads := n_reads w; n_clock := n_clock w;
     commits := commits w |}.

Definition set_tag (v : Z) (w : Port) : Port :=
  {| _disknr := _disknr w; _max_slots := _max_slots w; _dmar := _dmar w;
     cl_addr := cl_addr w; ct_addr := ct_addr w; fis_addr := fis_addr w;
     _cl := _cl w; _ct := _ct w; _tag := v; _params := _params w;
     _usertags := _usertags w; _inprogress := _inprogress w;
     mmio := mmio w; n_reads := n_reads w; n_clock := n_clock w;
     commits := commits w |}.

Definition set_params (v : HostGenericAta) (w : Port) : Port :=
  {| _disknr := _disknr w; _max_slots := _max_slots w; _dmar := _dmar w;
     cl_addr := cl_addr w; ct_addr := ct_addr w; fis_addr := fis_addr w;
     _cl := _cl w; _ct := _ct w; _tag := _tag w; _params := v;
     _usertags := _usertags w; _inprogress := _inprogress w;
     mmio := mmio w; n_reads := n_reads w; n_clock := n_clock w;
     commits := commits w |}.

Definition set_usertags (v : list Z) (w : Port) : Port :=
  {| _disknr := _disknr w; _max_slots := _max_slots w; _dmar := _dmar w;
     cl_addr := cl_addr w; ct_addr := ct_addr w; fis_addr := fis_addr w;
     _cl := _cl w; _ct := _ct w; _tag := _tag w; _params := _params w;
     _usertags := v; _inprogress := _inprogress w;
     mmio := mmio w; n_reads := n_reads w; n_clock := n_clock w;
     commits := commits w |}.

Definition set_inprogress (v : Z) (w : Port) : Port :=
  {| _disknr := _disknr w; _max_slots := _max_slots w; _dmar := _dmar w;
     cl_addr := cl_addr w; ct_addr := ct_addr w; fis_addr := fis_addr w;
     _cl := _cl w; _ct := _ct w; _tag := _tag w; _params := _params w;
     _usertags := _usertags w; _inprogress := v;
     mmio := mmio w; n_reads := n_reads w; n_clock := n_clock w;
     commits := commits w |}.

Definition log_write (r : preg) (v : Z) (w : Port) : Port :=
  {| _disknr := _disknr w; _max_slots := _max_slots w; _dmar := _dmar w;
     cl_addr := cl_addr w; ct_addr := ct_addr w; fis_addr := fis_addr w;
     _cl := _cl w; _ct := _ct w; _tag := _tag w; _params := _params w;
     _usertags := _usertags w; _inprogress := _inprogress w;
     mmio := mmio w ++ [(r, v)]; n_reads := n_reads w; n_clock := n_clock w;
     commits := commits w |}.

Definition count_read (w : Port) : Port :=
  {| _disknr := _disknr w; _max_slots := _max_slots w; _dmar := _dmar w;
     cl_addr := cl_addr w; ct_addr := ct_addr w; fis_addr := fis_addr w;
     _cl := _cl w; _ct := _ct w; _tag := _tag w; _params := _params w;
     _usertags := _usertags w; _inprogress := _inprogress w;
     mmio := mmio w; n_reads := S (n_reads w); n_clock := n_clock w;
     commits := commits w |}.

Definition count_clock (w : Port) : Port :=
  {| _disknr := _disknr w; _max_slots := _max_slots w; _dmar := _dmar w;
     cl_addr := cl_addr w; ct_addr := ct_addr w; fis_addr := fis_addr w;
     _cl := _cl w; _ct := _ct w; _tag := _tag w; _params := _params w;
     _usertags := _usertags w; _inprogress := _inprogress w;
     mmio := mmio w; n_reads := n_reads w; n_clock := S (n_clock w);
     commits := commits w |}.

Definition log_commit (m : MessageDiskCommit) (w : Port) : Port :=
  {| _disknr := _disknr w; _max_slots := _max_slots w; _dmar := _dmar w;
     cl_addr := cl_addr w; ct_addr := ct_addr w; fis_addr := fis_addr w;
     _cl := _cl w; _ct := _ct w; _tag := _tag w; _params := _params w;
     _usertags := _usertags w; _inprogress := _inprogress w;
     mmio := mmio w; n_reads := n_reads w; n_clock := n_clock w;
     commits := commits w ++ [m] |}.

(** Arrays of dwords, indexed by an [unsigned].  An index outside the array
    is undefined behaviour in the source; here such a load gives 0 and such
    a store is dropped, and the theorems assume [port_wf], which keeps every
    index inside. *)
Definition rd (l : list Z) (i : Z) : Z := default 0 (l !! Z.to_nat i).
Definition wr (i : Z) (v : Z) (l : list Z) : list Z := <[Z.to_nat i := v]> l.

(** ** Outcomes *)

Inductive failure :=
| Panicked        (* Logging::panic *)
| AssertFailed    (* assert *)
| OutOfFuel.      (* the fuel of the model ran out: not a behaviour of the code *)

(** A run ends with a value and a state, or fails in a state. *)
Inductive Res (A : Type) :=
| Ok (a : A) (w : Port)
| Fail (f : failure) (w : Port).
Arguments Ok {A} a w.
Arguments Fail {A} f w.

Definition world_of {A} (r : Res A) : Port :=
  match r with Ok _ w => w | Fail _ w => w end.

Definition M (A : Type) : Type := Port -> Res A.

Definition ret {A} (a : A) : M A := fun w => Ok a w.

Definition bind {A B} (m : M A) (k : A -> M B) : M B :=
  fun w => match m w with
           | Ok a w' => k a w'
           | Fail f w' => Fail f w'
           end.

Notation "'do' x <- m ; k" := (bind m (fun x => k))
  (at level 10, x name, m at level 100, k at level 200).
Notation "'exec' m ; k" := (bind m (fun _ => k))
  (at level 10, m at level 100, k at level 200).

Definition get {A} (f : Port -> A) : M A := fun w => Ok (f w) w.
Definition modify (f : Port -> Port) : M unit := fun w => Ok tt (f w).
Definition fail {A} (e : failure) : M A := fun w => Fail e w.

(** [check2(X)]: return X's result from the enclosing function when it is
    not zero. *)
Definition check2 (m : M Z) (k : M Z) : M Z :=
  do r <- m; if r =? 0 then k else ret r.

(** Where a pointer of [addr2phys] points: a port register, a dword of the
    command list, a dword of the command tables. *)
Inductive dst :=
| RegPtr (r : preg)
| ClPtr (i : Z)
| CtPtr (i : Z).

(** Little-endian packing of bytes into dwords, as [memcpy] into an
    [unsigned] array does on the x86 target. *)
Fixpoint dwords_of_bytes (l : list Z) : list Z :=
  match l with
  | b0 :: b1 :: b2 :: b3 :: rest =>
      Z.lor (Z.lor b0 (Z.shiftl b1 8)) (Z.lor (Z.shiftl b2 16) (Z.shiftl b3 24))
      :: dwords_of_bytes rest
  | _ => []
  end.

(** [l] stored at [a[i]], [a[i+1]], ... *)
Fixpoint wr_list (i : Z) (l : list Z) (a : list Z) : list Z :=
  match l with
  | [] => a
  | v :: rest => wr_list (i + 1) rest (wr i v a)
  end.

(** ** The environment of a port *)

Record Env := {
  (** the value the n-th volatile read returns when it reads this register *)
  hw_read : nat -> preg -> Z;
  (** the n-th result of [_clock->clock(FREQ)] *)
  hw_clock : nat -> Z;
  (** OP_VIRT_TO_PHYS on [_bus_hostop]: [None] when [send] fails, else
      [msg.phys] *)
  virt_to_phys : Z -> option Z;
  (** the words found in the IDENTIFY buffer once the command has completed,
      by the number of register reads done until then *)
  dma_identify : nat -> Z -> Z;
  (** [HostGenericAta::update_params] (host/hostgenericata.h, absent): its
      result and the parameters it leaves in [_params] *)
  update_params : (Z -> Z) -> bool -> Z * HostGenericAta;
  (** address of the local [buffer] of [irq] *)
  irq_buffer : Z
}.

Section Driver.

Variable E : Env.

Definition reg_read (r : preg) : M Z :=
  fun w => Ok (wrap32 (hw_read E (n_reads w) r)) (count_read w).

Definition reg_write (r : preg) (v : Z) : M unit := modify (log_write r v).

Definition clock : M Z :=
  fun w => Ok (wrap64 (hw_clock E (n_clock w))) (count_clock w).

(** The [while] of [wait_timeout]; [Cpu::pause] has no effect on the state. *)
Fixpoint wait_loop (fuel : nat) (reg : preg) (mask value timeout : Z) : M unit :=
  match fuel with
  | O => fail OutOfFuel
  | S fuel' =>
      do r <- reg_read reg;
      if Z.land r mask =? value then ret tt
      else do now <- clock;
           if now <? timeout then wait_loop fuel' reg mask value timeout
           else ret tt
  end.

Definition wait_timeout (fuel : nat) (reg : preg) (mask value : Z) : M Z :=
  do start <- clock;
  let timeout := wrap64 (start + TIMEOUT) in
  exec wait_loop fuel reg mask value timeout;
  do r <- reg_read reg;
  ret (if Z.land r mask =? value then 0 else 1).

(** [dst[k] = v] *)
Definition store (d : dst) (k : Z) (v : Z) : M unit :=
  match d with
  | RegPtr r => reg_write (Nat.iter (Z.to_nat k) preg_next r) v
  | ClPtr i => modify (fun w => set_cl (wr (i + k) v (_cl w)) w)
  | CtPtr i => modify (fun w => set_ct (wr (i + k) v (_ct w)) w)
  end.

Definition addr2phys (ptr : Z) (d : dst) : M unit :=
  do dmar <- get _dmar;
  do value <- (if dmar then ret ptr
               else match virt_to_phys E ptr with
                    | Some phys => if phys =? 0 then fail Panicked else ret phys
                    | None => fail Panicked
                    end);
  exec store d 0 (wrap32 value);
  store d 1 0.

(** Dword index of the command table of slot [tag] in [_ct]:
    [_tag*(128+MAX_PRD_COUNT*16)/4]. *)
Definition ct_index (tag : Z) : Z := tag * (128 + MAX_PRD_COUNT * 16) / 4.

(** Dword index of PRD [prd] of slot [tag]:
    [(_tag*(128 + MAX_PRD_COUNT*16) + 0x80 + prd*16) >> 2]. *)
Definition prd_index (tag prd : Z) : Z :=
  Z.shiftr (tag * (128 + MAX_PRD_COUNT * 16) + 0x80 + prd * 16) 2.

Definition cl_header (read atapi : bool) (pmp : Z) : Z :=
  Z.lor (Z.lor (Z.lor (if atapi then 0x20 else 0) (if read then 0 else 0x40)) 5)
        (Z.shiftl (Z.land pmp 0xf) 12).

Definition cfis (command sector count pmp features : Z) : list Z :=
  map wrap8
    [0x27; Z.lor 0x80 (Z.land pmp 0xf); command; features;
     sector; Z.shiftr sector 8; Z.shiftr sector 16; 0x40;
     Z.shiftr sector 24; Z.shiftr sector 32; Z.shiftr sector 40; Z.shiftr features 8;
     count; Z.shiftr count 8; 0; 0;
     0; 0; 0; 0].

Definition set_command (command sector : Z) (read : bool) (count : Z)
    (atapi : bool) (pmp features : Z) : M unit :=
  do tag <- get _tag;
  exec store (ClPtr (tag * CL_DWORDS)) 0 (cl_header read atapi pmp);
  exec store (ClPtr (tag * CL_DWORDS)) 1 0;
  do ct <- get ct_addr;
  exec addr2phys (wrap32 (ct + 4 * ct_index tag)) (ClPtr (tag * CL_DWORDS + 2));
  modify (fun w => set_ct (wr_list (ct_index tag)
                             (dwords_of_bytes (cfis command sector count pmp features))
                             (_ct w)) w).

Definition add_dma (ptr count : Z) : M bool :=
  if negb (Z.land count 1 =? 0) || negb (Z.shiftr count 22 =? 0) then ret true
  else
    do tag <- get _tag;
    do hdr <- get (fun w => rd (_cl w) (tag * CL_DWORDS));
    let prd := Z.shiftr hdr 16 in
    if MAX_PRD_COUNT <=? prd then ret true
    else
      exec store (ClPtr (tag * CL_DWORDS)) 0 (wrap32 (hdr + Z.shiftl 1 16));
      let p := prd_index tag prd in
      exec addr2phys ptr (CtPtr p);
      exec store (CtPtr p) 3 (wrap32 (count - 1));
      ret false.

Definition add_prd (buffer count : Z) : M bool :=
  do tag <- get _tag;
  do hdr <- get (fun w => rd (_cl w) (tag * CL_DWORDS));
  let prd := Z.shiftr hdr 16 in
  if negb (Z.land (not32 count) 1 =? 0) then
    if Z.shiftr count 22 =? 0 then
      if MAX_PRD_COUNT <=? prd then ret true
      else
        exec store (ClPtr (tag * CL_DWORDS)) 0 (wrap32 (hdr + Z.shiftl 1 16));
        let p := prd_index tag prd in
        exec addr2phys buffer (CtPtr p);
        exec store (CtPtr p) 3 (wrap32 (count - 1));
        ret false
    else fail AssertFailed
  else fail AssertFailed.

Definition start_command (usertag : Z) : M Z :=
  do tag <- get _tag;
  exec modify (fun w => set_inprogress (Z.lor (_inprogress w) (bit32 tag)) w);
  exec modify (fun w => set_usertags (wr tag usertag (_usertags w)) w);
  exec reg_write CI (bit32 tag);
  exec modify (fun w => set_tag ((tag + 1) mod _max_slots w) w);
  ret tag.

(** [_inprogress &= ~(1 << tag)] *)
Definition clear_inprogress (tag : Z) : M unit :=
  modify (fun w => set_inprogress (Z.land (_inprogress w) (not32 (bit32 tag))) w).

(** [identify_drive] after its wait on CI.  The buffer is not part of the
    port state: [memset] clears it before the command, and what the device
    has put there by now is [dma_identify]. *)
Definition identify_finish (tag : Z) : M Z :=
  exec clear_inprogress tag;
  do buf <- get (fun w => dma_identify E (n_reads w));
  (* we do not support spinup *)
  if buf 2 mod 2 ^ 16 =? 0xc837 then
    let '(res, params) := update_params E buf false in
    exec modify (set_params params);
    ret (wrap32 res)
  else fail AssertFailed.

Definition identify_drive (fuel : nat) (buffer : Z) : M Z :=
  exec set_command 0xec 0 true 0 false 0 0;
  do _ <- add_prd buffer 512;
  do tag <- start_command 0;
  (* there is no IRQ on identify, as this is PIO data-in command *)
  check2 (wait_timeout fuel CI (bit32 tag) 0) (identify_finish tag).

Definition set_features (fuel : nat) (features count : Z) : M Z :=
  exec set_command 0xef 0 false count false 0 features;
  do tag <- start_command 0;
  check2 (wait_timeout fuel CI (bit32 tag) 0)
    (exec clear_inprogress tag;
     ret 0).

(** [_regs->cmd &= v] and [_regs->cmd |= v]: a volatile read, then a write. *)
Definition reg_and (r : preg) (v : Z) : M unit :=
  do old <- reg_read r; reg_write r (Z.land old v).
Definition reg_or (r : preg) (v : Z) : M unit :=
  do old <- reg_read r; reg_write r (Z.lor old v).

(** [init] up to and including the write of [ie]: 0 when every wait was
    satisfied, else the result of the wait that timed out, with which [init]
    returns. *)
Definition init_port (fuel : nat) : M Z :=
  do cmd <- reg_read CMD;
  check2 (if negb (Z.land cmd 0xc009 =? 0) then
            (* stop processing by clearing ST *)
            exec reg_and CMD (not32 1);
            check2 (wait_timeout fuel CMD (bit32 15) 0)
              ((* stop FIS receiving *)
               exec reg_and CMD (not32 0x10);
               (* wait until no fis is received anymore *)
               wait_timeout fuel CMD (bit32 14) 0)
          else ret 0)
    ((* set CL and FIS pointer *)
     do cl <- get cl_addr;
     exec addr2phys cl (RegPtr CLB);
     do fis <- get fis_addr;
     exec addr2phys fis (RegPtr FB);
     (* clear error register *)
     exec reg_write SERR (not32 0);
     (* and irq status register *)
     exec reg_write IS (not32 0);
     (* enable FIS processing *)
     exec reg_or CMD 0x10;
     check2 (wait_timeout fuel CMD (bit32 15) 0)
       ((* CLO clearing *)
        exec reg_or CMD 0x8;
        check2 (wait_timeout fuel CMD 0x8 0)
          (exec reg_or CMD 0x1;
           (* nothing in progress anymore *)
           exec modify (set_inprogress 0);
           (* enable irqs *)
           exec reg_write IE 0xf98000f1;
           ret 0))).

Definition init (fuel : nat) (buffer : Z) : M Z :=
  check2 (init_port fuel) (identify_drive fuel buffer).

(** The [for] of [irq]: [fuel] bounds the iterations, 32 are enough for a
    32-bit [done] (see [irq_loop_fuel]). *)
Fixpoint irq_loop (fuel : nat) (done : Z) : M unit :=
  if done =? 0 then ret tt
  else match fuel with
       | O => fail OutOfFuel
       | S fuel' =>
           let tag := bsf done in
           do disknr <- get _disknr;
           do usertag <- get (fun w => rd (_usertags w) tag);
           exec modify (log_commit {| commit_disknr := disknr;
                                      commit_usertag := usertag;
                                      commit_status := DISK_OK |});
           exec modify (fun w => set_usertags (wr tag (not32 0) (_usertags w)) w);
           exec clear_inprogress tag;
           irq_loop fuel' (Z.land done (not32 (bit32 tag)))
       end.

Definition irq (fuel : nat) : M unit :=
  do status <- reg_read IS;
  (* clear interrupt status *)
  exec reg_write IS status;
  do ci <- reg_read CI;
  do inprogress <- get _inprogress;
  exec irq_loop 32 (Z.land inprogress (not32 ci));
  do tfd <- reg_read TFD;
  if negb (Z.land tfd 1 =? 0) then
    do _ <- reg_read TFD;          (* the argument of Logging::printf *)
    do _ <- init fuel (irq_buffer E);
    ret tt
  else ret tt.

(** The [for] over [msg.dma] in [receive]: [true] when [receive] returns
    [false] from inside it. *)
Fixpoint dma_loop (msg : MessageDisk) (dma : list DmaDescriptor) : M bool :=
  match dma with
  | [] => ret false
  | d :: rest =>
      if (msg_physsize msg <? byteoffset d)
         || (msg_physsize msg <? wrap32 (byteoffset d + bytecount d))
      then ret true
      else
        do failed <- add_dma (wrap32 (msg_physoffset msg + byteoffset d)) (bytecount d);
        if failed then ret true else dma_loop msg rest
  end.

Definition is_write (t : disk_type) : bool :=
  match t with DISK_WRITE => true | _ => false end.

Definition receive (msg : MessageDisk) : M bool :=
  do disknr <- get _disknr;
  if negb (msg_disknr msg =? disknr) then ret false
  else
    do lba48 <- get (fun w => _lba48 (_params w));
    match msg_type msg with
    | DISK_READ | DISK_WRITE =>
        let length := sum_length (msg_dma msg) in
        if negb (Z.land length 0x1ff =? 0) then ret false
        else
          let command := if lba48 then 0x25 else 0xc8 in
          let command := if is_write (msg_type msg)
                         then (if lba48 then 0x35 else 0xca) else command in
          exec set_command command (msg_sector msg) (negb (is_write (msg_type msg)))
                 (Z.shiftr length 9) false 0 0;
          do failed <- dma_loop msg (msg_dma msg);
          if failed then ret false
          else do _ <- start_command (msg_usertag msg); ret true
    | DISK_FLUSH_CACHE =>
        exec set_command (if lba48 then 0xea else 0xe7) 0 true 0 false 0 0;
        do _ <- start_command 0;
        ret true
    | DISK_GET_PARAMS =>
        (* _params.get_disk_parameter(msg.params) fills the caller's structure *)
        ret true
    | DISK_OTHER => fail Panicked
    end.

End Driver.

(** ** Construction *)

(** What [new] and [memalign] hand out: addresses, and memory whose contents
    the constructor does not set. *)
Record Heap := {
  heap_fis : Z;
  heap_cl : Z;
  heap_ct : Z;
  heap_cl_mem : Z -> Z;
  heap_ct_mem : Z -> Z;
  heap_usertags : Z -> Z;
  heap_inprogress : Z;
  heap_params : HostGenericAta
}.

Definition heap_array (f : Z -> Z) (n : Z) : list Z :=
  map (fun i => wrap32 (f (Z.of_nat i))) (seq 0 (Z.to_nat n)).

(** The constructor [HostAhciPort::HostAhciPort]: it sets [_disknr],
    [_max_slots], [_dmar] and [_tag], and allocates [_fis], [_cl], [_ct]. *)
Definition HostAhciPort_new (disknr max_slots : Z) (dmar : bool) (h : Heap) : Port :=
  {| _disknr := disknr; _max_slots := max_slots; _dmar := dmar;
     cl_addr := heap_cl h; ct_addr := heap_ct h; fis_addr := heap_fis h;
     _cl := heap_array (heap_cl_mem h) (max_slots * CL_DWORDS);
     _ct := heap_array (heap_ct_mem h) (max_slots * (128 + MAX_PRD_COUNT * 16) / 4);
     _tag := 0;
     _params := heap_params h;
     _usertags := heap_array (heap_usertags h) 32;
     _inprogress := wrap32 (heap_inprogress h);
     mmio := []; n_reads := 0; n_clock := 0; commits := [] |}.

(** The slot count [create_ahci_port] passes to the constructor. *)
Definition max_slots_of_cap (cap : Z) : Z := Z.land (Z.shiftr cap 8) 0x1f + 1.

(** ** Mapping the registers in [HostAhci::HostAhci] *)

Inductive attach_result :=
| Mapped (regs regs_high : Z) (requests : list (Z * Z))
| AttachPanic
| AttachAssert.

(** Lines 396-415 of the constructor of [HostAhci]: [conf_read] is
    [pci.conf_read(_bdf, .)], [alloc_iomem value len] the [msg.ptr] of an
    OP_ALLOC_IOMEM request ([None] when [send] fails), [pi] what [_regs->pi]
    reads.  [regs_high] is 0 when the high ports are not mapped; [requests]
    are the (value, len) of the requests sent. *)
Definition map_registers (conf_read : Z -> Z) (alloc_iomem : Z -> Z -> option Z)
    (pi : Z) : attach_result :=
  if negb (Z.land (not32 (wrap32 (conf_read 4))) 6 =? 0) then AttachAssert
  else
    let bar := wrap32 (conf_read 0x24) in
    if negb (Z.land bar 7 =? 0) then AttachAssert
    else
      match alloc_iomem bar 0x1000 with
      | None => AttachPanic
      | Some ptr =>
          if ptr =? 0 then AttachPanic
          else
            (* map the high ports *)
            if negb (Z.shiftr (wrap32 pi) 30 =? 0) then
              match alloc_iomem (wrap32 (bar + 0x1000)) 0x1000 with
              | None => AttachPanic
              | Some ptr_high =>
                  if ptr_high =? 0 then AttachPanic
                  else Mapped ptr (wrap32 (ptr_high + Z.land bar 0xfe0))
                         [(bar, 0x1000); (wrap32 (bar + 0x1000), 0x1000)]
              end
            else Mapped ptr 0 [(bar, 0x1000)]
      end.

(** ** Observations on a port state *)

(** The sum of the descriptor lengths, as a number. *)
Definition total_length (dma : list DmaDescriptor) : Z :=
  foldr (fun d acc => bytecount d + acc) 0 dma.

(** The value [addr2phys] stores for [ptr], if it does not panic. *)
Definition translate (E : Env) (w : Port) (ptr : Z) : option Z :=
  if _dmar w then Some ptr
  else match virt_to_phys E ptr with
       | Some phys => if phys =? 0 then None else Some phys
       | None => None
       end.

(** Every address translates: the IOMMU is in use, or OP_VIRT_TO_PHYS
    answers. *)
Definition translates (E : Env) (w : Port) : Prop :=
  forall ptr, translate E w ptr <> None.

(** The address of the command table of the current slot, as [set_command]
    passes it to [addr2phys]. *)
Definition ct_slot_addr (w : Port) : Z := wrap32 (ct_addr w + 4 * ct_index (_tag w)).

(** Command Header dword 0 of a slot, and its PRD count (bits 16-31). *)
Definition slot_header (w : Port) (tag : Z) : Z := rd (_cl w) (tag * CL_DWORDS).
Definition prd_count (w : Port) (tag : Z) : Z := Z.shiftr (slot_header w tag) 16.

(** Dword [k] of the command FIS of a slot, and its command byte (byte 2). *)
Definition fis_dword (w : Port) (tag k : Z) : Z := rd (_ct w) (ct_index tag + k).
Definition fis_command (w : Port) (tag : Z) : Z :=
  Z.land (Z.shiftr (fis_dword w tag 0) 16) 0xff.

(** Dword [k] of PRD [prd] of a slot. *)
Definition prd_dword (w : Port) (tag prd k : Z) : Z :=
  rd (_ct w) (prd_index tag prd + k).

(** The values written to a register, oldest first. *)
Definition writes_to (r : preg) (w : Port) : list Z :=
  map snd (filter (fun e => bool_decide (fst e = r)) (mmio w)).

(** The arrays have the sizes the constructor allocates, the command list
    holds dwords, and the slot cursor is inside the slot range. *)
Definition port_wf (w : Port) : Prop :=
  1 <= _max_slots w <= 32 /\
  0 <= _tag w < _max_slots w /\
  length (_cl w) = Z.to_nat (_max_slots w * CL_DWORDS) /\
  length (_ct w) = Z.to_nat (_max_slots w * (128 + MAX_PRD_COUNT * 16) / 4) /\
  length (_usertags w) = 32%nat /\
  Forall (fun v => 0 <= v < 2 ^ 32) (_cl w).

#[global] Instance port_wf_dec w : Decision (port_wf w).
Proof. unfold port_wf. apply _. Defined.

(** Descriptors as the message type has them: two [unsigned] members. *)
Definition dma_wf (d : DmaDescriptor) : Prop :=
  0 <= bytecount d < 2 ^ 32 /\ 0 <= byteoffset d < 2 ^ 32.

(** The address [receive] passes to [add_dma] for a descriptor. *)
Definition dma_ptr (msg : MessageDisk) (d : DmaDescriptor) : Z :=
  wrap32 (msg_physoffset msg + byteoffset d).

(** A descriptor that passes the bounds check of [receive] and the byte-count
    checks of [add_dma]. *)
Definition dma_accepted (msg : MessageDisk) (d : DmaDescriptor) : bool :=
  (byteoffset d <=? msg_physsize msg)
  && (wrap32 (byteoffset d + bytecount d) <=? msg_physsize msg)
  && Z.even (bytecount d)
  && (bytecount d <? 2 ^ 22).

(** When [add_dma] refuses a byte count or a full PRD table. *)
Definition prd_rejected (w : Port) (count : Z) : bool :=
  Z.odd count || (2 ^ 22 <=? count) || (MAX_PRD_COUNT <=? prd_count w (_tag w)).

(** The opcode [receive] chooses. *)
Definition opcode (t : disk_type) (lba48 : bool) : Z :=
  match t with
  | DISK_READ => if lba48 then 0x25 else 0xc8
  | DISK_WRITE => if lba48 then 0x35 else 0xca
  | DISK_FLUSH_CACHE => if lba48 then 0xea else 0xe7
  | _ => 0
  end.

(** ** The states the operations leave *)

(** The state [set_command] leaves, [phys] being the physical address of the
    command table of the slot. *)
Definition command_set (w : Port) (phys : Z) (header : Z) (fis : list Z) : Port :=
  let tag := _tag w in
  set_ct (wr_list (ct_index tag) (dwords_of_bytes fis) (_ct w))
    (set_cl (wr (tag * CL_DWORDS + 2 + 1) 0
               (wr (tag * CL_DWORDS + 2 + 0) (wrap32 phys)
                  (wr (tag * CL_DWORDS + 1) 0
                     (wr (tag * CL_DWORDS + 0) header (_cl w))))) w).

(** The state [add_dma] and [add_prd] leave when they append a PRD for a
    buffer at physical address [phys]. *)
Definition prd_appended (w : Port) (phys count : Z) : Port :=
  let tag := _tag w in
  let hdr := slot_header w tag in
  let p := prd_index tag (Z.shiftr hdr 16) in
  set_ct (wr (p + 3) (wrap32 (count - 1))
            (wr (p + 1) 0 (wr (p + 0) (wrap32 phys) (_ct w))))
         (set_cl (wr (tag * CL_DWORDS + 0) (wrap32 (hdr + Z.shiftl 1 16)) (_cl w)) w).

(** The state after PRDs for the descriptors [dma] have been appended. *)
Fixpoint prds_appended (E : Env) (msg : MessageDisk) (dma : list DmaDescriptor)
    (w : Port) : Port :=
  match dma with
  | [] => w
  | d :: rest =>
      prds_appended E msg rest
        (prd_appended w (default 0 (translate E w (dma_ptr msg d))) (bytecount d))
  end.

(** The state [start_command] leaves. *)
Definition command_started (w : Port) (usertag : Z) : Port :=
  let tag := _tag w in
  set_tag ((tag + 1) mod _max_slots w)
    (log_write CI (bit32 tag)
       (set_usertags (wr tag usertag (_usertags w))
          (set_inprogress (Z.lor (_inprogress w) (bit32 tag)) w))).

(** The state in which [receive] leaves the slot once it has set up the
    command of a request: header and FIS written, no PRD yet. *)
Definition request_set (w : Port) (phys : Z) (msg : MessageDisk) : Port :=
  let lba48 := _lba48 (_params w) in
  match msg_type msg with
  | DISK_FLUSH_CACHE =>
      command_set w phys (cl_header true false 0)
        (cfis (opcode DISK_FLUSH_CACHE lba48) 0 0 0 0)
  | t =>
      command_set w phys (cl_header (negb (is_write t)) false 0)
        (cfis (opcode t lba48) (msg_sector msg)
           (Z.shiftr (sum_length (msg_dma msg)) 9) 0 0)
  end.

(** What one iteration of the loop of [irq] does for slot [tag]. *)
Definition complete_slot (w : Port) (tag : Z) : Port :=
  set_inprogress (Z.land (_inprogress w) (not32 (bit32 tag)))
    (set_usertags (wr tag (not32 0) (_usertags w))
       (log_commit {| commit_disknr := _disknr w;
                      commit_usertag := rd (_usertags w) tag;
                      commit_status := DISK_OK |} w)).

(** The commit message for slot [tag] in state [w]. *)
Definition commit_of (w : Port) (tag : Z) : MessageDiskCommit :=
  {| commit_disknr := _disknr w;
     commit_usertag := rd (_usertags w) tag;
     commit_status := DISK_OK |}.

(** [w] after [r] more register reads and [c] more clock readings. *)
Definition advance (r c : nat) (w : Port) : Port :=
  {| _disknr := _disknr w; _max_slots := _max_slots w; _dmar := _dmar w;
     cl_addr := cl_addr w; ct_addr := ct_addr w; fis_addr := fis_addr w;
     _cl := _cl w; _ct := _ct w; _tag := _tag w; _params := _params w;
     _usertags := _usertags w; _inprogress := _inprogress w;
     mmio := mmio w; n_reads := r + n_reads w; n_clock := c + n_clock w;
     commits := commits w |}.

(** What [init_port] leaves as it found it. *)
Definition init_frame (w w' : Port) : Prop :=
  _disknr w' = _disknr w /\ _max_slots w' = _max_slots w /\ _dmar w' = _dmar w /\
  cl_addr w' = cl_addr w /\ ct_addr w' = ct_addr w /\ fis_addr w' = fis_addr w /\
  _cl w' = _cl w /\ _ct w' = _ct w /\ _tag w' = _tag w /\
  _params w' = _params w /\ _usertags w' = _usertags w /\ commits w' = commits w.

(** ** Observations on the environment *)

(** Whether the i-th register read, made on [reg], finds
    [( *reg & mask) == value]. *)
Definition reg_sat (E : Env) (reg : preg) (mask value : Z) (i : nat) : bool :=
  Z.land (wrap32 (hw_read E i reg)) mask =? value.

(** The i-th reading of the clock, in ticks of 1/FREQ s. *)
Definition clock_at (E : Env) (i : nat) : Z := wrap64 (hw_clock E i).

(** The clock gets 200 ticks further within [fuel] readings, wherever one
    starts: no wait runs out of fuel. *)
Definition live (E : Env) (fuel : nat) : Prop :=
  forall c, exists k,
    (k < fuel)%nat /\ wrap64 (clock_at E c + TIMEOUT) <= clock_at E (S c + k).

(** ** The set bits of a number *)

(** The set bits of a number, lowest first; [pos_bits p i] are those of [p]
    shifted up by [i]. *)
Fixpoint pos_bits (p : positive) (i : Z) : list Z :=
  match p with
  | xH => [i]
  | xO q => pos_bits q (i + 1)
  | xI q => i :: pos_bits q (i + 1)
  end.

Definition set_bits (x : Z) : list Z :=
  match x with
  | Zpos p => pos_bits p 0
  | _ => []
  end.

(** [p] without its lowest set bit. *)
Fixpoint clear_lowest (p : positive) : Z :=
  match p with
  | xH => 0
  | xI q => Zpos (xO q)
  | xO q => 2 * clear_lowest q
  end.

(** ** Predicates on programs *)

(** [m] leaves [P] standing in the state it ends in, however it ends. *)
Definition preserves {A} (P : Port -> Prop) (m : M A) : Prop :=
  forall w, P w -> P (world_of (m w)).

(** From a state with [P], [m] returns, in a state with [P]. *)
Definition returns {A} (P : Port -> Prop) (m : M A) : Prop :=
  forall w, P w -> exists a w', m w = Ok a w' /\ P w'.

(** [m] returns 0 only in states with [R]. *)
Definition zero_only_if (R : Port -> Prop) (m : M Z) : Prop :=
  forall w w', m w = Ok 0 w' -> R w'.

(** ** The slot invariant *)

(** The slot count is one the hardware can report and the cursor is inside
    it. *)
Definition slots_ok (w : Port) : Prop :=
  1 <= _max_slots w <= 32 /\ 0 <= _tag w < _max_slots w.

(** Only bits below [_max_slots] are set in [_inprogress]. *)
Definition port_inv (w : Port) : Prop :=
  slots_ok w /\ 0 <= _inprogress w < 2 ^ _max_slots w.

(** The operations of a port, as the HBA driver, the disk bus and the port
    itself call them. *)
Inductive port_op :=
| OpInit (buffer : Z)
| OpStartCommand (usertag : Z)
| OpIdentifyDrive (buffer : Z)
| OpSetFeatures (features count : Z)
| OpIrq
| OpReceive (msg : MessageDisk).

Definition run_op (E : Env) (fuel : nat) (op : port_op) (w : Port) : Port :=
  match op with
  | OpInit buffer => world_of (init E fuel buffer w)
  | OpStartCommand usertag => world_of (start_command usertag w)
  | OpIdentifyDrive buffer => world_of (identify_drive E fuel buffer w)
  | OpSetFeatures features count => world_of (set_features E fuel features count w)
  | OpIrq => world_of (irq E fuel w)
  | OpReceive msg => world_of (receive E msg w)
  end.

(** The states of a port that [create_ahci_port] has constructed, whatever
    has been called on it since. *)
Inductive built (E : Env) : Port -> Prop :=
| built_new cap disknr dmar h :
    built E (HostAhciPort_new disknr (max_slots_of_cap cap) dmar h)
| built_op w fuel op :
    built E w -> built E (run_op E fuel op w).

(** The states of such a port from the moment [init] has got as far as
    resetting [_inprogress]. *)
Inductive reachable (E : Env) : Port -> Prop :=
| reach_reset w fuel w' :
    built E w -> init_port E fuel w = Ok 0 w' -> reachable E w'
| reach_op w fuel op :
    reachable E w -> reachable E (run_op E fuel op w).

(** ** Concrete environments, states and messages, for examples *)

(** A device that answers every register read with 0 (so every command is
    complete at once), on a clock that advances by one at each reading. *)
Definition idle_env : Env := {|
  hw_read := fun _ _ => 0;
  hw_clock := fun n => Z.of_nat n;
  virt_to_phys := fun a => Some a;
  dma_identify := fun _ i => if i =? 2 then 0xc837 else if i =? 83 then 0x400 else 0;
  update_params := fun buf _ => (0, {| _lba48 := Z.testbit (buf 83) 10 |});
  irq_buffer := 0x7000
|}.

(** The idle device, reporting an error in TFD. *)
Definition error_env : Env := {|
  hw_read := fun _ r => match r with TFD => 1 | _ => 0 end;
  hw_clock := fun n => Z.of_nat n;
  virt_to_phys := fun a => Some a;
  dma_identify := fun _ i => if i =? 2 then 0xc837 else if i =? 83 then 0x400 else 0;
  update_params := fun buf _ => (0, {| _lba48 := Z.testbit (buf 83) 10 |});
  irq_buffer := 0x7000
|}.

(** A device whose CI bit 0 is still set at the first read and clear at the
    second, on a clock that jumps from 0 to 200 ms in between. *)
Definition late_env : Env := {|
  hw_read := fun n r => match n with O => 1 | _ => 0 end;
  hw_clock := fun n => match n with O => 0 | _ => 200 end;
  virt_to_phys := fun a => Some a;
  dma_identify := fun _ _ => 0;
  update_params := fun _ _ => (0, {| _lba48 := false |});
  irq_buffer := 0x7000
|}.

(** A device that never stops its command engine: CMD reads ST and CR set,
    on a clock that advances 200 ms between readings. *)
Definition stuck_env : Env := {|
  hw_read := fun _ r => match r with CMD => 0x8001 | _ => 0 end;
  hw_clock := fun n => 200 * Z.of_nat n;
  virt_to_phys := fun a => Some a;
  dma_identify := fun _ _ => 0;
  update_params := fun _ _ => (0, {| _lba48 := false |});
  irq_buffer := 0x7000
|}.

Definition zero_heap : Heap := {|
  heap_fis := 0x1000; heap_cl := 0x2000; heap_ct := 0x3000;
  heap_cl_mem := fun _ => 0; heap_ct_mem := fun _ => 0;
  heap_usertags := fun _ => 0; heap_inprogress := 0;
  heap_params := {| _lba48 := false |}
|}.

(** Heap memory with all bits set. *)
Definition ones_heap : Heap := {|
  heap_fis := 0x1000; heap_cl := 0x2000; heap_ct := 0x3000;
  heap_cl_mem := fun _ => 0xffffffff; heap_ct_mem := fun _ => 0xffffffff;
  heap_usertags := fun _ => 0xffffffff; heap_inprogress := 0xffffffff;
  heap_params := {| _lba48 := false |}
|}.

(** A port with two slots, and the same port after its bring-up. *)
Definition fresh_port : Port := HostAhciPort_new 0 2 true zero_heap.
Definition ready_port : Port := world_of (init idle_env 1 0x5000 fresh_port).

(** The two-slot port when [init] has got past its reset. *)
Definition reset_port : Port := world_of (init_port idle_env 1 fresh_port).

Definition read_unaligned : MessageDisk := {|
  msg_type := DISK_READ; msg_disknr := 0; msg_sector := 42;
  msg_dma := [ {| bytecount := 513; byteoffset := 0 |} ];
  msg_physoffset := 0x100000; msg_physsize := 0x10000; msg_usertag := 0xABCD
|}.

(** A READ of eight sectors into one buffer. *)
Definition read_4k : MessageDisk := {|
  msg_type := DISK_READ; msg_disknr := 0; msg_sector := 42;
  msg_dma := [ {| bytecount := 4096; byteoffset := 0 |} ];
  msg_physoffset := 0x100000; msg_physsize := 0x10000; msg_usertag := 0xABCD
|}.

(** A READ whose second descriptor lies outside the caller's region, and a
    READ of one descriptor of no bytes. *)
Definition read_out_of_bounds : MessageDisk := {|
  msg_type := DISK_READ; msg_disknr := 0; msg_sector := 42;
  msg_dma := [ {| bytecount := 4096; byteoffset := 0 |};
               {| bytecount := 512; byteoffset := 0x20000 |} ];
  msg_physoffset := 0x100000; msg_physsize := 0x10000; msg_usertag := 0xABCD
|}.

Definition read_nothing : MessageDisk := {|
  msg_type := DISK_READ; msg_disknr := 0; msg_sector := 42;
  msg_dma := [ {| bytecount := 0; byteoffset := 0x200 |} ];
  msg_physoffset := 0x100000; msg_physsize := 0x10000; msg_usertag := 0xABCD
|}.

Definition flush : MessageDisk := {|
  msg_type := DISK_FLUSH_CACHE; msg_disknr := 0; msg_sector := 0;
  msg_dma := []; msg_physoffset := 0; msg_physsize := 0; msg_usertag := 0xABCD
|}.

(** A controller with ports 30 and 31, whose ABAR is 2 KiB aligned. *)
Definition high_conf (reg : Z) : Z :=
  if reg =? 4 then 6 else if reg =? 0x24 then 0xfebf1800 else 0.
Definition high_alloc (value len : Z) : option Z :=
  if value =? 0xfebf1800 then Some 0x10000 else Some 0x20000.
Definition high_pi : Z := 0xc0000001.

(** ** What the set-up of a command touches *)

(** What the set-up of a command leaves as it found it: everything but the
    command list and the command tables. *)
Definition tables_frame (w w' : Port) : Prop :=
  _disknr w' = _disknr w /\ _max_slots w' = _max_slots w /\ _dmar w' = _dmar w /\
  cl_addr w' = cl_addr w /\ ct_addr w' = ct_addr w /\ fis_addr w' = fis_addr w /\
  _tag w' = _tag w /\ _params w' = _params w /\ _usertags w' = _usertags w /\
  _inprogress w' = _inprogress w /\ mmio w' = mmio w /\
  n_reads w' = n_reads w /\ n_clock w' = n_clock w /\ commits w' = commits w.

(** The usertag [receive] passes to [start_command]. *)
Definition usertag_of (msg : MessageDisk) : Z :=
  match msg_type msg with
  | DISK_FLUSH_CACHE => 0
  | _ => msg_usertag msg
  end.

(** ** Decoding a command FIS *)

(** Byte [i] of the command FIS of a slot: the device reads the command
    table as bytes, the lowest byte of each dword first. *)
Definition fis_byte (w : Port) (tag i : Z) : Z :=
  Z.land (Z.shiftr (fis_dword w tag (i / 4)) (8 * (i mod 4))) 0xff.

(** The fields [set_command] lays out in the FIS: the sector number in
    bytes 4-6 (bits 0-23) and 8-10 (bits 24-47), the sector count in bytes
    12-13, the features in bytes 3 and 11. *)
Definition fis_lba (w : Port) (tag : Z) : Z :=
  fis_byte w tag 4 + 2 ^ 8 * fis_byte w tag 5 + 2 ^ 16 * fis_byte w tag 6
  + 2 ^ 24 * fis_byte w tag 8 + 2 ^ 32 * fis_byte w tag 9
  + 2 ^ 40 * fis_byte w tag 10.

Definition fis_count (w : Port) (tag : Z) : Z :=
  fis_byte w tag 12 + 2 ^ 8 * fis_byte w tag 13.

Definition fis_features (w : Port) (tag : Z) : Z :=
  fis_byte w tag 3 + 2 ^ 8 * fis_byte w tag 11.

(** ** States and traces of the port operations *)

(** The state in which [identify_drive] starts its wait: IDENTIFY DEVICE set
    up in the slot under the cursor with one PRD of 512 bytes, and
    started. *)
Definition identify_issued (w : Port) (phys_ct phys_buf : Z) : Port :=
  command_started
    (prd_appended (command_set w phys_ct (cl_header true false 0) (cfis 0xec 0 0 0 0))
       phys_buf 512) 0.

(** A device that never completes a command: CI reads all ones, the other
    registers 0, on a clock that advances 200 ms between readings. *)
Definition busy_env : Env := {|
  hw_read := fun _ r => match r with CI => 0xffffffff | _ => 0 end;
  hw_clock := fun n => 200 * Z.of_nat n;
  virt_to_phys := fun a => Some a;
  dma_identify := fun _ _ => 0;
  update_params := fun _ _ => (0, {| _lba48 := false |});
  irq_buffer := 0x7000
|}.

(** The state after [start_command] has been called for each of the usertags
    [us] in turn, with no completion in between. *)
Definition started_all (us : list Z) (w : Port) : Port :=
  fold_left (fun w u => world_of (start_command u w)) us w.

(** The slot the [k]-th of these calls uses. *)
Definition slot_of (w : Port) (k : nat) : Z := (_tag w + Z.of_nat k) mod _max_slots w.

(** [w1] is [w] after register accesses that wrote [l], in this order, and
    possibly a reset of [_inprogress]. *)
Definition wrote (w w1 : Port) (l : list (preg * Z)) : Prop :=
  init_frame w w1 /\ (n_reads w <= n_reads w1)%nat /\ mmio w1 = mmio w ++ l.

(** The register writes with which [init] brings the port up once the
    command engine is stopped, [pc] and [pf] the physical addresses of the
    command list and of the received-FIS area, [c1], [c2], [c3] the values
    read from CMD before each update. *)
Definition bring_up_writes (pc pf c1 c2 c3 : Z) : list (preg * Z) :=
  [ (CLB, wrap32 pc); (CLBU, 0); (FB, wrap32 pf); (FBU, 0);
    (SERR, 0xffffffff); (IS, 0xffffffff);
    (CMD, Z.lor c1 0x10); (CMD, Z.lor c2 0x8); (CMD, Z.lor c3 0x1);
    (IE, 0xf98000f1) ].

(** ** The host bus adapter *)

(** The named members of [HostAhciRegister] the driver accesses. *)
Inductive hreg := HCAP | HGHC | HIS | HPI | HVS | HCAP2 | HBOHC.

(** The members of [HostAhci], the log of its register accesses, and the
    disk bus.

    Modelled from the spec: the disk bus ([DBus<MessageDisk>], declared in
    vmm/motherboard.h, which is absent) registers a port "using the next
    available disk number": [count()] is the number of receivers added so
    far and [add] appends one.  [bus_base] receivers were on the bus before
    this controller was attached; [bus_added] are the (key, port number) of
    those added since, oldest first. *)
Record HostAhci := {
  _bdf : Z;
  _hostirq : Z;
  _regs : Z;
  _regs_high : Z;
  _ports : list (option Port);      (* [_ports[32]], [None] a null pointer *)
  hba_mmio : list (hreg * Z);       (* register writes, oldest first *)
  hba_reads : nat;                  (* volatile register reads done so far *)
  bus_base : Z;
  bus_added : list (Z * Z)
}.

Definition with_ports (v : list (option Port)) (h : HostAhci) : HostAhci :=
  {| _bdf := _bdf h; _hostirq := _hostirq h; _regs := _regs h;
     _regs_high := _regs_high h; _ports := v; hba_mmio := hba_mmio h;
     hba_reads := hba_reads h; bus_base := bus_base h; bus_added := bus_added h |}.

Definition log_hba_write (r : hreg) (v : Z) (h : HostAhci) : HostAhci :=
  {| _bdf := _bdf h; _hostirq := _hostirq h; _regs := _regs h;
     _regs_high := _regs_high h; _ports := _ports h;
     hba_mmio := hba_mmio h ++ [(r, v)];
     hba_reads := hba_reads h; bus_base := bus_base h; bus_added := bus_added h |}.

Definition count_hba_read (h : HostAhci) : HostAhci :=
  {| _bdf := _bdf h; _hostirq := _hostirq h; _regs := _regs h;
     _regs_high := _regs_high h; _ports := _ports h; hba_mmio := hba_mmio h;
     hba_reads := S (hba_reads h); bus_base := bus_base h;
     bus_added := bus_added h |}.

(** [bus_disk.count()] *)
Definition bus_count (h : HostAhci) : Z :=
  bus_base h + Z.of_nat (length (bus_added h)).

(** [bus_disk.add(_ports[nr], ..., bus_disk.count())] *)
Definition bus_add (nr : Z) (h : HostAhci) : HostAhci :=
  {| _bdf := _bdf h; _hostirq := _hostirq h; _regs := _regs h;
     _regs_high := _regs_high h; _ports := _ports h; hba_mmio := hba_mmio h;
     hba_reads := hba_reads h; bus_base := bus_base h;
     bus_added := bus_added h ++ [(bus_count h, nr)] |}.

(** [_ports[nr]] and its update. *)
Definition port_at (h : HostAhci) (nr : Z) : option Port :=
  default None (_ports h !! Z.to_nat nr).

Definition set_port (nr : Z) (p : Port) (h : HostAhci) : HostAhci :=
  with_ports (<[Z.to_nat nr := Some p]> (_ports h)) h.

(** What the controller driver finds around it. *)
Record HostEnv := {
  (** the value the n-th volatile read of a controller register returns when
      it reads this register *)
  hba_read : nat -> hreg -> Z;
  (** what [portreg->sig] reads in the test of [create_ahci_port] *)
  sig_read : Z -> Z;
  (** the environment of the port with this number *)
  port_env : Z -> Env;
  (** what [new] and [memalign] hand out for the port with this number *)
  port_heap : Z -> Heap;
  (** address of the local [buffer] of [create_ahci_port] *)
  identify_buffer : Z
}.

(** A run of the controller driver ends in a state, or fails in one. *)
Inductive HRes (A : Type) :=
| HOk (a : A) (h : HostAhci)
| HFail (f : failure) (h : HostAhci).
Arguments HOk {A} a h.
Arguments HFail {A} f h.

Definition hba_of {A} (r : HRes A) : HostAhci :=
  match r with HOk _ h => h | HFail _ h => h end.

Section Controller.

Variable HE : HostEnv.

(** A volatile read of a controller register. *)
Definition hba_reg_read (r : hreg) (h : HostAhci) : Z * HostAhci :=
  (wrap32 (hba_read HE (hba_reads h) r), count_hba_read h).

(** [_regs->r |= v] *)
Definition hba_reg_or (r : hreg) (v : Z) (h : HostAhci) : HostAhci :=
  let '(old, h1) := hba_reg_read r h in log_hba_write r (Z.lor old v) h1.

(** [create_ahci_port]: [_regs->pi] is read, [portreg->sig] only when the
    bit of the port is set in it; the second read of [sig], for
    [Logging::printf], has no effect on the state. *)
Definition create_ahci_port (fuel : nat) (nr : Z) (dmar : bool) (h : HostAhci)
    : HRes unit :=
  let '(pi, h1) := hba_reg_read HPI h in
  (* port implemented and the signature is not 0xffffffff? *)
  if negb (Z.land pi (bit32 nr) =? 0) && negb (not32 (wrap32 (sig_read HE nr)) =? 0)
  then
    let '(cap, h2) := hba_reg_read HCAP h1 in
    let port := HostAhciPort_new (bus_count h2) (max_slots_of_cap cap) dmar
                  (port_heap HE nr) in
    match init (port_env HE nr) fuel (identify_buffer HE) port with
    | Ok r port' =>
        let h3 := set_port nr port' h2 in
        if negb (r =? 0) then HOk tt h3 else HOk tt (bus_add nr h3)
    | Fail f port' => HFail f (set_port nr port' h2)
    end
  else HOk tt h1.

(** The two [for] loops of the constructor that create the ports. *)
Fixpoint create_ports (fuel : nat) (dmar : bool) (nrs : list Z) (h : HostAhci)
    : HRes unit :=
  match nrs with
  | [] => HOk tt h
  | nr :: rest =>
      match create_ahci_port fuel nr dmar h with
      | HOk _ h1 => create_ports fuel dmar rest h1
      | HFail f h1 => HFail f h1
      end
  end.

Definition low_ports : list Z := map Z.of_nat (seq 0 30).
Definition high_ports : list Z := [30; 31].

(** The constructor [HostAhci::HostAhci].  The six reads for
    [Logging::printf] only advance the read counter. *)
Definition HostAhci_new (fuel : nat) (conf_read : Z -> Z)
    (alloc_iomem : Z -> Z -> option Z) (bdf hostirq : Z) (dmar : bool) (base : Z)
    : HRes unit :=
  let h0 := {| _bdf := bdf; _hostirq := hostirq; _regs := 0; _regs_high := 0;
               _ports := []; hba_mmio := []; hba_reads := 0;
               bus_base := base; bus_added := [] |} in
  match map_registers conf_read alloc_iomem (hba_read HE 0 HPI) with
  | AttachAssert => HFail AssertFailed h0
  | AttachPanic => HFail Panicked h0
  | Mapped regs regs_high _ =>
      let h1 := {| _bdf := bdf; _hostirq := hostirq; _regs := regs;
                   _regs_high := regs_high; _ports := []; hba_mmio := [];
                   hba_reads := 1; bus_base := base; bus_added := [] |} in
      (* enable AHCI *)
      let h2 := hba_reg_or HGHC 0x80000000 h1 in
      let h3 := Nat.iter 6 count_hba_read h2 in
      let '(bohc, h4) := hba_reg_read HBOHC h3 in
      if negb (bohc =? 0) then HFail AssertFailed h4
      else
        (* create ports *)
        let h5 := with_ports (replicate 32 None) h4 in
        match create_ports fuel dmar low_ports h5 with
        | HFail f h6 => HFail f h6
        | HOk _ h6 =>
            match (if regs_high =? 0 then HOk tt h6
                   else create_ports fuel dmar high_ports h6) with
            | HFail f h7 => HFail f h7
            | HOk _ h7 =>
                (* clear pending irqs *)
                let '(pi, h8) := hba_reg_read HPI h7 in
                let h9 := log_hba_write HIS pi h8 in
                (* enable IRQs *)
                HOk tt (hba_reg_or HGHC 2 h9)
            end
        end
  end.

(** The [while] of [HostAhci::receive]: [n] bounds the iterations, 32 are
    enough for a 32-bit [is]. *)
Fixpoint irq_ports (fuel : nat) (n : nat) (is_ : Z) (h : HostAhci) : HRes unit :=
  if is_ =? 0 then HOk tt h
  else match n with
       | O => HFail OutOfFuel h
       | S n' =>
           let port := bsf is_ in
           let rest := Z.land is_ (not32 (bit32 port)) in
           match port_at h port with
           | Some p =>
               match irq (port_env HE port) fuel p with
               | Ok _ p' => irq_ports fuel n' rest (set_port port p' h)
               | Fail f p' => HFail f (set_port port p' h)
               end
           | None => irq_ports fuel n' rest h
           end
       end.

(** [HostAhci::receive(MessageIrq &)].

    Modelled from the spec: [MessageIrq] is declared in vmm/motherboard.h,
    which is absent; the driver reads its [line] and whether its [type] is
    [ASSERT_IRQ]. *)
Definition receive_irq (fuel : nat) (line : Z) (assert_irq : bool) (h : HostAhci)
    : HRes bool :=
  if negb (line =? _hostirq h) || negb assert_irq then HOk false h
  else
    let '(oldis, h1) := hba_reg_read HIS h in
    match irq_ports fuel 32 oldis h1 with
    | HOk _ h2 => HOk true (log_hba_write HIS oldis h2)
    | HFail f h2 => HFail f h2
    end.

End Controller.

(** The number of ports below [nr] that are registered on the disk bus. *)
Definition registered_below (h : HostAhci) (nr : Z) : Z :=
  Z.of_nat (length (List.filter (fun e => snd e <? nr) (bus_added h))).

(** ** Observations on the controller *)

(** [p] is the object [create_ahci_port] has made for port [nr]: a port
    constructed with some disk number and slot count and then initialised,
    [registered] telling whether [init] returned 0. *)
Definition created (HE : HostEnv) (fuel : nat) (dmar : bool) (nr : Z) (p : Port)
    (registered : bool) : Prop :=
  exists disknr cap r,
    init (port_env HE nr) fuel (identify_buffer HE)
      (HostAhciPort_new disknr (max_slots_of_cap cap) dmar (port_heap HE nr))
    = Ok r p /\
    registered = (r =? 0).

(** The state of the ports and of the disk bus while the constructor goes
    through the ports, [bound] being the next port number. *)
Definition ports_inv (HE : HostEnv) (fuel : nat) (dmar : bool) (h : HostAhci)
    (bound : Z) : Prop :=
  length (_ports h) = 32%nat /\
  (forall nr, bound <= nr -> port_at h nr = None) /\
  (forall i e, bus_added h !! i = Some e ->
     fst e = bus_base h + Z.of_nat i /\ 0 <= snd e < bound /\
     exists p, port_at h (snd e) = Some p /\ _disknr p = fst e) /\
  StronglySorted Z.lt (map snd (bus_added h)) /\
  (forall nr p, 0 <= nr -> port_at h nr = Some p ->
     nr < bound /\
     _disknr p = bus_base h + registered_below h nr /\
     created HE fuel dmar nr p (bool_decide (nr ∈ map snd (bus_added h)))).

(** A controller with ports 0, 1 and 2 implemented: the command engine of
    port 0 never stops, port 1 has signature 0xFFFFFFFF, port 2 answers at
    once; IS reads bits 0 and 2. *)
Definition three_port_host : HostEnv := {|
  hba_read := fun _ r => match r with
                         | HPI => 0x7 | HCAP => 0x100 | HIS => 0x5 | _ => 0
                         end;
  sig_read := fun nr => if nr =? 1 then 0xffffffff else 0x101;
  port_env := fun nr => if nr =? 0 then stuck_env else idle_env;
  port_heap := fun _ => zero_heap;
  identify_buffer := 0x5000
|}.

(** Whether [create_ahci_port] finds a device at port [nr], [pi] being what
    PI reads. *)
Definition port_present (HE : HostEnv) (pi nr : Z) : bool :=
  Z.testbit pi nr && negb (wrap32 (sig_read HE nr) =? 0xffffffff).

(** What an interrupt does to the port objects: [irq] has run on those whose
    bit is set in [is_], the others are as before. *)
Definition irq_dispatched (HE : HostEnv) (fuel : nat) (is_ : Z) (h h' : HostAhci)
    : Prop :=
  forall nr, 0 <= nr < 32 ->
    port_at h' nr
    = if Z.testbit is_ nr
      then option_map (fun p => world_of (irq (port_env HE nr) fuel p)) (port_at h nr)
      else port_at h nr.

(** A controller state with one port object, at port 0, for interrupt line
    0x13. *)
Definition one_port_hba : HostAhci := {|
  _bdf := 0; _hostirq := 0x13; _regs := 0x10000; _regs_high := 0;
  _ports := Some ready_port :: replicate 31 None;
  hba_mmio := []; hba_reads := 0; bus_base := 0; bus_added := [(0, 0)]
|}.

(** ** Attaching the controllers *)

(** What the [hostahci] parameter handler finds around it.

    Modelled from the spec: the PCI service ([HostPci], declared in
    host/hostpci.h, which is absent) offers [search_device(class, subclass,
    index)], giving the bdf of the index-th matching function or 0,
    [conf_read(bdf, reg)], [get_gsi(bdf, fallback)] and [enable_msi(bdf,
    irq)]; OP_ASSIGN_PCI, OP_ALLOC_IOMEM and OP_ATTACH_HOSTIRQ are requests
    on the host-operation bus, which succeed or fail. *)
Record PciEnv := {
  search_device : Z -> Z;
  pci_conf_read : Z -> Z -> Z;
  get_gsi : Z -> Z -> Z;
  enable_msi : Z -> Z -> bool;
  assign_pci : Z -> bool;
  host_alloc_iomem : Z -> Z -> option Z;
  attach_hostirq : Z -> bool;
  (** the registers, ports and heap of the controller with this bdf *)
  controller_env : Z -> HostEnv
}.

(** The controllers added to [bus_hostirq], oldest first, and the number of
    receivers on the disk bus. *)
Record Motherboard := {
  controllers : list HostAhci;
  disk_count : Z
}.

Inductive scan_result :=
| Scanned (m : Motherboard)
| ScanFailed (f : failure) (m : Motherboard).

(** The [for] of the handler of [PARAM(hostahci, ...)]: [mask] is [argv[0]],
    [fallback] is [argv[1]], [num] the loop counter, [n] bounds the
    iterations. *)
Fixpoint hostahci_param (PE : PciEnv) (fuel : nat) (mask fallback : Z) (n : nat)
    (num : Z) (m : Motherboard) : scan_result :=
  match n with
  | O => ScanFailed OutOfFuel m
  | S n' =>
      let bdf := wrap32 (search_device PE num) in
      let num := wrap32 (num + 1) in
      if bdf =? 0 then Scanned m
      else if negb (Z.land (not32 mask) (bit32 num) =? 0)
      then (* Ignore AHCI controller *)
        hostahci_param PE fuel mask fallback n' num m
      else
        let dmar := assign_pci PE bdf in
        let irqline := wrap32 (get_gsi PE bdf fallback) in
        match HostAhci_new (controller_env PE bdf) fuel (pci_conf_read PE bdf)
                (host_alloc_iomem PE) bdf irqline dmar (disk_count m) with
        | HFail f _ => ScanFailed f m
        | HOk _ dev =>
            let m' := {| controllers := controllers m ++ [dev];
                         disk_count := bus_count dev |} in
            if negb ((irqline =? 0xffffffff) || attach_hostirq PE irqline)
            then ScanFailed Panicked m'
            else hostahci_param PE fuel mask fallback n' num m'
        end
  end.

(** Three controllers at bdf 0x100, 0x200 and 0x300, each like
    [three_port_host]. *)
Definition three_controllers : PciEnv := {|
  search_device := fun i => if i =? 0 then 0x100 else if i =? 1 then 0x200
                            else if i =? 2 then 0x300 else 0;
  pci_conf_read := fun _ => high_conf;
  get_gsi := fun _ fallback => fallback;
  enable_msi := fun _ _ => true;
  assign_pci := fun _ => true;
  host_alloc_iomem := high_alloc;
  attach_hostirq := fun _ => true;
  controller_env := fun _ => three_port_host
|}.

(** ** Further predicates on programs and states *)

(** [m] fails, if at all, by [Logging::panic]: it fails no assertion. *)
Definition only_panics {A} (m : M A) : Prop :=
  forall w f w', m w = Fail f w' -> f = Panicked.

(** [w'] has the command headers and command tables of all slots but [tag]
    as [w] has them. *)
Definition kept (tag : Z) (w w' : Port) : Prop :=
  (forall j, 0 <= j -> ~ (tag * 8 <= j < tag * 8 + 8) -> rd (_cl w') j = rd (_cl w) j) /\
  (forall j, 0 <= j -> ~ (tag * 288 <= j < tag * 288 + 288) ->
     rd (_ct w') j = rd (_ct w) j).

(** The two-slot port of a machine without IOMMU ([dmar] false) after its
    bring-up: every address goes through OP_VIRT_TO_PHYS, which the idle
    environment answers with the address itself, so that address 0 does not
    translate. *)
Definition plain_port : Port :=
  world_of (init idle_env 1 0x5000 (HostAhciPort_new 0 2 false zero_heap)).

(** The number of port objects in [_ports]. *)
Definition port_made (o : option Port) : bool :=
  match o with Some _ => true | None => false end.

Definition ports_made (h : HostAhci) : nat :=
  length (List.filter port_made (_ports h)).

(** A wait on [reg] that returned 0 made the register reads [a], ...,
    [b - 1] and no other: the polls before the last found
    [( *reg & mask) != value], and the read after the polling, read [b - 1],
    found [( *reg & mask) == value]. *)
Definition waited (E : Env) (reg : preg) (mask value : Z) (a b : nat) : Prop :=
  exists n, b = (a + S (S n))%nat /\
    (forall i, (i < n)%nat -> reg_sat E reg mask value (a + i) = false) /\
    reg_sat E reg mask value (a + S n) = true.

(** [m] keeps [P] whenever it returns a result other than 0. *)
Definition nonzero_keeps (P : Port -> Prop) (m : M Z) : Prop :=
  forall w r w', P w -> m w = Ok r w' -> r <> 0 -> P w'.

(** A controller with port 0 implemented, reporting one command slot, whose
    command engine never stops; the memory [new] hands out has all bits set;
    IS reads bit 0. *)
Definition stuck_host : HostEnv := {|
  hba_read := fun _ r => match r with HPI => 1 | HIS => 1 | _ => 0 end;
  sig_read := fun _ => 0x101;
  port_env := fun _ => stuck_env;
  port_heap := fun _ => ones_heap;
  identify_buffer := 0x5000
|}.

(** * Properties *)

(** ** Arrays *)

Lemma length_wr i v l : length (wr i v l) = length l.
Proof. unfold wr. apply length_insert. Qed.

Lemma rd_wr_eq l i v :
  0 <= i -> (Z.to_nat i < length l)%nat -> rd (wr i v l) i = v.
Proof.
  intros _ Hlen. unfold rd, wr.
  rewrite list_lookup_insert_eq by exact Hlen. reflexivity.
Qed.

Lemma rd_wr_ne l i j v :
  0 <= i -> 0 <= j -> i <> j -> rd (wr i v l) j = rd l j.
Proof.
  intros Hi Hj Hne. unfold rd, wr.
  rewrite list_lookup_insert_ne by lia. reflexivity.
Qed.

Lemma length_wr_list vs : forall i l, length (wr_list i vs l) = length l.
Proof.
  induction vs as [|v vs IH]; intros i l; simpl; [reflexivity|].
  rewrite IH. apply length_wr.
Qed.

Lemma rd_wr_list_out vs : forall i l j,
  0 <= i -> 0 <= j -> (j < i \/ i + Z.of_nat (length vs) <= j) ->
  rd (wr_list i vs l) j = rd l j.
Proof.
  induction vs as [|v vs IH]; intros i l j Hi Hj Hout; simpl; [reflexivity|].
  simpl in Hout. rewrite IH by lia. apply rd_wr_ne; lia.
Qed.

Lemma rd_wr_list_head v vs i l :
  0 <= i -> (Z.to_nat i < length l)%nat ->
  rd (wr_list i (v :: vs) l) i = v.
Proof.
  intros Hi Hlen. simpl. rewrite rd_wr_list_out by lia.
  apply rd_wr_eq; assumption.
Qed.

Lemma Forall_wr (P : Z -> Prop) i v l : P v -> Forall P l -> Forall P (wr i v l).
Proof. intros Hv Hl. unfold wr. apply Forall_insert; assumption. Qed.

(** ** Machine integers *)

Lemma wrap32_range x : 0 <= wrap32 x < 2 ^ 32.
Proof. unfold wrap32. apply Z.mod_pos_bound. lia. Qed.

Lemma wrap32_small x : 0 <= x < 2 ^ 32 -> wrap32 x = x.
Proof. intros H. unfold wrap32. apply Z.mod_small. exact H. Qed.

Lemma wrap8_range x : 0 <= wrap8 x < 256.
Proof. unfold wrap8. change (2 ^ 8) with 256. apply Z.mod_pos_bound. lia. Qed.

Lemma testbit_wrap32 x i :
  0 <= i -> Z.testbit (wrap32 x) i = (i <? 32) && Z.testbit x i.
Proof.
  intros Hi. unfold wrap32. destruct (Z.ltb_spec i 32).
  - rewrite Z.mod_pow2_bits_low by lia. reflexivity.
  - rewrite Z.mod_pow2_bits_high by lia. reflexivity.
Qed.

Lemma testbit_bit32 n i :
  0 <= n -> 0 <= i -> Z.testbit (bit32 n) i = (i <? 32) && (i =? n).
Proof.
  intros Hn Hi. unfold bit32. rewrite testbit_wrap32 by lia.
  rewrite Z.shiftl_1_l, Z.pow2_bits_eqb by lia.
  rewrite (Z.eqb_sym n i). reflexivity.
Qed.

Lemma testbit_not32 x i :
  0 <= i -> Z.testbit (not32 x) i = (i <? 32) && negb (Z.testbit x i).
Proof.
  intros Hi. unfold not32. rewrite testbit_wrap32 by lia.
  rewrite Z.lnot_spec by lia. reflexivity.
Qed.

Lemma bit32_small n : 0 <= n < 32 -> bit32 n = 2 ^ n.
Proof.
  intros Hn. unfold bit32. rewrite Z.shiftl_1_l. apply wrap32_small.
  split; [lia|]. apply Z.pow_lt_mono_r; lia.
Qed.

(** A non-negative number is below [2^n] exactly when no bit from [n] on
    is set. *)
Lemma below_pow2_bits x n :
  0 <= x -> 0 <= n -> (x < 2 ^ n <-> forall i, n <= i -> Z.testbit x i = false).
Proof.
  intros Hx Hn. split.
  - intros Hlt i Hi. destruct (Z.eq_dec x 0) as [->|Hne].
    + apply Z.bits_0.
    + apply Z.bits_above_log2; [lia|].
      assert (Z.log2 x < n) by (apply Z.log2_lt_pow2; lia). lia.
  - intros Hbits. destruct (Z.eq_dec x 0) as [->|Hne].
    + apply Z.pow_pos_nonneg; lia.
    + apply Z.log2_lt_pow2; [lia|].
      destruct (Z.lt_ge_cases (Z.log2 x) n) as [|Hge]; [assumption|].
      specialize (Hbits (Z.log2 x) Hge).
      rewrite Z.bit_log2 in Hbits by lia. discriminate.
Qed.

Lemma land_nonneg_range x y : 0 <= x < 2 ^ 32 -> 0 <= Z.land x y < 2 ^ 32.
Proof.
  intros [Hx0 Hx]. assert (H0 : 0 <= Z.land x y) by (apply Z.land_nonneg; lia).
  split; [exact H0|].
  apply below_pow2_bits; [exact H0|lia|]. intros i Hi.
  rewrite Z.land_spec.
  assert (Z.testbit x i = false) as -> by (apply (below_pow2_bits x 32); lia).
  reflexivity.
Qed.

(** [bsf] finds the lowest set bit. *)
Lemma bsf_pos_nonneg p : 0 <= bsf_pos p.
Proof. induction p; simpl; lia. Qed.

Lemma bsf_pos_set p : Z.testbit (Zpos p) (bsf_pos p) = true.
Proof.
  induction p as [p IH|p IH|]; simpl bsf_pos; try reflexivity.
  pose proof (bsf_pos_nonneg p).
  change (Zpos p~0) with (2 * Zpos p).
  replace (1 + bsf_pos p) with (Z.succ (bsf_pos p)) by lia.
  rewrite Z.testbit_even_succ by lia. exact IH.
Qed.

Lemma bsf_pos_least p i : 0 <= i < bsf_pos p -> Z.testbit (Zpos p) i = false.
Proof.
  revert i. induction p as [p IH|p IH|]; simpl bsf_pos; intros i Hi; try lia.
  change (Zpos p~0) with (2 * Zpos p).
  destruct (Z.eq_dec i 0) as [->|Hne].
  - apply Z.testbit_even_0.
  - replace i with (Z.succ (i - 1)) by lia.
    rewrite Z.testbit_even_succ by lia. apply IH. lia.
Qed.

Lemma bsf_spec x :
  0 < x ->
  0 <= bsf x /\ Z.testbit x (bsf x) = true /\
  forall i, 0 <= i < bsf x -> Z.testbit x i = false.
Proof.
  destruct x as [|p|p]; try lia. intros _. simpl.
  split; [apply bsf_pos_nonneg|]. split; [apply bsf_pos_set|apply bsf_pos_least].
Qed.

(** ** The length check of [receive] *)

Lemma sum_length_from dma : forall a,
  fold_left (fun acc d => wrap32 (acc + bytecount d)) dma (wrap32 a)
  = wrap32 (a + total_length dma).
Proof.
  induction dma as [|d dma IH]; intros a; simpl.
  - f_equal. lia.
  - replace (wrap32 (wrap32 a + bytecount d)) with (wrap32 (a + bytecount d)).
    + rewrite IH. f_equal. lia.
    + unfold wrap32. rewrite Zplus_mod_idemp_l. reflexivity.
Qed.

Lemma sum_length_total dma : sum_length dma = wrap32 (total_length dma).
Proof. unfold sum_length. apply (sum_length_from dma 0). Qed.

Lemma sum_length_sector dma :
  Z.land (sum_length dma) 0x1ff = total_length dma mod 512.
Proof.
  rewrite sum_length_total. change 0x1ff with (Z.ones 9).
  rewrite Z.land_ones by lia. unfold wrap32.
  rewrite Z.mod_mod_divide; [reflexivity|].
  exists (2 ^ 23). reflexivity.
Qed.

(** C6: a READ or WRITE whose descriptor lengths do not sum to a multiple
    of 512 makes [receive] return false in the state it was called in: no
    register is written, and [_inprogress], [_tag] and [_usertags] are as
    before. *)
Theorem receive_unaligned (E : Env) (msg : MessageDisk) (w : Port) :
  msg_type msg = DISK_READ \/ msg_type msg = DISK_WRITE ->
  total_length (msg_dma msg) mod 512 <> 0 ->
  receive E msg w = Ok false w.
Proof.
  intros Hty Hlen. unfold receive, bind, get, ret.
  destruct (msg_disknr msg =? _disknr w); simpl; [|reflexivity].
  rewrite sum_length_sector.
  destruct (Z.eqb_spec (total_length (msg_dma msg) mod 512) 0) as [Heq|_];
    [contradiction|].
  destruct Hty as [-> | ->]; reflexivity.
Qed.

Lemma receive_unaligned_witness :
  receive idle_env read_unaligned ready_port = Ok false ready_port.
Proof.
  apply (receive_unaligned idle_env read_unaligned ready_port).
  - left. reflexivity.
  - vm_compute. discriminate.
Defined.

(** ** The high-ports mapping *)

(** C3, as the code has it: when a bit of PI above bit 29 is set, the
    constructor maps 0x1000 more bytes at ABAR+0x1000, and the high-ports
    pointer is that mapping plus [ABAR & 0xfe0]. *)
Theorem map_registers_high (conf_read : Z -> Z) (alloc_iomem : Z -> Z -> option Z)
    (pi ptr ptr_high : Z) :
  let bar := wrap32 (conf_read 0x24) in
  Z.land (not32 (wrap32 (conf_read 4))) 6 = 0 ->
  Z.land bar 7 = 0 ->
  alloc_iomem bar 0x1000 = Some ptr -> ptr <> 0 ->
  alloc_iomem (wrap32 (bar + 0x1000)) 0x1000 = Some ptr_high -> ptr_high <> 0 ->
  Z.shiftr (wrap32 pi) 30 <> 0 ->
  map_registers conf_read alloc_iomem pi
  = Mapped ptr (wrap32 (ptr_high + Z.land bar 0xfe0))
      [(bar, 0x1000); (wrap32 (bar + 0x1000), 0x1000)].
Proof.
  intros bar Hcmd Hbar Hlow Hptr Hhigh Hptr_high Hpi. unfold map_registers.
  fold bar. rewrite Hcmd, Hbar, Hlow. cbn [Z.eqb negb].
  destruct (Z.eqb_spec ptr 0) as [|_]; [contradiction|].
  destruct (Z.eqb_spec (Z.shiftr (wrap32 pi) 30) 0) as [|_]; [contradiction|].
  cbn [negb]. rewrite Hhigh.
  destruct (Z.eqb_spec ptr_high 0) as [|_]; [contradiction|].
  reflexivity.
Qed.

Lemma map_registers_high_witness :
  map_registers high_conf high_alloc high_pi
  = Mapped 0x10000 0x20800 [(0xfebf1800, 0x1000); (0xfebf2800, 0x1000)].
Proof.
  apply (map_registers_high high_conf high_alloc high_pi 0x10000 0x20000);
    vm_compute; congruence.
Defined.

(** C3 as the claim has it fails: with ABAR = 0xfebf1800 the low five bits of
    ABAR are 0, and the pointer is 0x800 past the mapping. *)
Lemma map_registers_high_counterexample :
  Z.shiftr (wrap32 high_pi) 30 <> 0 /\
  high_alloc (wrap32 (wrap32 (high_conf 0x24) + 0x1000)) 0x1000 = Some 0x20000 /\
  exists regs regs_high requests,
    map_registers high_conf high_alloc high_pi = Mapped regs regs_high requests /\
    regs_high <> 0x20000 + Z.land (wrap32 (high_conf 0x24)) 0x1f.
Proof.
  split; [vm_compute; discriminate|]. split; [reflexivity|].
  exists 0x10000, 0x20800, [(0xfebf1800, 0x1000); (0xfebf2800, 0x1000)].
  split; [reflexivity|]. vm_compute. discriminate.
Qed.

(** ** Command slots: [set_command], [add_dma], [add_prd] *)

Lemma ct_index_eq tag : ct_index tag = tag * 288.
Proof.
  unfold ct_index, MAX_PRD_COUNT.
  replace (tag * (128 + 64 * 16)) with (tag * 288 * 4) by lia.
  apply Z.div_mul. lia.
Qed.

Lemma prd_index_eq tag prd : prd_index tag prd = tag * 288 + 32 + prd * 4.
Proof.
  unfold prd_index, MAX_PRD_COUNT. rewrite Z.shiftr_div_pow2 by lia.
  replace (tag * (128 + 64 * 16) + 128 + prd * 16)
    with ((tag * 288 + 32 + prd * 4) * 2 ^ 2) by lia.
  apply Z.div_mul. lia.
Qed.

Lemma ct_length w :
  port_wf w -> Z.of_nat (length (_ct w)) = _max_slots w * 288.
Proof.
  intros (Hms & _ & _ & Hct & _). rewrite Hct. rewrite <- ct_index_eq.
  unfold ct_index. rewrite Z2Nat.id; [reflexivity|].
  apply Z.div_pos; unfold MAX_PRD_COUNT; lia.
Qed.

Lemma cl_length w :
  port_wf w -> Z.of_nat (length (_cl w)) = _max_slots w * 8.
Proof.
  intros (Hms & _ & Hcl & _). rewrite Hcl. unfold CL_DWORDS. lia.
Qed.

Lemma land_1_odd x : Z.land x 1 = if Z.odd x then 1 else 0.
Proof.
  change 1 with (Z.ones 1) at 1. rewrite Z.land_ones by lia.
  change (2 ^ 1) with 2. apply Zmod_odd.
Qed.

Lemma odd_not32 x : Z.odd (not32 x) = negb (Z.odd x).
Proof. rewrite <- !Z.bit0_odd. rewrite testbit_not32 by lia. reflexivity. Qed.

Lemma shiftr_22_zero x : 0 <= x -> (Z.shiftr x 22 =? 0) = (x <? 2 ^ 22).
Proof.
  intros Hx. rewrite Z.shiftr_div_pow2 by lia.
  destruct (Z.ltb_spec x (2 ^ 22)) as [Hlt|Hge].
  - rewrite Z.div_small by lia. reflexivity.
  - apply Z.eqb_neq. intros Hz. apply Z.div_small_iff in Hz; lia.
Qed.

Lemma addr2phys_eq E ptr d w :
  addr2phys E ptr d w
  = match translate E w ptr with
    | Some value => (exec store d 0 (wrap32 value); store d 1 0) w
    | None => Fail Panicked w
    end.
Proof.
  unfold addr2phys, translate, bind, get, ret, fail.
  destruct (_dmar w); [reflexivity|].
  destruct (virt_to_phys E ptr) as [phys|]; [|reflexivity].
  destruct (phys =? 0); reflexivity.
Qed.

Lemma set_command_eq E command sector read count atapi pmp features w :
  set_command E command sector read count atapi pmp features w
  = match translate E w (wrap32 (ct_addr w + 4 * ct_index (_tag w))) with
    | Some phys =>
        Ok tt (command_set w phys (cl_header read atapi pmp)
                 (cfis command sector count pmp features))
    | None =>
        Fail Panicked
          (set_cl (wr (_tag w * CL_DWORDS + 1) 0
                     (wr (_tag w * CL_DWORDS + 0) (cl_header read atapi pmp) (_cl w))) w)
    end.
Proof.
  unfold set_command, bind, get. cbn [store modify].
  rewrite addr2phys_eq. unfold translate. cbn [_dmar set_cl ct_addr].
  destruct (_dmar w); [reflexivity|].
  destruct (virt_to_phys E _) as [phys|]; [|reflexivity].
  destruct (phys =? 0); reflexivity.
Qed.

Lemma add_dma_eq E ptr count w :
  0 <= count ->
  add_dma E ptr count w
  = if prd_rejected w count then Ok true w
    else match translate E w ptr with
         | Some phys => Ok false (prd_appended w phys count)
         | None =>
             Fail Panicked
               (set_cl (wr (_tag w * CL_DWORDS + 0)
                          (wrap32 (slot_header w (_tag w) + Z.shiftl 1 16)) (_cl w)) w)
         end.
Proof.
  intros Hc. unfold add_dma, prd_rejected, prd_count, slot_header.
  rewrite land_1_odd, shiftr_22_zero by exact Hc.
  destruct (Z.odd count); [reflexivity|]. cbn [Z.eqb negb orb].
  rewrite Z.ltb_antisym. destruct (2 ^ 22 <=? count); [reflexivity|].
  cbn [negb orb]. unfold bind, get. cbn beta.
  destruct (MAX_PRD_COUNT <=? _); [reflexivity|].
  cbn [store modify]. rewrite addr2phys_eq. unfold translate.
  cbn [_dmar set_cl]. destruct (_dmar w); [reflexivity|].
  destruct (virt_to_phys E ptr) as [phys|]; [|reflexivity].
  destruct (phys =? 0); reflexivity.
Qed.

Lemma add_prd_eq E buffer count w :
  0 <= count ->
  add_prd E buffer count w
  = if Z.odd count || (2 ^ 22 <=? count) then Fail AssertFailed w
    else if MAX_PRD_COUNT <=? prd_count w (_tag w) then Ok true w
    else match translate E w buffer with
         | Some phys => Ok false (prd_appended w phys count)
         | None =>
             Fail Panicked
               (set_cl (wr (_tag w * CL_DWORDS + 0)
                          (wrap32 (slot_header w (_tag w) + Z.shiftl 1 16)) (_cl w)) w)
         end.
Proof.
  intros Hc. unfold add_prd, prd_count, slot_header, bind, get. cbn beta.
  rewrite land_1_odd, odd_not32, shiftr_22_zero by exact Hc.
  destruct (Z.odd count); [reflexivity|]. cbn [Z.eqb negb orb].
  rewrite Z.ltb_antisym. destruct (2 ^ 22 <=? count); [reflexivity|].
  cbn [negb]. destruct (MAX_PRD_COUNT <=? _); [reflexivity|].
  cbn [store modify]. rewrite addr2phys_eq. unfold translate.
  cbn [_dmar set_cl]. destruct (_dmar w); [reflexivity|].
  destruct (virt_to_phys E buffer) as [phys|]; [|reflexivity].
  destruct (phys =? 0); reflexivity.
Qed.

Lemma rd_Forall (P : Z -> Prop) l i : P 0 -> Forall P l -> P (rd l i).
Proof.
  intros H0 Hl. unfold rd. destruct (l !! Z.to_nat i) as [v|] eqn:Hv; simpl.
  - eapply Forall_lookup_1; eassumption.
  - exact H0.
Qed.

Lemma slot_header_range w tag : port_wf w -> 0 <= slot_header w tag < 2 ^ 32.
Proof.
  intros (_ & _ & _ & _ & _ & Hcl). unfold slot_header.
  apply (rd_Forall (fun v => 0 <= v < 2 ^ 32)); [lia|exact Hcl].
Qed.

Lemma prd_count_nonneg w tag : port_wf w -> 0 <= prd_count w tag.
Proof.
  intros Hwf. unfold prd_count. apply Z.shiftr_nonneg.
  apply (slot_header_range w tag Hwf).
Qed.

Lemma header_add_prd hdr :
  0 <= hdr -> Z.shiftr hdr 16 < MAX_PRD_COUNT ->
  wrap32 (hdr + Z.shiftl 1 16) = hdr + 65536 /\
  Z.shiftr (hdr + 65536) 16 = Z.shiftr hdr 16 + 1.
Proof.
  intros H0 Hprd. change (Z.shiftl 1 16) with 65536.
  rewrite !Z.shiftr_div_pow2 in * by lia. unfold MAX_PRD_COUNT in Hprd.
  change (2 ^ 16) with 65536 in *.
  assert (hdr < 64 * 65536).
  { pose proof (Z.div_mod hdr 65536). pose proof (Z.mod_pos_bound hdr 65536). lia. }
  split.
  - apply wrap32_small. change (2 ^ 32) with 4294967296. lia.
  - replace (hdr + 65536) with (hdr + 1 * 65536) by lia.
    apply Z.div_add. lia.
Qed.

Section SlotFacts.

Variable w : Port.
Hypothesis Hwf : port_wf w.

Let tag := _tag w.

Lemma tag_cl_bound k :
  0 <= k < 8 -> 0 <= tag * CL_DWORDS + k /\
  (Z.to_nat (tag * CL_DWORDS + k) < length (_cl w))%nat.
Proof.
  intros Hk. pose proof (cl_length w Hwf) as Hlen.
  destruct Hwf as (Hms & Htag & _). fold tag in Htag. unfold CL_DWORDS. lia.
Qed.

Lemma tag_ct_bound k :
  0 <= k < 288 -> 0 <= tag * 288 + k /\
  (Z.to_nat (tag * 288 + k) < length (_ct w))%nat.
Proof.
  intros Hk. pose proof (ct_length w Hwf) as Hlen.
  destruct Hwf as (Hms & Htag & _). fold tag in Htag. lia.
Qed.

(** What appending a PRD does to the slot. *)
Lemma prd_appended_facts phys count :
  prd_count w tag < MAX_PRD_COUNT ->
  let w' := prd_appended w phys count in
  slot_header w' tag = slot_header w tag + 65536 /\
  prd_count w' tag = prd_count w tag + 1 /\
  prd_dword w' tag (prd_count w tag) 0 = wrap32 phys /\
  prd_dword w' tag (prd_count w tag) 1 = 0 /\
  prd_dword w' tag (prd_count w tag) 3 = wrap32 (count - 1).
Proof.
  intros Hprd w'.
  pose proof (slot_header_range w tag Hwf) as Hhdr.
  pose proof (prd_count_nonneg w tag Hwf) as Hprd0.
  destruct (header_add_prd (slot_header w tag)) as [Hw32 Hsh]; [lia|exact Hprd|].
  destruct (tag_cl_bound 0) as [Hc0 Hc1]; [lia|].
  assert (Hhdr' : slot_header w' tag = slot_header w tag + 65536).
  { unfold w', prd_appended, slot_header at 1. cbn [_cl set_ct set_cl].
    fold tag. rewrite Hw32. rewrite Z.add_0_r in *. apply rd_wr_eq; assumption. }
  split; [exact Hhdr'|]. split.
  { unfold prd_count. rewrite Hhdr'. exact Hsh. }
  unfold prd_dword, w', prd_appended. cbn [_ct set_ct set_cl]. fold tag.
  fold (prd_count w tag). rewrite prd_index_eq.
  unfold MAX_PRD_COUNT in Hprd.
  set (p := tag * 288 + 32 + prd_count w tag * 4).
  destruct (tag_ct_bound (32 + prd_count w tag * 4 + 0)) as [Hp0 Hp0l]; [lia|].
  destruct (tag_ct_bound (32 + prd_count w tag * 4 + 1)) as [Hp1 Hp1l]; [lia|].
  destruct (tag_ct_bound (32 + prd_count w tag * 4 + 3)) as [Hp3 Hp3l]; [lia|].
  replace (tag * 288 + (32 + prd_count w tag * 4 + 0)) with (p + 0) in * by (unfold p; lia).
  replace (tag * 288 + (32 + prd_count w tag * 4 + 1)) with (p + 1) in * by (unfold p; lia).
  replace (tag * 288 + (32 + prd_count w tag * 4 + 3)) with (p + 3) in * by (unfold p; lia).
  repeat split.
  - rewrite !rd_wr_ne by lia. apply rd_wr_eq; assumption.
  - rewrite rd_wr_ne by lia. apply rd_wr_eq; [lia|]. rewrite length_wr. assumption.
  - apply rd_wr_eq; [lia|]. rewrite !length_wr. assumption.
Qed.

Lemma prd_appended_wf phys count :
  prd_count w tag < MAX_PRD_COUNT -> port_wf (prd_appended w phys count).
Proof.
  intros Hprd. destruct Hwf as (Hms & Htag & Hcl & Hct & Hut & Hall).
  unfold port_wf, prd_appended. cbn [_max_slots _tag _cl _ct _usertags set_ct set_cl].
  rewrite !length_wr. repeat split; try assumption; try lia.
  apply Forall_wr; [apply wrap32_range|assumption].
Qed.

End SlotFacts.

(** C5: [add_dma] refuses (returns true, nothing changed) an odd byte count,
    one of at least 2^22, and a slot whose PRD count has reached
    MAX_PRD_COUNT = 64; [add_prd] then fails its assertion or returns true.
    Otherwise both add one to the PRD count in bits 16-31 of header dword 0,
    store the translated buffer address in the first two dwords of the PRD
    and [count - 1] in the fourth. *)
Theorem add_prd_add_dma_spec (E : Env) (w : Port) (ptr count : Z) :
  port_wf w ->
  0 <= count < 2 ^ 32 ->
  let tag := _tag w in
  if Z.odd count || (2 ^ 22 <=? count) || (MAX_PRD_COUNT <=? prd_count w tag)
  then
    add_dma E ptr count w = Ok true w /\
    (add_prd E ptr count w = Ok true w \/ add_prd E ptr count w = Fail AssertFailed w)
  else
    match translate E w ptr with
    | None => exists w', add_dma E ptr count w = Fail Panicked w'
    | Some phys =>
        exists w',
          add_dma E ptr count w = Ok false w' /\
          add_prd E ptr count w = Ok false w' /\
          prd_count w' tag = prd_count w tag + 1 /\
          slot_header w' tag = slot_header w tag + 2 ^ 16 /\
          prd_dword w' tag (prd_count w tag) 0 = wrap32 phys /\
          prd_dword w' tag (prd_count w tag) 1 = 0 /\
          prd_dword w' tag (prd_count w tag) 3 = wrap32 (count - 1) /\
          (1 <= count -> prd_dword w' tag (prd_count w tag) 3 = count - 1)
    end.
Proof.
  intros Hwf Hc tag.
  rewrite add_dma_eq, add_prd_eq by lia. unfold prd_rejected. fold tag.
  destruct (Z.odd count || (2 ^ 22 <=? count)) eqn:Hbad; cbn [orb].
  - split; [reflexivity|]. right. reflexivity.
  - destruct (Z.leb_spec MAX_PRD_COUNT (prd_count w tag)) as [Hge|Hlt].
    + split; [reflexivity|]. left. reflexivity.
    + destruct (translate E w ptr) as [phys|]; [|eexists; reflexivity].
      exists (prd_appended w phys count).
      destruct (prd_appended_facts w Hwf phys count Hlt) as (H1 & H2 & H3 & H4 & H5).
      change (2 ^ 16) with 65536. repeat split; try assumption.
      intros Hpos. fold tag in H5. rewrite H5. apply wrap32_small. lia.
Qed.

Lemma ready_port_wf : port_wf ready_port.
Proof. apply (bool_decide_unpack _). vm_compute. reflexivity. Qed.

Lemma ready_port_slot :
  _tag ready_port = 1 /\ prd_count ready_port 1 = 0 /\
  translate idle_env ready_port 0x5000 = Some 0x5000.
Proof. vm_compute. repeat split; reflexivity. Qed.

Lemma plain_port_wf : port_wf plain_port.
Proof. apply (bool_decide_unpack _). vm_compute. reflexivity. Qed.

(** Without IOMMU the bring-up still ends at slot 1; the table of that slot
    and the caller's region translate, address 0 does not. *)
Lemma plain_port_slot :
  _dmar plain_port = false /\ _tag plain_port = 1 /\
  prd_count plain_port 1 = 0 /\ slot_header plain_port 1 = 0 /\
  translate idle_env plain_port (ct_slot_addr plain_port) = Some 0x3480 /\
  translate idle_env plain_port 0x100000 = Some 0x100000 /\
  translate idle_env plain_port 0x100200 = Some 0x100200 /\
  translate idle_env plain_port 0 = None.
Proof. vm_compute. repeat split; reflexivity. Qed.

Lemma add_prd_add_dma_spec_witness :
  exists w',
    add_dma idle_env 0x5000 512 ready_port = Ok false w' /\
    add_prd idle_env 0x5000 512 ready_port = Ok false w' /\
    prd_count w' 1 = 1 /\
    prd_dword w' 1 0 3 = 511.
Proof.
  pose proof (add_prd_add_dma_spec idle_env ready_port 0x5000 512 ready_port_wf
                ltac:(lia)) as H.
  destruct ready_port_slot as (Htag & Hprd & Htr).
  cbv zeta in H. rewrite Htag, Hprd, Htr in H. cbn [Z.odd orb] in H.
  change ((2 ^ 22 <=? 512) || (MAX_PRD_COUNT <=? 0)) with false in H.
  destruct H as (w' & H1 & H2 & H3 & _ & _ & _ & _ & H8).
  exists w'. repeat split; try assumption. apply H8. lia.
Defined.

(** ** The descriptor loop of [receive] *)

Lemma dma_loop_cons E msg d rest w :
  0 <= bytecount d ->
  dma_loop E msg (d :: rest) w
  = if negb (dma_accepted msg d) || (MAX_PRD_COUNT <=? prd_count w (_tag w))
    then Ok true w
    else match translate E w (dma_ptr msg d) with
         | Some phys => dma_loop E msg rest (prd_appended w phys (bytecount d))
         | None =>
             Fail Panicked
               (set_cl (wr (_tag w * CL_DWORDS + 0)
                          (wrap32 (slot_header w (_tag w) + Z.shiftl 1 16)) (_cl w)) w)
         end.
Proof.
  intros Hc. cbn [dma_loop]. unfold dma_accepted.
  rewrite !Z.ltb_antisym.
  destruct (byteoffset d <=? msg_physsize msg); [|reflexivity].
  destruct (wrap32 (byteoffset d + bytecount d) <=? msg_physsize msg); [|reflexivity].
  cbn [negb orb andb]. unfold bind. rewrite add_dma_eq by exact Hc.
  fold (dma_ptr msg d). unfold prd_rejected.
  rewrite <- Z.negb_odd.
  destruct (Z.odd (bytecount d)); [reflexivity|].
  destruct (2 ^ 22 <=? bytecount d); [reflexivity|].
  cbn [negb orb andb].
  destruct (MAX_PRD_COUNT <=? prd_count w (_tag w)); [reflexivity|].
  destruct (translate E w (dma_ptr msg d)); reflexivity.
Qed.

Lemma translate_frame E w w' ptr :
  _dmar w' = _dmar w -> translate E w' ptr = translate E w ptr.
Proof. intros H. unfold translate. rewrite H. reflexivity. Qed.

Lemma translates_frame E w w' :
  _dmar w' = _dmar w -> translates E w -> translates E w'.
Proof.
  intros H Ht ptr. rewrite (translate_frame E w w' ptr H). apply Ht.
Qed.

(** What a run of appended PRDs leaves in the slot, and what it leaves
    alone. *)
Lemma prds_appended_facts E msg dma : forall w,
  port_wf w ->
  prd_count w (_tag w) + Z.of_nat (length dma) <= MAX_PRD_COUNT ->
  let w' := prds_appended E msg dma w in
  port_wf w' /\
  _tag w' = _tag w /\ _max_slots w' = _max_slots w /\ _dmar w' = _dmar w /\
  _disknr w' = _disknr w /\ _params w' = _params w /\
  _inprogress w' = _inprogress w /\ _usertags w' = _usertags w /\
  mmio w' = mmio w /\ n_reads w' = n_reads w /\ n_clock w' = n_clock w /\
  commits w' = commits w /\
  prd_count w' (_tag w) = prd_count w (_tag w) + Z.of_nat (length dma) /\
  slot_header w' (_tag w) = slot_header w (_tag w) + Z.of_nat (length dma) * 65536 /\
  (forall j, 0 <= j < prd_index (_tag w) (prd_count w (_tag w)) ->
             rd (_ct w') j = rd (_ct w) j) /\
  (forall i d, dma !! i = Some d ->
     prd_dword w' (_tag w) (prd_count w (_tag w) + Z.of_nat i) 3
     = wrap32 (bytecount d - 1)).
Proof.
  induction dma as [|d rest IH]; intros w Hwf Hroom; cbn [prds_appended].
  - cbn [length] in *. cbv zeta. split; [exact Hwf|].
    repeat split; try reflexivity; try lia.
    intros i d Hd. rewrite lookup_nil in Hd. discriminate.
  - cbn [length] in Hroom. rewrite Nat2Z.inj_succ in Hroom.
    pose proof (prd_count_nonneg w (_tag w) Hwf) as Hc0.
    assert (Hlt : prd_count w (_tag w) < MAX_PRD_COUNT) by lia.
    set (w1 := prd_appended w _ (bytecount d)).
    pose proof (prd_appended_wf w Hwf (default 0 (translate E w (dma_ptr msg d)))
                  (bytecount d) Hlt) as Hwf1. fold w1 in Hwf1.
    destruct (prd_appended_facts w Hwf (default 0 (translate E w (dma_ptr msg d)))
                (bytecount d) Hlt) as (Hh1 & Hp1 & _ & _ & Hd3). fold w1 in Hh1, Hp1, Hd3.
    assert (Htag1 : _tag w1 = _tag w) by reflexivity.
    specialize (IH w1 Hwf1). rewrite Htag1, Hp1 in IH.
    specialize (IH ltac:(lia)). cbv zeta in IH.
    destruct IH as (Hwf' & Ht & Hms & Hdm & Hdn & Hpa & Hip & Hut & Hmm & Hnr & Hnc
                    & Hcm & Hpc & Hsh & Hbelow & Hprds).
    cbv zeta. cbn [length]. rewrite Nat2Z.inj_succ.
    assert (Hkeep : forall j, 0 <= j < prd_index (_tag w) (prd_count w (_tag w) + 1) ->
              j <> prd_index (_tag w) (prd_count w (_tag w)) + 0 ->
              j <> prd_index (_tag w) (prd_count w (_tag w)) + 1 ->
              j <> prd_index (_tag w) (prd_count w (_tag w)) + 3 ->
              rd (_ct w1) j = rd (_ct w) j).
    { intros j Hj H0 H1 H3. unfold w1, prd_appended. cbn [_ct set_ct set_cl].
      fold (prd_count w (_tag w)).
      pose proof (prd_index_eq (_tag w) (prd_count w (_tag w))) as Hpi.
      destruct Hwf as (? & ? & _).
      rewrite !rd_wr_ne by lia. reflexivity. }
    split; [exact Hwf'|].
    repeat split; try assumption; try (etransitivity; [eassumption|reflexivity]);
      try lia.
    + intros j Hj. rewrite Hbelow.
      * rewrite !prd_index_eq in *. apply Hkeep; rewrite ?prd_index_eq; lia.
      * rewrite !prd_index_eq in *. lia.
    + intros i d' Hd'. destruct i as [|i]; cbn in Hd'.
      * injection Hd' as <-. rewrite Z.add_0_r.
        unfold prd_dword. rewrite Hbelow; [exact Hd3|].
        rewrite !prd_index_eq. destruct Hwf as (? & ? & _). lia.
      * rewrite Nat2Z.inj_succ.
        replace (prd_count w (_tag w) + Z.succ (Z.of_nat i))
          with (prd_count w (_tag w) + 1 + Z.of_nat i) by lia.
        apply Hprds. exact Hd'.
Qed.

(** While its descriptors are accepted and PRDs are left, the loop appends
    one PRD each and goes on. *)
Lemma dma_loop_app E msg pre : forall rest w,
  port_wf w ->
  Forall (fun d => translate E w (dma_ptr msg d) <> None) pre ->
  Forall dma_wf pre ->
  forallb (dma_accepted msg) pre = true ->
  prd_count w (_tag w) + Z.of_nat (length pre) <= MAX_PRD_COUNT ->
  dma_loop E msg (pre ++ rest) w = dma_loop E msg rest (prds_appended E msg pre w).
Proof.
  induction pre as [|d pre IH]; intros rest w Hwf Htr Hdwf Hacc Hroom;
    [reflexivity|].
  cbn [app prds_appended]. inversion Hdwf as [|? ? [Hd _] Hdwf']; subst.
  inversion Htr as [|? ? Hsome Htr']; subst.
  cbn [forallb] in Hacc. apply andb_true_iff in Hacc as [Hacc1 Hacc].
  cbn [length] in Hroom. rewrite Nat2Z.inj_succ in Hroom.
  pose proof (prd_count_nonneg w (_tag w) Hwf) as Hc0.
  rewrite dma_loop_cons by lia. rewrite Hacc1. cbn [negb orb].
  destruct (Z.leb_spec MAX_PRD_COUNT (prd_count w (_tag w))); [lia|].
  destruct (translate E w (dma_ptr msg d)) as [phys|]; [|contradiction].
  change (default 0 (Some phys)) with phys.
  apply IH; [| |assumption|assumption|].
  - apply prd_appended_wf; [assumption|lia].
  - revert Htr'. apply Forall_impl. intros d'.
    rewrite (translate_frame E w (prd_appended w phys (bytecount d)));
      [tauto|reflexivity].
  - destruct (prd_appended_facts w Hwf phys (bytecount d)) as (_ & Hp & _); [lia|].
    change (_tag (prd_appended w phys (bytecount d))) with (_tag w).
    rewrite Hp. lia.
Qed.

Lemma lor_below x y n :
  0 <= n -> 0 <= x < 2 ^ n -> 0 <= y < 2 ^ n -> 0 <= Z.lor x y < 2 ^ n.
Proof.
  intros Hn [Hx0 Hx] [Hy0 Hy].
  assert (H0 : 0 <= Z.lor x y) by (apply Z.lor_nonneg; lia).
  split; [exact H0|].
  apply below_pow2_bits; [exact H0|lia|]. intros i Hi.
  rewrite Z.lor_spec.
  assert (Z.testbit x i = false) as -> by (apply (below_pow2_bits x n); lia).
  assert (Z.testbit y i = false) as -> by (apply (below_pow2_bits y n); lia).
  reflexivity.
Qed.

Lemma cl_header_range read atapi pmp : 0 <= cl_header read atapi pmp < 2 ^ 16.
Proof.
  unfold cl_header.
  assert (Hp : 0 <= Z.land pmp 0xf < 16).
  { change 0xf with (Z.ones 4). rewrite Z.land_ones by lia.
    apply Z.mod_pos_bound. lia. }
  apply lor_below; [lia| |].
  - apply lor_below; [lia| |lia]. apply lor_below; [lia| |].
    + destruct atapi; lia.
    + destruct read; lia.
  - rewrite Z.shiftl_mul_pow2 by lia. lia.
Qed.

Lemma prd_count_small hdr : 0 <= hdr < 2 ^ 16 -> Z.shiftr hdr 16 = 0.
Proof. intros H. rewrite Z.shiftr_div_pow2 by lia. apply Z.div_small. exact H. Qed.

(** Byte 2 of a dword packed from four bytes. *)
Lemma dword_byte2 b0 b1 b2 b3 :
  0 <= b0 < 256 -> 0 <= b1 < 256 -> 0 <= b2 < 256 ->
  Z.land (Z.shiftr (Z.lor (Z.lor b0 (Z.shiftl b1 8))
                          (Z.lor (Z.shiftl b2 16) (Z.shiftl b3 24))) 16) 0xff = b2.
Proof.
  intros H0 H1 H2. apply Z.bits_inj'. intros n Hn.
  rewrite Z.land_spec, Z.shiftr_spec, !Z.lor_spec, !Z.shiftl_spec by lia.
  change 0xff with (Z.ones 8). rewrite Z.testbit_ones_nonneg by lia.
  assert (Hb0 : Z.testbit b0 (n + 16) = false)
    by (apply (below_pow2_bits b0 8); [lia|lia|change (2 ^ 8) with 256; lia|lia]).
  assert (Hb1 : Z.testbit b1 (n + 16 - 8) = false)
    by (apply (below_pow2_bits b1 8); [lia|lia|change (2 ^ 8) with 256; lia|lia]).
  rewrite Hb0, Hb1. replace (n + 16 - 16) with n by lia. cbn [orb].
  destruct (Z.ltb_spec n 8) as [Hlt|Hge].
  - rewrite (Z.testbit_neg_r b3) by lia. rewrite orb_false_r, andb_true_r.
    reflexivity.
  - rewrite andb_false_r. symmetry.
    apply (below_pow2_bits b2 8); [lia|lia|change (2 ^ 8) with 256; lia|lia].
Qed.

Lemma start_command_eq usertag w :
  start_command usertag w = Ok (_tag w) (command_started w usertag).
Proof. reflexivity. Qed.

Section CommandSet.

Variable w : Port.
Hypothesis Hwf : port_wf w.
Variables (phys header command sector count pmp features : Z).
Hypothesis Hheader : 0 <= header < 2 ^ 16.

Let tag := _tag w.
Let w' := command_set w phys header (cfis command sector count pmp features).

Lemma command_set_wf : port_wf w'.
Proof.
  destruct Hwf as (Hms & Htag & Hcl & Hct & Hut & Hall).
  unfold port_wf, w', command_set.
  cbn [_max_slots _tag _cl _ct _usertags set_ct set_cl].
  rewrite !length_wr, length_wr_list. repeat split; try assumption; try lia.
  repeat apply Forall_wr; try assumption; try lia.
  apply wrap32_range.
Qed.

Lemma command_set_header :
  slot_header w' tag = header /\ prd_count w' tag = 0.
Proof.
  assert (Hh : slot_header w' tag = header).
  { unfold slot_header, w', command_set. cbn [_cl set_ct set_cl]. fold tag.
    destruct (tag_cl_bound w Hwf 0) as [H0 Hl]; [lia|]. fold tag in H0, Hl.
    pose proof (tag_cl_bound w Hwf 0 ltac:(lia)) as _.
    rewrite !rd_wr_ne by (unfold CL_DWORDS in *; lia).
    rewrite Z.add_0_r in *. apply rd_wr_eq; assumption. }
  split; [exact Hh|]. unfold prd_count. rewrite Hh. apply prd_count_small.
  exact Hheader.
Qed.

Lemma command_set_fis_command : fis_command w' tag = wrap8 command.
Proof.
  unfold fis_command, fis_dword, w', command_set. cbn [_ct set_ct set_cl].
  fold tag. rewrite Z.add_0_r. unfold cfis. cbn [map dwords_of_bytes].
  destruct (tag_ct_bound w Hwf 0) as [H0 Hl]; [lia|]. fold tag in H0, Hl.
  rewrite Z.add_0_r in H0, Hl. rewrite ct_index_eq.
  rewrite rd_wr_list_head by assumption.
  apply dword_byte2; apply wrap8_range.
Qed.

End CommandSet.

(** The loop leaves alone what lies below the PRD table of the slot, and
    everything but the command list and tables, however it ends. *)
Lemma dma_loop_frame E msg dma : forall w,
  port_wf w -> Forall dma_wf dma ->
  let w' := world_of (dma_loop E msg dma w) in
  _tag w' = _tag w /\ _inprogress w' = _inprogress w /\
  _usertags w' = _usertags w /\ mmio w' = mmio w /\
  (forall j, 0 <= j < prd_index (_tag w) 0 -> rd (_ct w') j = rd (_ct w) j).
Proof.
  induction dma as [|d rest IH]; intros w Hwf Hdwf; cbv zeta.
  - cbn. repeat split; reflexivity.
  - inversion Hdwf as [|? ? [Hd _] Hdwf']; subst.
    rewrite dma_loop_cons by lia.
    destruct (negb (dma_accepted msg d)); cbn [orb];
      [cbn; repeat split; reflexivity|].
    destruct (Z.leb_spec MAX_PRD_COUNT (prd_count w (_tag w))) as [|Hlt];
      [cbn; repeat split; reflexivity|].
    destruct (translate E w (dma_ptr msg d)) as [phys|];
      [|cbn; repeat split; reflexivity].
    specialize (IH (prd_appended w phys (bytecount d))
                  (prd_appended_wf w Hwf phys (bytecount d) Hlt) Hdwf').
    cbv zeta in IH. destruct IH as (Ht & Hip & Hut & Hmm & Hct).
    repeat split; try assumption.
    intros j Hj. rewrite Hct by exact Hj.
    unfold prd_appended. cbn [_ct set_ct set_cl].
    fold (prd_count w (_tag w)).
    pose proof (prd_count_nonneg w (_tag w) Hwf).
    rewrite !prd_index_eq in *. destruct Hwf as (? & ? & _).
    rewrite !rd_wr_ne by lia. reflexivity.
Qed.

(** ** [receive] *)

Lemma receive_rw_eq E msg w :
  msg_disknr msg = _disknr w ->
  msg_type msg = DISK_READ \/ msg_type msg = DISK_WRITE ->
  total_length (msg_dma msg) mod 512 = 0 ->
  receive E msg w
  = match translate E w (ct_slot_addr w) with
    | None =>
        Fail Panicked
          (set_cl (wr (_tag w * CL_DWORDS + 1) 0
                     (wr (_tag w * CL_DWORDS + 0)
                        (cl_header (negb (is_write (msg_type msg))) false 0) (_cl w))) w)
    | Some phys =>
        match dma_loop E msg (msg_dma msg) (request_set w phys msg) with
        | Ok true w2 => Ok false w2
        | Ok false w2 => Ok true (command_started w2 (msg_usertag msg))
        | Fail f w2 => Fail f w2
        end
    end.
Proof.
  intros Hdisk Hty Hlen. unfold receive, bind, get. cbn beta.
  rewrite Hdisk, Z.eqb_refl. cbn [negb].
  rewrite sum_length_sector, Hlen. cbn [Z.eqb negb].
  unfold ct_slot_addr, request_set, opcode.
  destruct Hty as [Hty | Hty]; rewrite Hty; cbn [is_write negb];
    rewrite set_command_eq;
    (destruct (translate E w _) as [phys|]; [|reflexivity]);
    destruct (_lba48 (_params w));
    match goal with
    | |- context [dma_loop E msg (msg_dma msg) ?w1] =>
        destruct (dma_loop E msg (msg_dma msg) w1) as [[|] w2|f w2]
    end; reflexivity.
Qed.

Lemma receive_flush_eq E msg w :
  msg_disknr msg = _disknr w ->
  msg_type msg = DISK_FLUSH_CACHE ->
  receive E msg w
  = match translate E w (ct_slot_addr w) with
    | None =>
        Fail Panicked
          (set_cl (wr (_tag w * CL_DWORDS + 1) 0
                     (wr (_tag w * CL_DWORDS + 0) (cl_header true false 0) (_cl w))) w)
    | Some phys => Ok true (command_started (request_set w phys msg) 0)
    end.
Proof.
  intros Hdisk Hty. unfold receive, bind, get. cbn beta.
  rewrite Hdisk, Z.eqb_refl, Hty. cbn [negb].
  rewrite set_command_eq. unfold ct_slot_addr, request_set. rewrite Hty.
  destruct (translate E w _) as [phys|]; [|reflexivity].
  unfold opcode. destruct (_lba48 (_params w)); reflexivity.
Qed.

Lemma opcode_byte t lba48 : wrap8 (opcode t lba48) = opcode t lba48.
Proof. destruct t, lba48; reflexivity. Qed.

Lemma request_set_facts w phys msg :
  port_wf w ->
  let w1 := request_set w phys msg in
  port_wf w1 /\ _tag w1 = _tag w /\
  prd_count w1 (_tag w) = 0 /\
  fis_command w1 (_tag w) = opcode (msg_type msg) (_lba48 (_params w)).
Proof.
  intros Hwf. unfold request_set.
  destruct (msg_type msg); cbv zeta;
    (split; [apply command_set_wf; [assumption|apply cl_header_range]|]);
    (split; [reflexivity|]);
    (split; [apply command_set_header; [assumption|apply cl_header_range]|]);
    rewrite command_set_fis_command by assumption; apply opcode_byte.
Qed.

(** C4: the command byte [receive] writes into the command FIS of the slot
    is 0x25 (LBA48) or 0xC8 for a READ, 0x35 or 0xCA for a WRITE, and 0xEA or
    0xE7 for a FLUSH_CACHE, which leaves the PRD count of the slot at 0. *)
Theorem receive_opcode (E : Env) (msg : MessageDisk) (w : Port) :
  port_wf w ->
  msg_disknr msg = _disknr w ->
  Forall dma_wf (msg_dma msg) ->
  translate E w (ct_slot_addr w) <> None ->
  msg_type msg = DISK_FLUSH_CACHE \/
  ((msg_type msg = DISK_READ \/ msg_type msg = DISK_WRITE) /\
   total_length (msg_dma msg) mod 512 = 0) ->
  let w' := world_of (receive E msg w) in
  let lba48 := _lba48 (_params w) in
  fis_command w' (_tag w)
  = match msg_type msg with
    | DISK_READ => if lba48 then 0x25 else 0xc8
    | DISK_WRITE => if lba48 then 0x35 else 0xca
    | _ => if lba48 then 0xea else 0xe7
    end /\
  (msg_type msg = DISK_FLUSH_CACHE ->
   receive E msg w = Ok true w' /\ prd_count w' (_tag w) = 0).
Proof.
  intros Hwf Hdisk Hdwf Htr Hty. cbv zeta.
  destruct Hty as [Hfl | [Hrw Hlen]].
  - rewrite receive_flush_eq by assumption.
    destruct (translate E w (ct_slot_addr w)) as [phys|]; [|contradiction].
    destruct (request_set_facts w phys msg Hwf) as (_ & _ & Hprd & Hop).
    cbn [world_of]. rewrite Hfl in *. split; [exact Hop|].
    intros _. split; [reflexivity|exact Hprd].
  - rewrite receive_rw_eq by assumption.
    destruct (translate E w (ct_slot_addr w)) as [phys|]; [|contradiction].
    destruct (request_set_facts w phys msg Hwf) as (Hwf1 & Htag & _ & Hop).
    destruct (dma_loop_frame E msg (msg_dma msg) (request_set w phys msg) Hwf1 Hdwf)
      as (_ & _ & _ & _ & Hct).
    rewrite Htag in Hct.
    assert (Hfis : fis_command (world_of (dma_loop E msg (msg_dma msg)
                                            (request_set w phys msg))) (_tag w)
                   = opcode (msg_type msg) (_lba48 (_params w))).
    { rewrite <- Hop. unfold fis_command, fis_dword. rewrite Hct; [reflexivity|].
      rewrite prd_index_eq, ct_index_eq. destruct Hwf as (? & ? & _). lia. }
    split.
    + destruct (dma_loop E msg (msg_dma msg) (request_set w phys msg))
        as [[|] w2|f w2]; cbn [world_of] in *;
        (etransitivity; [exact Hfis|]);
        destruct Hrw as [-> | ->]; reflexivity.
    + intros Hfl. destruct Hrw as [Hr | Hr]; rewrite Hr in Hfl; discriminate.
Qed.

Lemma receive_opcode_witness :
  fis_command (world_of (receive idle_env read_4k ready_port)) 1 = 0x25.
Proof.
  refine (proj1 (receive_opcode idle_env read_4k ready_port ready_port_wf
                   eq_refl _ _ _)).
  - repeat constructor; vm_compute; congruence.
  - vm_compute. discriminate.
  - right. split; [left; reflexivity|reflexivity].
Defined.

Lemma rd_wr_list_in vs : forall i l k,
  0 <= i -> (k < length vs)%nat -> (Z.to_nat i + length vs <= length l)%nat ->
  rd (wr_list i vs l) (i + Z.of_nat k) = nth k vs 0.
Proof.
  induction vs as [|v vs IH]; intros i l k Hi Hk Hlen; cbn [length] in *; [lia|].
  cbn [wr_list]. destruct k as [|k].
  - rewrite Z.add_0_r. rewrite rd_wr_list_out by lia.
    apply rd_wr_eq; lia.
  - replace (i + Z.of_nat (S k)) with (i + 1 + Z.of_nat k) by lia.
    cbn [nth]. apply IH; [lia|lia|]. rewrite length_wr. lia.
Qed.

Lemma request_set_fis w phys msg k :
  port_wf w -> (k < 5)%nat ->
  msg_type msg = DISK_READ \/ msg_type msg = DISK_WRITE ->
  fis_dword (request_set w phys msg) (_tag w) (Z.of_nat k)
  = nth k (dwords_of_bytes
             (cfis (opcode (msg_type msg) (_lba48 (_params w))) (msg_sector msg)
                (Z.shiftr (sum_length (msg_dma msg)) 9) 0 0)) 0.
Proof.
  intros Hwf Hk Hty. unfold fis_dword.
  destruct (tag_ct_bound w Hwf 0) as [H0 _]; [lia|].
  pose proof (ct_length w Hwf) as Hlen. destruct Hwf as (Hms & Htag & _).
  assert (Heq : _ct (request_set w phys msg)
                = wr_list (ct_index (_tag w))
                    (dwords_of_bytes
                       (cfis (opcode (msg_type msg) (_lba48 (_params w)))
                          (msg_sector msg) (Z.shiftr (sum_length (msg_dma msg)) 9) 0 0))
                    (_ct w))
    by (unfold request_set; destruct Hty as [-> | ->]; reflexivity).
  rewrite Heq. apply rd_wr_list_in.
  - rewrite ct_index_eq. lia.
  - exact Hk.
  - rewrite ct_index_eq. cbn [cfis map dwords_of_bytes length]. lia.
Qed.

(** C9: a READ or WRITE that passes the length check and then fails at a
    descriptor returns false with the slot's header and command FIS
    overwritten, the PRD count at the number of descriptors accepted before
    the failing one; [_inprogress], [_tag], [_usertags] and the registers
    (so CI) are as before.  Of the translation of addresses this asks what
    the run itself needs, with or without IOMMU: that the address of the
    slot's command table and the addresses of the descriptors accepted before
    the failing one translate ([addr2phys] panics on one that does not). *)
Theorem receive_failure_not_atomic (E : Env) (msg : MessageDisk) (w : Port)
    (pre post : list DmaDescriptor) (d : DmaDescriptor) :
  port_wf w ->
  translate E w (ct_slot_addr w) <> None ->
  Forall (fun d => translate E w (dma_ptr msg d) <> None) pre ->
  msg_disknr msg = _disknr w ->
  msg_type msg = DISK_READ \/ msg_type msg = DISK_WRITE ->
  total_length (msg_dma msg) mod 512 = 0 ->
  Forall dma_wf (msg_dma msg) ->
  msg_dma msg = pre ++ d :: post ->
  forallb (dma_accepted msg) pre = true ->
  (length pre <= 64)%nat ->
  dma_accepted msg d = false \/ length pre = 64%nat ->
  exists w',
    receive E msg w = Ok false w' /\
    slot_header w' (_tag w)
    = cl_header (negb (is_write (msg_type msg))) false 0
      + Z.of_nat (length pre) * 2 ^ 16 /\
    prd_count w' (_tag w) = Z.of_nat (length pre) /\
    (forall k, (k < 5)%nat ->
       fis_dword w' (_tag w) (Z.of_nat k)
       = nth k (dwords_of_bytes
                  (cfis (match msg_type msg with
                         | DISK_WRITE => if _lba48 (_params w) then 0x35 else 0xca
                         | _ => if _lba48 (_params w) then 0x25 else 0xc8
                         end)
                     (msg_sector msg) (Z.shiftr (sum_length (msg_dma msg)) 9) 0 0)) 0) /\
    _inprogress w' = _inprogress w /\ _tag w' = _tag w /\
    _usertags w' = _usertags w /\ mmio w' = mmio w.
Proof.
  intros Hwf Hct Htr Hdisk Hty Hlen Hdwf Hdma Hacc Hroom Hfail.
  rewrite receive_rw_eq by assumption.
  destruct (translate E w (ct_slot_addr w)) as [phys|]; [clear Hct|contradiction].
  destruct (request_set_facts w phys msg Hwf) as (Hwf1 & Htag1 & Hprd1 & _).
  set (w1 := request_set w phys msg) in *.
  assert (Hhdr1 : slot_header w1 (_tag w)
                  = cl_header (negb (is_write (msg_type msg))) false 0).
  { unfold w1, request_set. destruct Hty as [-> | ->];
      apply command_set_header; try assumption; apply cl_header_range. }
  rewrite Hdma in Hdwf. apply Forall_app in Hdwf as [Hdwf_pre Hdwf_d].
  inversion Hdwf_d as [|? ? [Hd _] _]; subst.
  assert (Htr1 : Forall (fun d => translate E w1 (dma_ptr msg d) <> None) pre).
  { revert Htr. apply Forall_impl. intros d'.
    rewrite (translate_frame E w w1); [tauto|].
    unfold w1, request_set. destruct (msg_type msg); reflexivity. }
  assert (Hroom1 : prd_count w1 (_tag w1) + Z.of_nat (length pre) <= MAX_PRD_COUNT)
    by (rewrite Htag1, Hprd1; unfold MAX_PRD_COUNT; lia).
  destruct (prds_appended_facts E msg pre w1 Hwf1 Hroom1)
    as (Hwf2 & Ht2 & _ & _ & _ & _ & Hip & Hut & Hmm & _ & _ & _ & Hpc & Hsh
        & Hbelow & _).
  assert (Hloop : dma_loop E msg (msg_dma msg) w1
                  = Ok true (prds_appended E msg pre w1)).
  { rewrite Hdma.
    rewrite (dma_loop_app E msg pre (d :: post) w1 Hwf1 Htr1 Hdwf_pre Hacc Hroom1).
    rewrite dma_loop_cons by lia. rewrite Ht2, Hpc, Htag1, Hprd1.
    assert (Hrej : negb (dma_accepted msg d)
                   || (MAX_PRD_COUNT <=? 0 + Z.of_nat (length pre)) = true).
    { destruct Hfail as [-> | ->]; [reflexivity|]. apply orb_true_r. }
    rewrite Hrej. reflexivity. }
  set (w2 := prds_appended E msg pre w1) in *.
  rewrite Htag1 in *. rewrite Hprd1 in Hpc, Hbelow. rewrite Hhdr1 in Hsh.
  rewrite Hloop. exists w2. split; [reflexivity|].
  split; [rewrite Hsh; reflexivity|]. split; [rewrite Hpc; lia|].
  split.
  - intros k Hk. unfold fis_dword. rewrite Hbelow.
    + transitivity (fis_dword (request_set w phys msg) (_tag w) (Z.of_nat k));
        [reflexivity|].
      rewrite request_set_fis by assumption.
      unfold opcode. destruct Hty as [-> | ->]; reflexivity.
    + rewrite prd_index_eq, ct_index_eq. destruct Hwf as (? & ? & _). lia.
  - repeat split; try assumption.
    + rewrite Hip. unfold w1, request_set. destruct (msg_type msg); reflexivity.
    + rewrite Hut. unfold w1, request_set. destruct (msg_type msg); reflexivity.
    + rewrite Hmm. unfold w1, request_set. destruct (msg_type msg); reflexivity.
Qed.

Lemma ready_port_translates : translates idle_env ready_port.
Proof. intros ptr. unfold translate. change (_dmar ready_port) with true. discriminate. Qed.

Lemma receive_failure_not_atomic_witness :
  ~ translates idle_env plain_port /\
  exists w',
    receive idle_env read_out_of_bounds plain_port = Ok false w' /\
    slot_header plain_port 1 = 0 /\ slot_header w' 1 = 0x10005 /\
    prd_count w' 1 = 1 /\
    _inprogress w' = _inprogress plain_port /\ _tag w' = 1 /\
    _usertags w' = _usertags plain_port /\ mmio w' = mmio plain_port.
Proof.
  destruct plain_port_slot as (_ & Ht & _ & Hh0 & Hct & Hbuf & _ & Hzero).
  split; [intros Hall; exact (Hall 0 Hzero)|].
  destruct (receive_failure_not_atomic idle_env read_out_of_bounds plain_port
              [ {| bytecount := 4096; byteoffset := 0 |} ] []
              {| bytecount := 512; byteoffset := 0x20000 |})
    as (w' & Hrec & Hhdr & Hprd & _ & Hip & Htag & Hut & Hmm).
  - exact plain_port_wf.
  - rewrite Hct. discriminate.
  - repeat constructor. change (dma_ptr read_out_of_bounds _) with 0x100000.
    rewrite Hbuf. discriminate.
  - reflexivity.
  - left. reflexivity.
  - reflexivity.
  - repeat constructor; vm_compute; congruence.
  - reflexivity.
  - reflexivity.
  - cbn. lia.
  - left. reflexivity.
  - rewrite Ht in *.
    exists w'. repeat split; try assumption.
Defined.

(** C10: a descriptor of zero bytes inside the caller's region is accepted:
    the request goes through, one PRD is counted for every descriptor, and
    the fourth dword of the PRD of the empty descriptor is 0 - 1 in 32 bits,
    0xFFFFFFFF.  The address of the slot's command table and those of the
    descriptors of the request are to translate, with or without IOMMU. *)
Theorem zero_length_descriptor (E : Env) (msg : MessageDisk) (w : Port)
    (pre post : list DmaDescriptor) (d : DmaDescriptor) :
  port_wf w ->
  translate E w (ct_slot_addr w) <> None ->
  Forall (fun d => translate E w (dma_ptr msg d) <> None) (msg_dma msg) ->
  msg_disknr msg = _disknr w ->
  msg_type msg = DISK_READ \/ msg_type msg = DISK_WRITE ->
  total_length (msg_dma msg) mod 512 = 0 ->
  Forall dma_wf (msg_dma msg) ->
  msg_dma msg = pre ++ d :: post ->
  forallb (dma_accepted msg) pre = true ->
  forallb (dma_accepted msg) post = true ->
  (length (msg_dma msg) <= 64)%nat ->
  bytecount d = 0 ->
  byteoffset d <= msg_physsize msg ->
  dma_accepted msg d = true /\
  exists w',
    receive E msg w = Ok true w' /\
    prd_count w' (_tag w) = Z.of_nat (length (msg_dma msg)) /\
    prd_dword w' (_tag w) (Z.of_nat (length pre)) 3 = 0xFFFFFFFF.
Proof.
  intros Hwf Hct Htr Hdisk Hty Hlen Hdwf Hdma Hpre Hpost Hroom Hzero Hoff.
  assert (Hacc_d : dma_accepted msg d = true).
  { assert (Hd : dma_wf d).
    { rewrite Hdma in Hdwf. apply Forall_app in Hdwf as [_ Hdwf].
      inversion Hdwf; assumption. }
    destruct Hd as [_ Hoff32]. unfold dma_accepted.
    rewrite Hzero, Z.add_0_r, wrap32_small by exact Hoff32.
    apply Z.leb_le in Hoff. rewrite Hoff. reflexivity. }
  split; [exact Hacc_d|].
  rewrite receive_rw_eq by assumption.
  destruct (translate E w (ct_slot_addr w)) as [phys|]; [clear Hct|contradiction].
  destruct (request_set_facts w phys msg Hwf) as (Hwf1 & Htag1 & Hprd1 & _).
  set (w1 := request_set w phys msg) in *.
  assert (Htr1 : Forall (fun d => translate E w1 (dma_ptr msg d) <> None)
                   (msg_dma msg)).
  { revert Htr. apply Forall_impl. intros d'.
    rewrite (translate_frame E w w1); [tauto|].
    unfold w1, request_set. destruct (msg_type msg); reflexivity. }
  assert (Hroom1 : prd_count w1 (_tag w1) + Z.of_nat (length (msg_dma msg))
                   <= MAX_PRD_COUNT)
    by (rewrite Htag1, Hprd1; unfold MAX_PRD_COUNT; lia).
  assert (Hall : forallb (dma_accepted msg) (msg_dma msg) = true).
  { rewrite Hdma, forallb_app. cbn [forallb]. rewrite Hpre, Hacc_d, Hpost.
    reflexivity. }
  pose proof (dma_loop_app E msg (msg_dma msg) [] w1 Hwf1 Htr1 Hdwf Hall Hroom1)
    as Hloop.
  rewrite app_nil_r in Hloop. rewrite Hloop. cbn [dma_loop ret].
  destruct (prds_appended_facts E msg (msg_dma msg) w1 Hwf1 Hroom1)
    as (_ & _ & _ & _ & _ & _ & _ & _ & _ & _ & _ & _ & Hpc & _ & _ & Hprds).
  rewrite Htag1, Hprd1 in *.
  eexists. split; [reflexivity|]. split.
  - exact Hpc.
  - specialize (Hprds (length pre) d). rewrite Hzero in Hprds.
    apply Hprds. rewrite Hdma. apply list_lookup_middle. reflexivity.
Qed.

Lemma zero_length_descriptor_witness :
  ~ translates idle_env plain_port /\
  exists w',
    receive idle_env read_nothing plain_port = Ok true w' /\
    prd_count w' 1 = 1 /\ prd_dword w' 1 0 3 = 0xFFFFFFFF.
Proof.
  destruct plain_port_slot as (_ & Ht & _ & _ & Hct & _ & Hbuf & Hzero).
  split; [intros Hall; exact (Hall 0 Hzero)|].
  destruct (zero_length_descriptor idle_env read_nothing plain_port [] []
              {| bytecount := 0; byteoffset := 0x200 |})
    as (_ & w' & Hrec & Hprd & Hdw).
  - exact plain_port_wf.
  - rewrite Hct. discriminate.
  - repeat constructor. change (dma_ptr read_nothing _) with 0x100200.
    rewrite Hbuf. discriminate.
  - reflexivity.
  - left. reflexivity.
  - reflexivity.
  - repeat constructor; vm_compute; congruence.
  - reflexivity.
  - reflexivity.
  - reflexivity.
  - cbn. lia.
  - reflexivity.
  - cbn. lia.
  - rewrite Ht in *.
    exists w'. repeat split; assumption.
Defined.

(** ** The register wait *)

Lemma advance_advance r c r' c' w :
  advance r c (advance r' c' w) = advance (r + r') (c + c') w.
Proof. unfold advance. cbn. f_equal; lia. Qed.

Lemma wait_loop_step E reg mask value deadline fuel w :
  wait_loop E (S fuel) reg mask value deadline w
  = if reg_sat E reg mask value (n_reads w) then Ok tt (advance 1 0 w)
    else if clock_at E (n_clock w) <? deadline
         then wait_loop E fuel reg mask value deadline (advance 1 1 w)
         else Ok tt (advance 1 1 w).
Proof.
  cbn [wait_loop]. unfold bind, reg_read, clock, reg_sat, clock_at.
  destruct (Z.land _ mask =? value); [reflexivity|].
  cbn [n_clock count_read]. destruct (_ <? deadline); reflexivity.
Qed.

Lemma wait_loop_spec E reg mask value deadline : forall fuel w,
  (exists k, (k < fuel)%nat /\ deadline <= clock_at E (n_clock w + k)) ->
  exists n,
    (n < fuel)%nat /\
    (forall i, (i < n)%nat ->
       reg_sat E reg mask value (n_reads w + i) = false /\
       clock_at E (n_clock w + i) < deadline) /\
    ((reg_sat E reg mask value (n_reads w + n) = true /\
      wait_loop E fuel reg mask value deadline w = Ok tt (advance (S n) n w)) \/
     (reg_sat E reg mask value (n_reads w + n) = false /\
      deadline <= clock_at E (n_clock w + n) /\
      wait_loop E fuel reg mask value deadline w = Ok tt (advance (S n) (S n) w))).
Proof.
  induction fuel as [|fuel IH]; intros w (k & Hk & Hlate); [lia|].
  rewrite wait_loop_step.
  destruct (reg_sat E reg mask value (n_reads w)) eqn:Hsat.
  - exists 0%nat. split; [lia|]. split; [intros i Hi; lia|]. left.
    rewrite Nat.add_0_r. split; [exact Hsat|reflexivity].
  - destruct (Z.ltb_spec (clock_at E (n_clock w)) deadline) as [Hearly|Hover].
    + destruct k as [|k]; [rewrite Nat.add_0_r in Hlate; lia|].
      destruct (IH (advance 1 1 w)) as (n & Hn & Hpoll & Hend).
      { exists k. split; [lia|]. cbn [n_clock advance].
        replace (1 + n_clock w + k)%nat with (n_clock w + S k)%nat by lia.
        exact Hlate. }
      cbn [n_reads n_clock advance] in Hpoll, Hend.
      rewrite !advance_advance in Hend.
      replace (S n + 1)%nat with (S (S n)) in Hend by lia.
      replace (n + 1)%nat with (S n) in Hend by lia.
      exists (S n). split; [lia|]. split.
      * intros i Hi. destruct i as [|i].
        -- rewrite !Nat.add_0_r. split; assumption.
        -- replace (n_reads w + S i)%nat with (1 + n_reads w + i)%nat by lia.
           replace (n_clock w + S i)%nat with (1 + n_clock w + i)%nat by lia.
           apply Hpoll. lia.
      * replace (n_reads w + S n)%nat with (1 + n_reads w + n)%nat by lia.
        replace (n_clock w + S n)%nat with (1 + n_clock w + n)%nat by lia.
        exact Hend.
    + exists 0%nat. split; [lia|]. split; [intros i Hi; lia|]. right.
      rewrite !Nat.add_0_r. repeat split; assumption.
Qed.

(** C8, as the code has it: the wait polls the register until a read finds
    [( *reg & mask) == value] or the clock has reached its first reading plus
    TIMEOUT = 200 ticks (of 1/FREQ = 1 ms); the result is zero exactly when
    the read made after the loop finds the predicate satisfied, whichever way
    the loop ended.  [n] counts the iterations that went on polling. *)
Theorem wait_timeout_spec (E : Env) (fuel : nat) (reg : preg) (mask value : Z)
    (w : Port) :
  let r0 := n_reads w in
  let c0 := n_clock w in
  let deadline := wrap64 (clock_at E c0 + TIMEOUT) in
  (exists k, (k < fuel)%nat /\ deadline <= clock_at E (S c0 + k)) ->
  exists n c res,
    (n < fuel)%nat /\
    wait_timeout E fuel reg mask value w = Ok res (advance (S (S n)) c w) /\
    (forall i, (i < n)%nat ->
       reg_sat E reg mask value (r0 + i) = false /\
       clock_at E (S c0 + i) < deadline) /\
    (reg_sat E reg mask value (r0 + n) = true \/
     deadline <= clock_at E (S c0 + n)) /\
    res = (if reg_sat E reg mask value (r0 + S n) then 0 else 1).
Proof.
  intros r0 c0 deadline Hlive.
  unfold wait_timeout. unfold bind at 1. unfold clock at 1.
  fold c0. fold (clock_at E c0). fold deadline.
  destruct (wait_loop_spec E reg mask value deadline fuel (count_clock w))
    as (n & Hn & Hpoll & Hend).
  { exact Hlive. }
  cbn [n_reads n_clock count_clock] in Hpoll, Hend. fold r0 c0 in Hpoll, Hend.
  change (count_clock w) with (advance 0 1 w) in *.
  rewrite !advance_advance in Hend.
  assert (Hfinal : forall c,
    (do r <- reg_read E reg; ret (if Z.land r mask =? value then 0 else 1))
      (advance (S n + 0) c w)
    = Ok (if reg_sat E reg mask value (r0 + S n) then 0 else 1)
         (advance (S (S n)) c w)).
  { intros c. unfold bind, reg_read, ret, reg_sat. cbn [n_reads advance].
    fold r0. replace (S n + 0 + r0)%nat with (r0 + S n)%nat by lia.
    f_equal. unfold advance, count_read. cbn. f_equal. lia. }
  destruct Hend as [(Hsat & Hloop) | (Hunsat & Hlate & Hloop)].
  - exists n, (n + 1)%nat, (if reg_sat E reg mask value (r0 + S n) then 0 else 1).
    split; [exact Hn|]. unfold bind at 1. rewrite Hloop.
    split; [apply Hfinal|]. split; [exact Hpoll|]. split; [left; exact Hsat|].
    reflexivity.
  - exists n, (S n + 1)%nat, (if reg_sat E reg mask value (r0 + S n) then 0 else 1).
    split; [exact Hn|]. unfold bind at 1. rewrite Hloop.
    split; [apply Hfinal|]. split; [exact Hpoll|]. split; [right; exact Hlate|].
    reflexivity.
Qed.

Lemma wait_timeout_spec_witness :
  exists n c res,
    (n < 200)%nat /\
    wait_timeout idle_env 200 CI 1 0 ready_port = Ok res (advance (S (S n)) c ready_port) /\
    res = 0.
Proof.
  destruct (wait_timeout_spec idle_env 200 CI 1 0 ready_port)
    as (n & c & res & Hn & Hrun & _ & _ & Hres).
  - exists 199%nat. split; [lia|]. vm_compute. discriminate.
  - exists n, c, res. split; [exact Hn|]. split; [exact Hrun|].
    rewrite Hres. unfold reg_sat. cbn [hw_read idle_env]. reflexivity.
Defined.

(** C8 as the claim has it fails: here the only read of the loop finds the
    bit still set, the clock has then reached the deadline, so the wait has
    timed out, and yet the result is zero, because the read after the loop
    finds the bit clear. *)
Lemma wait_timeout_counterexample :
  let w := HostAhciPort_new 0 2 true zero_heap in
  reg_sat late_env CI 1 0 0 = false /\
  clock_at late_env 0 + TIMEOUT <= clock_at late_env 1 /\
  wait_timeout late_env 1 CI 1 0 w = Ok 0 (advance 2 2 w).
Proof. vm_compute. repeat split; discriminate. Qed.

(** ** Preservation of state predicates *)

Lemma preserves_ret {A} P (a : A) : preserves P (ret a).
Proof. intros w Hw. exact Hw. Qed.

Lemma preserves_get {A} P (f : Port -> A) : preserves P (get f).
Proof. intros w Hw. exact Hw. Qed.

Lemma preserves_fail {A} P e : preserves P (@fail A e).
Proof. intros w Hw. exact Hw. Qed.

Lemma preserves_modify P f : (forall w, P w -> P (f w)) -> preserves P (modify f).
Proof. intros Hf w Hw. apply Hf. exact Hw. Qed.

Lemma preserves_bind {A B} P (m : M A) (k : A -> M B) :
  preserves P m -> (forall a, preserves P (k a)) -> preserves P (bind m k).
Proof.
  intros Hm Hk w Hw. unfold bind. specialize (Hm w Hw).
  destruct (m w) as [a w1|f w1]; cbn [world_of] in *.
  - apply Hk. exact Hm.
  - exact Hm.
Qed.

Lemma preserves_check2 P (m k : M Z) :
  preserves P m -> preserves P k -> preserves P (check2 m k).
Proof.
  intros Hm Hk. unfold check2. apply preserves_bind; [exact Hm|].
  intros r. destruct (r =? 0); [exact Hk|apply preserves_ret].
Qed.

Create HintDb preserves.

#[global] Hint Resolve preserves_ret preserves_get preserves_fail preserves_modify
  : preserves.

(** Decompose a monadic program along its binds and branches, and close the
    leaves with the lemmas of the [preserves] database. *)
Ltac preserve :=
  repeat (cbv zeta;
          lazymatch goal with
          | |- preserves _ (bind _ _) => apply preserves_bind; [|intros ?]
          | |- preserves _ (check2 _ _) => apply preserves_check2
          | |- preserves _ (if ?b then _ else _) => destruct b
          | |- preserves _ (match ?x with _ => _ end) => destruct x
          | |- preserves _ _ => solve [eauto with preserves]
          end).

(** What [init_port] does: register accesses, clock readings, and the reset
    of [_inprogress]. *)
Section PreservationInit.

Variable E : Env.
Variable P : Port -> Prop.

Hypothesis P_read : forall w, P w -> P (count_read w).
Hypothesis P_clock : forall w, P w -> P (count_clock w).
Hypothesis P_write : forall r v w, P w -> P (log_write r v w).
Hypothesis P_reset : forall w, P w -> P (set_inprogress 0 w).

Lemma preserves_reg_read r : preserves P (reg_read E r).
Proof. intros w Hw. apply P_read. exact Hw. Qed.

Lemma preserves_reg_write r v : preserves P (reg_write r v).
Proof. intros w Hw. apply P_write. exact Hw. Qed.

Lemma preserves_clock : preserves P (clock E).
Proof. intros w Hw. apply P_clock. exact Hw. Qed.

Lemma preserves_store_reg r k v : preserves P (store (RegPtr r) k v).
Proof. cbn [store]. apply preserves_reg_write. Qed.

#[local] Hint Resolve preserves_reg_read preserves_reg_write preserves_clock
  preserves_store_reg : preserves.

Lemma preserves_wait_loop reg mask value deadline fuel :
  preserves P (wait_loop E fuel reg mask value deadline).
Proof. induction fuel as [|fuel IH]; cbn [wait_loop]; preserve. Qed.

#[local] Hint Resolve preserves_wait_loop : preserves.

Lemma preserves_wait_timeout fuel reg mask value :
  preserves P (wait_timeout E fuel reg mask value).
Proof. unfold wait_timeout. preserve. Qed.

Lemma preserves_addr2phys_reg ptr r : preserves P (addr2phys E ptr (RegPtr r)).
Proof. unfold addr2phys. preserve. Qed.

Lemma preserves_reg_and r v : preserves P (reg_and E r v).
Proof. unfold reg_and. preserve. Qed.

Lemma preserves_reg_or r v : preserves P (reg_or E r v).
Proof. unfold reg_or. preserve. Qed.

#[local] Hint Resolve preserves_wait_timeout preserves_addr2phys_reg
  preserves_reg_and preserves_reg_or : preserves.

Lemma preserves_init_port fuel : preserves P (init_port E fuel).
Proof. unfold init_port. preserve. Qed.

End PreservationInit.

Section Preservation.

Variable E : Env.
Variable P : Port -> Prop.

Hypothesis P_read : forall w, P w -> P (count_read w).
Hypothesis P_clock : forall w, P w -> P (count_clock w).
Hypothesis P_write : forall r v w, P w -> P (log_write r v w).
Hypothesis P_cl : forall v w, P w -> P (set_cl v w).
Hypothesis P_ct : forall v w, P w -> P (set_ct v w).
Hypothesis P_params : forall v w, P w -> P (set_params v w).
Hypothesis P_usertags : forall v w, P w -> P (set_usertags v w).
Hypothesis P_commit : forall m w, P w -> P (log_commit m w).
Hypothesis P_start : forall usertag w, P w -> P (command_started w usertag).
Hypothesis P_clear :
  forall tag w, P w -> P (set_inprogress (Z.land (_inprogress w) (not32 (bit32 tag))) w).
Hypothesis P_reset : forall w, P w -> P (set_inprogress 0 w).

Lemma preserves_store d k v : preserves P (store d k v).
Proof.
  destruct d; cbn [store]; [apply preserves_reg_write; assumption| |];
    apply preserves_modify; intros w Hw; [apply P_cl|apply P_ct]; exact Hw.
Qed.

#[local] Hint Resolve preserves_reg_read preserves_reg_write preserves_clock
  preserves_wait_timeout preserves_store : preserves.

Lemma preserves_addr2phys ptr d : preserves P (addr2phys E ptr d).
Proof. unfold addr2phys. preserve. Qed.

#[local] Hint Resolve preserves_addr2phys : preserves.

Lemma preserves_set_command command sector read count atapi pmp features :
  preserves P (set_command E command sector read count atapi pmp features).
Proof. unfold set_command. preserve. Qed.

Lemma preserves_add_dma ptr count : preserves P (add_dma E ptr count).
Proof. unfold add_dma. preserve. Qed.

Lemma preserves_add_prd buffer count : preserves P (add_prd E buffer count).
Proof. unfold add_prd. preserve. Qed.

Lemma preserves_start_command usertag : preserves P (start_command usertag).
Proof. intros w Hw. rewrite start_command_eq. apply P_start. exact Hw. Qed.

Lemma preserves_clear_inprogress tag : preserves P (clear_inprogress tag).
Proof. apply preserves_modify. apply P_clear. Qed.

#[local] Hint Resolve preserves_set_command preserves_add_dma preserves_add_prd
  preserves_start_command preserves_clear_inprogress : preserves.

Lemma preserves_identify_finish tag : preserves P (identify_finish E tag).
Proof. unfold identify_finish. preserve. Qed.

#[local] Hint Resolve preserves_identify_finish : preserves.

Lemma preserves_identify_drive fuel buffer :
  preserves P (identify_drive E fuel buffer).
Proof. unfold identify_drive. preserve. Qed.

Lemma preserves_set_features fuel features count :
  preserves P (set_features E fuel features count).
Proof. unfold set_features. preserve. Qed.

#[local] Hint Resolve preserves_identify_drive preserves_init_port : preserves.

Lemma preserves_init fuel buffer : preserves P (init E fuel buffer).
Proof. unfold init. preserve. Qed.

Lemma preserves_irq_loop fuel : forall done, preserves P (irq_loop fuel done).
Proof. induction fuel as [|fuel IH]; intros done; cbn [irq_loop]; preserve. Qed.

#[local] Hint Resolve preserves_init preserves_irq_loop : preserves.

Lemma preserves_irq fuel : preserves P (irq E fuel).
Proof. unfold irq. preserve. Qed.

Lemma preserves_dma_loop msg dma : preserves P (dma_loop E msg dma).
Proof. induction dma as [|d rest IH]; cbn [dma_loop]; preserve. Qed.

#[local] Hint Resolve preserves_dma_loop : preserves.

Lemma preserves_receive msg : preserves P (receive E msg).
Proof. unfold receive. preserve. Qed.

End Preservation.

(** ** The invariant on [_inprogress] *)

Lemma land_below x y n :
  0 <= n -> 0 <= x < 2 ^ n -> 0 <= Z.land x y < 2 ^ n.
Proof.
  intros Hn [Hx0 Hx]. assert (H0 : 0 <= Z.land x y) by (apply Z.land_nonneg; lia).
  split; [exact H0|].
  apply below_pow2_bits; [exact H0|lia|]. intros i Hi.
  rewrite Z.land_spec.
  assert (Z.testbit x i = false) as -> by (apply (below_pow2_bits x n); lia).
  reflexivity.
Qed.

Lemma popcount_pos_bound p : forall n,
  0 <= n -> Zpos p < 2 ^ n -> 0 < popcount_pos p <= n.
Proof.
  induction p as [p IH|p IH|]; intros n Hn Hlt; cbn [popcount_pos].
  - assert (n <> 0) by (intros ->; cbn in Hlt; lia).
    replace n with (Z.succ (n - 1)) in Hlt by lia.
    rewrite Z.pow_succ_r in Hlt by lia.
    specialize (IH (n - 1) ltac:(lia) ltac:(lia)). lia.
  - assert (n <> 0) by (intros ->; cbn in Hlt; lia).
    replace n with (Z.succ (n - 1)) in Hlt by lia.
    rewrite Z.pow_succ_r in Hlt by lia.
    specialize (IH (n - 1) ltac:(lia) ltac:(lia)). lia.
  - assert (n <> 0) by (intros ->; cbn in Hlt; lia). lia.
Qed.

Lemma popcount_bound x n : 0 <= n -> 0 <= x < 2 ^ n -> popcount x <= n.
Proof.
  intros Hn [Hx0 Hx]. destruct x as [|p|p]; cbn [popcount]; try lia.
  apply popcount_pos_bound; assumption.
Qed.

Lemma land_above_zero x n :
  0 <= n -> 0 <= x < 2 ^ n -> Z.land x (Z.lnot (Z.shiftl 1 n - 1)) = 0.
Proof.
  intros Hn [Hx0 Hx]. apply Z.bits_inj'. intros i Hi.
  rewrite Z.land_spec, Z.lnot_spec, Z.bits_0 by lia.
  rewrite Z.shiftl_1_l, Z.sub_1_r, <- Z.ones_equiv.
  rewrite Z.testbit_ones_nonneg by lia.
  destruct (Z.ltb_spec i n) as [Hlt|Hge].
  - apply andb_false_r.
  - assert (Z.testbit x i = false) as -> by (apply (below_pow2_bits x n); lia).
    reflexivity.
Qed.

Lemma max_slots_of_cap_range cap : 1 <= max_slots_of_cap cap <= 32.
Proof.
  unfold max_slots_of_cap. change 0x1f with (Z.ones 5).
  rewrite Z.land_ones by lia.
  pose proof (Z.mod_pos_bound (Z.shiftr cap 8) (2 ^ 5) ltac:(lia)). lia.
Qed.

(** The constructor sets up the slot count and the cursor. *)
Lemma HostAhciPort_new_slots_ok cap disknr dmar h :
  slots_ok (HostAhciPort_new disknr (max_slots_of_cap cap) dmar h).
Proof.
  pose proof (max_slots_of_cap_range cap). unfold slots_ok. cbn. lia.
Qed.

Lemma port_inv_started usertag w : port_inv w -> port_inv (command_started w usertag).
Proof.
  intros ((Hms & Htag) & Hip). unfold port_inv, slots_ok, command_started.
  cbn [_max_slots _tag _inprogress set_tag log_write set_usertags set_inprogress].
  split; [split; [exact Hms|apply Z.mod_pos_bound; lia]|].
  apply lor_below; [lia|exact Hip|].
  rewrite bit32_small by lia. split; [lia|].
  apply Z.pow_lt_mono_r; lia.
Qed.

Lemma port_inv_cleared tag w :
  port_inv w ->
  port_inv (set_inprogress (Z.land (_inprogress w) (not32 (bit32 tag))) w).
Proof.
  intros (Hslots & Hip). split; [exact Hslots|].
  cbn [_max_slots _inprogress set_inprogress].
  destruct Hslots as (? & _). apply land_below; [lia|exact Hip].
Qed.

Lemma port_inv_reset w : slots_ok w -> port_inv (set_inprogress 0 w).
Proof.
  intros Hslots. split; [exact Hslots|]. cbn [_max_slots _inprogress set_inprogress].
  destruct Hslots as (? & _). split; [lia|]. apply Z.pow_pos_nonneg; lia.
Qed.

Lemma slots_ok_started usertag w : slots_ok w -> slots_ok (command_started w usertag).
Proof.
  intros (Hms & Htag). unfold slots_ok, command_started.
  cbn [_max_slots _tag set_tag log_write set_usertags set_inprogress].
  split; [exact Hms|apply Z.mod_pos_bound; lia].
Qed.

Lemma zero_only_if_bind {A} R (m : M A) (k : A -> M Z) :
  (forall a, zero_only_if R (k a)) -> zero_only_if R (bind m k).
Proof.
  intros Hk w w'. unfold bind. destruct (m w) as [a w1|f w1]; [|discriminate].
  apply Hk.
Qed.

Lemma zero_only_if_check2 R (m k : M Z) :
  zero_only_if R k -> zero_only_if R (check2 m k).
Proof.
  intros Hk. unfold check2. apply zero_only_if_bind. intros r.
  destruct (Z.eqb_spec r 0) as [|Hne]; [exact Hk|].
  intros w w' Hret. injection Hret as Hr _. contradiction.
Qed.

(** [init_port] returns 0 only past its reset of [_inprogress]. *)
Lemma init_port_reset E fuel :
  zero_only_if (fun w => _inprogress w = 0) (init_port E fuel).
Proof.
  unfold init_port.
  repeat lazymatch goal with
         | |- zero_only_if _ (check2 _ _) => apply zero_only_if_check2
         | |- zero_only_if _ (bind (reg_or _ CMD 1) _) => fail
         | |- zero_only_if _ (bind _ _) => apply zero_only_if_bind; intros ?
         end.
  apply zero_only_if_bind. intros _ w w' Hret.
  unfold bind, modify, reg_write, ret in Hret. injection Hret as <-. reflexivity.
Qed.

Lemma slots_ok_run_op E fuel op w : slots_ok w -> slots_ok (run_op E fuel op w).
Proof.
  intros Hs. pose proof slots_ok_started as Hstart.
  destruct op; cbn [run_op];
    [ apply (preserves_init E slots_ok)
    | apply (preserves_start_command slots_ok)
    | apply (preserves_identify_drive E slots_ok)
    | apply (preserves_set_features E slots_ok)
    | apply (preserves_irq E slots_ok)
    | apply (preserves_receive E slots_ok) ];
    first [ exact Hs | exact Hstart | intros; assumption ].
Qed.

Lemma built_slots_ok E w : built E w -> slots_ok w.
Proof.
  induction 1 as [cap disknr dmar h|w fuel op _ IH].
  - apply HostAhciPort_new_slots_ok.
  - apply slots_ok_run_op. exact IH.
Qed.

Lemma port_inv_init_port E fuel w w' :
  slots_ok w -> init_port E fuel w = Ok 0 w' -> port_inv w'.
Proof.
  intros Hslots Hrun.
  assert (Hs : slots_ok w').
  { change w' with (world_of (Ok 0 w')). rewrite <- Hrun.
    apply (preserves_init_port E slots_ok); intros; assumption. }
  pose proof (init_port_reset E fuel w w' Hrun) as Hzero. cbn beta in Hzero.
  split; [exact Hs|]. rewrite Hzero. destruct Hs as (? & _).
  split; [lia|]. apply Z.pow_pos_nonneg; lia.
Qed.

Lemma port_inv_run_op E fuel op w : port_inv w -> port_inv (run_op E fuel op w).
Proof.
  intros Hinv.
  pose proof port_inv_started as Hstart.
  pose proof port_inv_cleared as Hclear.
  assert (Hreset : forall w0, port_inv w0 -> port_inv (set_inprogress 0 w0))
    by (intros w0 [Hs _]; apply port_inv_reset; exact Hs).
  destruct op; cbn [run_op];
    [ apply (preserves_init E port_inv)
    | apply (preserves_start_command port_inv)
    | apply (preserves_identify_drive E port_inv)
    | apply (preserves_set_features E port_inv)
    | apply (preserves_irq E port_inv)
    | apply (preserves_receive E port_inv) ];
    first [ exact Hinv | exact Hstart | exact Hclear | exact Hreset
          | intros; assumption ].
Qed.

Lemma reachable_port_inv E w : reachable E w -> port_inv w.
Proof.
  induction 1 as [w fuel w' Hslots Hrun|w fuel op _ IH].
  - exact (port_inv_init_port E fuel w w' (built_slots_ok E w Hslots) Hrun).
  - apply port_inv_run_op. exact IH.
Qed.

(** The invariant from the reset on: in every state a constructed port
    reaches once [init] has reset [_inprogress], and from there on through
    [init], [start_command], [identify_drive], [set_features], [irq] and
    [receive], the slot count [((CAP >> 8) & 0x1f) + 1] is between 1 and 32,
    at most that many bits are set in [_inprogress], and none at or above the
    slot count. *)
Theorem inprogress_invariant (E : Env) (w : Port) :
  reachable E w ->
  1 <= _max_slots w <= 32 /\
  popcount (_inprogress w) <= _max_slots w /\
  Z.land (_inprogress w) (Z.lnot (Z.shiftl 1 (_max_slots w) - 1)) = 0.
Proof.
  intros Hreach. destruct (reachable_port_inv E w Hreach) as ((Hms & _) & Hip).
  split; [exact Hms|]. split.
  - apply popcount_bound; [lia|exact Hip].
  - apply land_above_zero; [lia|exact Hip].
Qed.

Lemma inprogress_invariant_witness :
  let w := run_op idle_env 1 (OpReceive read_4k)
             (run_op idle_env 1 (OpIdentifyDrive 0x5000) reset_port) in
  _inprogress w = 2 /\
  1 <= _max_slots w <= 32 /\
  popcount (_inprogress w) <= _max_slots w /\
  Z.land (_inprogress w) (Z.lnot (Z.shiftl 1 (_max_slots w) - 1)) = 0.
Proof.
  split; [vm_compute; reflexivity|].
  apply (inprogress_invariant idle_env).
  apply reach_op. apply reach_op.
  apply (reach_reset idle_env fresh_port 1).
  - apply (built_new idle_env 0x100 0 true zero_heap).
  - vm_compute. reflexivity.
Defined.

(** Right after construction the invariant does not hold: the constructor
    does not set [_inprogress], which holds what the heap held. *)
Lemma inprogress_invariant_counterexample :
  let w := HostAhciPort_new 0 (max_slots_of_cap 0) true ones_heap in
  _max_slots w = 1 /\
  popcount (_inprogress w) = 32 /\
  Z.land (_inprogress w) (Z.lnot (Z.shiftl 1 (_max_slots w) - 1)) = 0xfffffffe.
Proof. vm_compute. repeat split; reflexivity. Qed.

(** ** The completion loop of [irq] *)

Lemma testbit_1 n : 0 <= n -> Z.testbit 1 n = (n =? 0).
Proof.
  intros Hn. change 1 with (2 ^ 0). rewrite Z.pow2_bits_eqb by lia.
  apply Z.eqb_sym.
Qed.

Lemma in_pos_bits p : forall i k,
  In k (pos_bits p i) <-> i <= k /\ Z.testbit (Zpos p) (k - i) = true.
Proof.
  induction p as [p IH|p IH|]; intros i k; cbn [pos_bits In].
  - rewrite IH. rewrite Pos2Z.inj_xI. split.
    + intros [<- | [Hle Hbit]].
      * rewrite Z.sub_diag, Z.testbit_odd_0. split; [lia|reflexivity].
      * split; [lia|]. replace (k - i) with (Z.succ (k - (i + 1))) by lia.
        rewrite Z.testbit_odd_succ by lia. exact Hbit.
    + intros [Hle Hbit]. destruct (Z.eq_dec i k) as [|Hne]; [left; assumption|].
      right. split; [lia|]. replace (k - i) with (Z.succ (k - (i + 1))) in Hbit by lia.
      rewrite Z.testbit_odd_succ in Hbit by lia. exact Hbit.
  - rewrite IH. rewrite Pos2Z.inj_xO. split.
    + intros [Hle Hbit]. split; [lia|].
      replace (k - i) with (Z.succ (k - (i + 1))) by lia.
      rewrite Z.testbit_even_succ by lia. exact Hbit.
    + intros [Hle Hbit]. destruct (Z.eq_dec i k) as [<-|Hne].
      * rewrite Z.sub_diag, Z.testbit_even_0 in Hbit. discriminate.
      * split; [lia|]. replace (k - i) with (Z.succ (k - (i + 1))) in Hbit by lia.
        rewrite Z.testbit_even_succ in Hbit by lia. exact Hbit.
  - split.
    + intros [<- | []]. rewrite Z.sub_diag. split; [lia|reflexivity].
    + intros [Hle Hbit]. left. rewrite testbit_1 in Hbit by lia.
      apply Z.eqb_eq in Hbit. lia.
Qed.

(** The members of [set_bits x] are the positions of the set bits. *)
Lemma in_set_bits x k :
  0 <= x -> (In k (set_bits x) <-> 0 <= k /\ Z.testbit x k = true).
Proof.
  intros Hx. destruct x as [|p|p]; try lia; cbn [set_bits].
  - rewrite Z.bits_0. split; [intros []|intros [_ H]; discriminate].
  - rewrite in_pos_bits, Z.sub_0_r. reflexivity.
Qed.

Lemma pos_bits_sorted p : forall i,
  StronglySorted Z.lt (pos_bits p i).
Proof.
  induction p as [p IH|p IH|]; intros i; cbn [pos_bits].
  - constructor; [apply IH|]. apply List.Forall_forall. intros k Hk.
    apply in_pos_bits in Hk. lia.
  - apply IH.
  - repeat constructor.
Qed.

(** Lowest bit first. *)
Lemma set_bits_sorted x : StronglySorted Z.lt (set_bits x).
Proof. destruct x; cbn [set_bits]; [constructor|apply pos_bits_sorted|constructor]. Qed.

Lemma pos_bits_length p i : Z.of_nat (length (pos_bits p i)) = popcount_pos p.
Proof.
  revert i. induction p as [p IH|p IH|]; intros i; cbn [pos_bits popcount_pos length].
  - rewrite Nat2Z.inj_succ, IH. lia.
  - apply IH.
  - reflexivity.
Qed.

Lemma set_bits_length x : Z.of_nat (length (set_bits x)) = popcount x.
Proof. destruct x; cbn [set_bits popcount]; [reflexivity|apply pos_bits_length|reflexivity]. Qed.

Lemma clear_lowest_nonneg p : 0 <= clear_lowest p.
Proof. induction p; cbn [clear_lowest]; lia. Qed.

Lemma testbit_clear_lowest p : forall n,
  0 <= n ->
  Z.testbit (clear_lowest p) n = Z.testbit (Zpos p) n && negb (n =? bsf_pos p).
Proof.
  induction p as [p IH|p IH|]; intros n Hn; cbn [clear_lowest bsf_pos].
  - rewrite Pos2Z.inj_xO, Pos2Z.inj_xI. destruct (Z.eqb_spec n 0) as [->|Hne].
    + rewrite Z.testbit_even_0. symmetry. apply andb_false_r.
    + replace n with (Z.succ (n - 1)) by lia.
      rewrite Z.testbit_even_succ, Z.testbit_odd_succ by lia.
      symmetry. apply andb_true_r.
  - pose proof (bsf_pos_nonneg p).
    destruct (Z.eq_dec n 0) as [->|Hne].
    + rewrite Pos2Z.inj_xO, !Z.testbit_even_0. reflexivity.
    + assert (H1 : Z.testbit (2 * clear_lowest p) n
                   = Z.testbit (clear_lowest p) (n - 1)).
      { replace n with (Z.succ (n - 1)) at 1 by lia.
        apply Z.testbit_even_succ. lia. }
      assert (H2 : Z.testbit (Zpos p~0) n = Z.testbit (Zpos p) (n - 1)).
      { rewrite Pos2Z.inj_xO. replace n with (Z.succ (n - 1)) at 1 by lia.
        apply Z.testbit_even_succ. lia. }
      rewrite H1, H2, IH by lia.
      f_equal. f_equal. destruct (Z.eqb_spec (n - 1) (bsf_pos p));
        destruct (Z.eqb_spec n (1 + bsf_pos p)); try reflexivity; lia.
  - rewrite Z.bits_0, testbit_1 by lia. destruct (n =? 0); reflexivity.
Qed.

(** Clearing bit [bsf x] of a 32-bit [x], as the loop does. *)
Lemma land_clear_lowest p :
  Zpos p < 2 ^ 32 ->
  Z.land (Zpos p) (not32 (bit32 (bsf_pos p))) = clear_lowest p.
Proof.
  intros Hlt. apply Z.bits_inj'. intros n Hn.
  pose proof (bsf_pos_nonneg p).
  rewrite Z.land_spec, testbit_not32, testbit_bit32, testbit_clear_lowest by lia.
  destruct (Z.ltb_spec n 32) as [Hn32|Hn32]; cbn [andb]; [reflexivity|].
  assert (Z.testbit (Zpos p) n = false) as ->
      by (apply (below_pow2_bits (Zpos p) 32); lia).
  reflexivity.
Qed.

Lemma pos_bits_cons p : forall i,
  pos_bits p i
  = (i + bsf_pos p)
    :: match clear_lowest p with Zpos q => pos_bits q i | _ => [] end.
Proof.
  induction p as [p IH|p IH|]; intros i; cbn [pos_bits bsf_pos clear_lowest].
  - rewrite Z.add_0_r. reflexivity.
  - rewrite IH. f_equal; [lia|].
    pose proof (clear_lowest_nonneg p).
    destruct (clear_lowest p) as [|q|q]; try lia; reflexivity.
  - rewrite Z.add_0_r. reflexivity.
Qed.

Lemma set_bits_cons x :
  0 < x < 2 ^ 32 ->
  set_bits x = bsf x :: set_bits (Z.land x (not32 (bit32 (bsf x)))).
Proof.
  intros [H0 Hlt]. destruct x as [|p|p]; try lia. cbn [set_bits bsf].
  rewrite land_clear_lowest by exact Hlt. rewrite pos_bits_cons.
  rewrite Z.add_0_l. reflexivity.
Qed.

(** The loop completes the slots of [done] one by one, lowest first, and
    does not run out of fuel when given a unit for each set bit. *)
Lemma irq_loop_eq : forall fuel done w,
  0 <= done < 2 ^ 32 ->
  (length (set_bits done) <= fuel)%nat ->
  irq_loop fuel done w = Ok tt (fold_left complete_slot (set_bits done) w).
Proof.
  induction fuel as [|fuel IH]; intros done w Hdone Hfuel.
  - destruct (set_bits done) eqn:Hbits; [|cbn in Hfuel; lia].
    cbn [irq_loop fold_left].
    destruct (Z.eqb_spec done 0) as [|Hne]; [reflexivity|].
    rewrite set_bits_cons in Hbits by lia. discriminate.
  - cbn [irq_loop]. destruct (Z.eqb_spec done 0) as [->|Hne]; [reflexivity|].
    rewrite set_bits_cons in * by lia. cbn [fold_left length] in *.
    unfold bind, get, modify, clear_inprogress. cbn beta.
    apply IH; [apply land_nonneg_range; lia|lia].
Qed.

Lemma irq_loop_fuel done : 0 <= done < 2 ^ 32 -> (length (set_bits done) <= 32)%nat.
Proof.
  intros Hdone. pose proof (set_bits_length done).
  pose proof (popcount_bound done 32 ltac:(lia) Hdone). lia.
Qed.

Lemma commit_of_complete_slot w t t' :
  0 <= t -> 0 <= t' -> t <> t' ->
  commit_of (complete_slot w t) t' = commit_of w t'.
Proof.
  intros Ht Ht' Hne. unfold commit_of, complete_slot.
  cbn [_disknr _usertags set_inprogress set_usertags log_commit].
  rewrite rd_wr_ne by lia. reflexivity.
Qed.

(** What completing a run of distinct slots leaves behind. *)
Lemma complete_slots_facts tags : forall w,
  length (_usertags w) = 32%nat ->
  Forall (fun t => 0 <= t < 32) tags ->
  NoDup tags ->
  let w' := fold_left complete_slot tags w in
  commits w' = commits w ++ map (commit_of w) tags /\
  _inprogress w'
  = fold_left (fun ip t => Z.land ip (not32 (bit32 t))) tags (_inprogress w) /\
  (forall t, In t tags -> rd (_usertags w') t = not32 0) /\
  (forall t, 0 <= t -> ~ In t tags -> rd (_usertags w') t = rd (_usertags w) t) /\
  length (_usertags w') = 32%nat /\
  _tag w' = _tag w /\ _max_slots w' = _max_slots w /\ _disknr w' = _disknr w /\
  _cl w' = _cl w /\ _ct w' = _ct w /\ mmio w' = mmio w /\
  n_reads w' = n_reads w /\ n_clock w' = n_clock w /\ _params w' = _params w.
Proof.
  induction tags as [|t tags IH]; intros w Hlen Hrange Hnodup; cbv zeta;
    cbn [fold_left map].
  - rewrite app_nil_r. repeat split; try reflexivity; try assumption.
    intros t [].
  - inversion Hrange as [|? ? Ht Hrange']; subst. clear Hrange.
    rename Hrange' into Hrange.
    inversion Hnodup as [|? ? Hnotin Hnodup']; subst. clear Hnodup.
    rename Hnodup' into Hnodup.
    assert (Hlen1 : length (_usertags (complete_slot w t)) = 32%nat)
      by (cbn [complete_slot _usertags set_inprogress set_usertags log_commit];
          rewrite length_wr; exact Hlen).
    specialize (IH (complete_slot w t) Hlen1 Hrange Hnodup). cbv zeta in IH.
    destruct IH as (Hc & Hip & Hset & Hkeep & Hl & Htag & Hms & Hdn & Hcl & Hct
                    & Hmm & Hnr & Hnc & Hpa).
    split.
    { rewrite Hc. cbn [complete_slot commits set_inprogress set_usertags log_commit].
      rewrite <- app_assoc. cbn [app]. f_equal. f_equal.
      apply map_ext_in. intros t' Ht'.
      apply commit_of_complete_slot; [lia| |].
      - rewrite List.Forall_forall in Hrange. specialize (Hrange t' Ht'). lia.
      - intros ->. apply Hnotin. apply list_elem_of_In. exact Ht'. }
    split; [exact Hip|]. split.
    { intros t' [<- | Hin]; [|apply Hset; exact Hin].
      rewrite Hkeep; [|lia|intros Hin; apply Hnotin, list_elem_of_In, Hin].
      cbn [complete_slot _usertags set_inprogress set_usertags log_commit].
      apply rd_wr_eq; [lia|]. rewrite Hlen. lia. }
    split.
    { intros t' Ht' Hnin. rewrite Hkeep; [|exact Ht'|intros Hin; apply Hnin; right; exact Hin].
      cbn [complete_slot _usertags set_inprogress set_usertags log_commit].
      apply rd_wr_ne; [lia|lia|]. intros ->. apply Hnin. left. reflexivity. }
    repeat split; assumption.
Qed.

Lemma testbit_clear_slots tags : forall ip i,
  0 <= i < 32 ->
  Forall (fun t => 0 <= t < 32) tags ->
  Z.testbit (fold_left (fun ip t => Z.land ip (not32 (bit32 t))) tags ip) i
  = Z.testbit ip i && negb (bool_decide (i ∈ tags)).
Proof.
  induction tags as [|t tags IH]; intros ip i Hi Hrange; cbn [fold_left].
  - rewrite bool_decide_eq_false_2 by apply not_elem_of_nil.
    symmetry. apply andb_true_r.
  - inversion Hrange as [|? ? Ht Hrange']; subst. rewrite IH by assumption.
    rewrite Z.land_spec, testbit_not32, testbit_bit32 by lia.
    assert (Hi32 : (i <? 32) = true) by (apply Z.ltb_lt; lia). rewrite Hi32.
    cbn [andb]. rewrite <- andb_assoc. f_equal.
    destruct (Z.eqb_spec i t) as [->|Hne]; cbn [negb andb].
    + symmetry. rewrite bool_decide_eq_true_2; [reflexivity|].
      apply elem_of_cons. left. reflexivity.
    + destruct (decide (i ∈ tags)) as [Hin|Hnin].
      * rewrite !bool_decide_eq_true_2; [reflexivity| |exact Hin].
        apply elem_of_cons. right. exact Hin.
      * rewrite !bool_decide_eq_false_2; [reflexivity| |exact Hnin].
        intros [Heq|Hin]%elem_of_cons; [lia|contradiction].
Qed.

Lemma set_bits_range done :
  0 <= done < 2 ^ 32 -> Forall (fun t => 0 <= t < 32) (set_bits done).
Proof.
  intros Hdone. apply List.Forall_forall. intros t Ht.
  apply in_set_bits in Ht as [Ht0 Hbit]; [|lia]. split; [exact Ht0|].
  destruct (Z.lt_ge_cases t 32) as [|Hge]; [assumption|].
  assert (Z.testbit done t = false) by (apply (below_pow2_bits done 32); lia).
  congruence.
Qed.

Lemma set_bits_nodup done : NoDup (set_bits done).
Proof.
  pose proof (set_bits_sorted done) as Hs.
  induction Hs as [|t l Hs IH Hall]; constructor; [|exact IH].
  intros Hin. rewrite List.Forall_forall in Hall. apply list_elem_of_In in Hin.
  specialize (Hall t Hin). lia.
Qed.

(** Clearing the slots of [done] one by one clears exactly [done]. *)
Lemma clear_slots_ldiff ip done :
  0 <= ip < 2 ^ 32 -> 0 <= done < 2 ^ 32 ->
  fold_left (fun ip t => Z.land ip (not32 (bit32 t))) (set_bits done) ip
  = Z.ldiff ip done.
Proof.
  intros Hip Hdone. apply Z.bits_inj'. intros i Hi.
  rewrite Z.ldiff_spec. destruct (Z.lt_ge_cases i 32) as [Hlt|Hge].
  - rewrite testbit_clear_slots by (try apply set_bits_range; lia).
    f_equal. f_equal. destruct (Z.testbit done i) eqn:Hbit.
    + apply bool_decide_eq_true_2. apply list_elem_of_In.
      apply in_set_bits; [lia|]. split; [lia|exact Hbit].
    + apply bool_decide_eq_false_2. intros Hin. apply list_elem_of_In in Hin.
      apply in_set_bits in Hin as [_ Hin]; [|lia]. congruence.
  - assert (Hhigh : forall tags x, 0 <= x < 2 ^ 32 ->
              0 <= fold_left (fun ip t => Z.land ip (not32 (bit32 t))) tags x < 2 ^ 32).
    { induction tags as [|t tags IH]; intros x Hx; cbn [fold_left]; [exact Hx|].
      apply IH. apply land_nonneg_range. exact Hx. }
    specialize (Hhigh (set_bits done) ip Hip).
    assert (Z.testbit ip i = false) as -> by (apply (below_pow2_bits ip 32); lia).
    apply (below_pow2_bits _ 32); lia.
Qed.

(** ** [irq] *)

Lemma irq_eq E fuel w :
  0 <= _inprogress w < 2 ^ 32 ->
  let status := wrap32 (hw_read E (n_reads w) IS) in
  let ci := wrap32 (hw_read E (S (n_reads w)) CI) in
  let done := Z.land (_inprogress w) (not32 ci) in
  let w3 := fold_left complete_slot (set_bits done)
              (count_read (log_write IS status (count_read w))) in
  irq E fuel w
  = if negb (Z.land (wrap32 (hw_read E (n_reads w3) TFD)) 1 =? 0)
    then (do _ <- reg_read E TFD; do _ <- init E fuel (irq_buffer E); ret tt)
           (count_read w3)
    else Ok tt (count_read w3).
Proof.
  intros Hip. cbv zeta. unfold irq.
  unfold bind at 1. unfold reg_read at 1.
  unfold bind at 1. unfold reg_write at 1. unfold modify at 1.
  unfold bind at 1. unfold reg_read at 1.
  unfold bind at 1. unfold get at 1.
  cbn [n_reads _inprogress count_read log_write].
  unfold bind at 1. rewrite irq_loop_eq;
    [|apply land_nonneg_range; exact Hip
     |apply irq_loop_fuel, land_nonneg_range; exact Hip].
  unfold bind at 1. unfold reg_read at 1.
  destruct (negb _); reflexivity.
Qed.

(** For every slot that is in progress and whose CI bit reads clear, lowest
    first, [irq] sends one commit with the disk number and the usertag stored
    for the slot, also when it goes on to reinitialise the port. *)
Lemma irq_commits E fuel w :
  length (_usertags w) = 32%nat ->
  0 <= _inprogress w < 2 ^ 32 ->
  let ci := wrap32 (hw_read E (S (n_reads w)) CI) in
  let done := Z.land (_inprogress w) (not32 ci) in
  commits (world_of (irq E fuel w))
  = commits w ++ map (commit_of w) (set_bits done).
Proof.
  intros Hlen Hip ci done. rewrite irq_eq by exact Hip. cbv zeta. fold ci done.
  set (w2 := count_read (log_write IS _ (count_read w))).
  assert (Hdone : 0 <= done < 2 ^ 32) by (apply land_nonneg_range; exact Hip).
  destruct (complete_slots_facts (set_bits done) w2 Hlen (set_bits_range done Hdone)
              (set_bits_nodup done)) as (Hc & _).
  set (w3 := fold_left complete_slot (set_bits done) w2) in *.
  change (commits w2) with (commits w) in Hc.
  change (commit_of w2) with (commit_of w) in Hc.
  destruct (negb _); [|exact Hc].
  rewrite <- Hc.
  apply (preserves_bind (fun w' => commits w' = commits w3));
    [intros w0 Hw0; exact Hw0| |reflexivity].
  intros _. apply preserves_bind; [|intros _; apply preserves_ret].
  apply preserves_init; intros; assumption.
Qed.

(** When the device reports no error, [irq] ends there: the completed slots
    are cleared from [_inprogress] and their usertags invalidated. *)
Lemma irq_no_error E fuel w :
  length (_usertags w) = 32%nat ->
  0 <= _inprogress w < 2 ^ 32 ->
  let status := wrap32 (hw_read E (n_reads w) IS) in
  let ci := wrap32 (hw_read E (S (n_reads w)) CI) in
  let done := Z.land (_inprogress w) (not32 ci) in
  Z.land (wrap32 (hw_read E (S (S (n_reads w))) TFD)) 1 = 0 ->
  exists w',
    irq E fuel w = Ok tt w' /\
    _inprogress w' = Z.ldiff (_inprogress w) done /\
    (forall t, In t (set_bits done) -> rd (_usertags w') t = not32 0) /\
    (forall t, 0 <= t -> ~ In t (set_bits done) ->
               rd (_usertags w') t = rd (_usertags w) t) /\
    mmio w' = mmio w ++ [(IS, status)] /\
    _tag w' = _tag w /\ _max_slots w' = _max_slots w.
Proof.
  intros Hlen Hip status ci done Htfd. rewrite irq_eq by exact Hip. cbv zeta.
  fold status ci done.
  set (w2 := count_read (log_write IS status (count_read w))).
  assert (Hdone : 0 <= done < 2 ^ 32) by (apply land_nonneg_range; exact Hip).
  destruct (complete_slots_facts (set_bits done) w2 Hlen (set_bits_range done Hdone)
              (set_bits_nodup done))
    as (_ & Hipf & Hset & Hkeep & _ & Htag & Hms & _ & _ & _ & Hmm & Hnr & _).
  set (w3 := fold_left complete_slot (set_bits done) w2) in *.
  rewrite Hnr. cbn [n_reads w2 count_read log_write]. rewrite Htfd.
  cbn [Z.eqb negb]. exists (count_read w3).
  split; [reflexivity|]. split.
  { cbn [_inprogress count_read]. rewrite Hipf.
    apply clear_slots_ldiff; assumption. }
  repeat split; assumption.
Qed.

Lemma receive_rw_usertag E msg w w' :
  port_wf w ->
  Forall dma_wf (msg_dma msg) ->
  msg_type msg = DISK_READ \/ msg_type msg = DISK_WRITE ->
  receive E msg w = Ok true w' ->
  rd (_usertags w') (_tag w) = msg_usertag msg /\
  Z.testbit (_inprogress w') (_tag w) = true.
Proof.
  intros Hwf Hdwf Hty Hrun.
  assert (Hdisk : msg_disknr msg = _disknr w).
  { unfold receive, bind, get in Hrun. cbn beta in Hrun.
    destruct (Z.eqb_spec (msg_disknr msg) (_disknr w)); [assumption|discriminate]. }
  assert (Hlen : total_length (msg_dma msg) mod 512 = 0).
  { unfold receive, bind, get in Hrun. cbn beta in Hrun.
    rewrite Hdisk, Z.eqb_refl, sum_length_sector in Hrun. cbn [negb] in Hrun.
    destruct (Z.eqb_spec (total_length (msg_dma msg) mod 512) 0); [assumption|].
    destruct Hty as [Ht | Ht]; rewrite Ht in Hrun; discriminate. }
  rewrite receive_rw_eq in Hrun by assumption.
  destruct (translate E w (ct_slot_addr w)) as [phys|]; [|discriminate].
  destruct (request_set_facts w phys msg Hwf) as (Hwf1 & Htag1 & _).
  destruct (dma_loop_frame E msg (msg_dma msg) (request_set w phys msg) Hwf1 Hdwf)
    as (Ht & _ & Hut & _).
  destruct (dma_loop E msg (msg_dma msg) (request_set w phys msg))
    as [[|] w2|f w2]; try discriminate.
  injection Hrun as <-. cbn [world_of] in Ht, Hut.
  destruct Hwf as (Hms & Htag & _ & _ & Hul & _).
  unfold command_started.
  cbn [_usertags _inprogress set_tag log_write set_usertags set_inprogress].
  rewrite Ht, Htag1. split.
  - apply rd_wr_eq; [lia|]. rewrite Hut.
    replace (_usertags (request_set w phys msg)) with (_usertags w)
      by (unfold request_set; destruct (msg_type msg); reflexivity).
    rewrite Hul. lia.
  - rewrite Z.lor_spec, testbit_bit32 by lia.
    assert ((_tag w <? 32) = true) as -> by (apply Z.ltb_lt; lia).
    rewrite Z.eqb_refl. apply orb_true_r.
Qed.

(** A FLUSH_CACHE is started with usertag 0, whatever the message holds. *)
Lemma receive_flush_usertag E msg w :
  port_wf w ->
  msg_disknr msg = _disknr w ->
  msg_type msg = DISK_FLUSH_CACHE ->
  translate E w (ct_slot_addr w) <> None ->
  exists w',
    receive E msg w = Ok true w' /\
    rd (_usertags w') (_tag w) = 0 /\
    Z.testbit (_inprogress w') (_tag w) = true.
Proof.
  intros Hwf Hdisk Hty Htr. rewrite receive_flush_eq by assumption.
  destruct (translate E w (ct_slot_addr w)) as [phys|]; [|contradiction].
  eexists. split; [reflexivity|].
  destruct Hwf as (Hms & Htag & _ & _ & Hul & _).
  unfold command_started.
  cbn [_usertags _inprogress set_tag log_write set_usertags set_inprogress].
  replace (_usertags (request_set w phys msg)) with (_usertags w)
    by (unfold request_set; destruct (msg_type msg); reflexivity).
  replace (_tag (request_set w phys msg)) with (_tag w)
    by (unfold request_set; destruct (msg_type msg); reflexivity).
  split.
  - apply rd_wr_eq; [lia|]. rewrite Hul. lia.
  - rewrite Z.lor_spec, testbit_bit32 by lia.
    assert ((_tag w <? 32) = true) as -> by (apply Z.ltb_lt; lia).
    rewrite Z.eqb_refl. apply orb_true_r.
Qed.

(** C1 fails for FLUSH_CACHE: whatever usertag the consumer sends with the
    request, once the device has cleared the CI bit of its slot the commit
    [irq] sends for that slot carries usertag 0. *)
Theorem flush_commit_usertag (E : Env) (fuel : nat) (msg : MessageDisk) (w : Port) :
  port_wf w ->
  0 <= _inprogress w < 2 ^ 32 ->
  msg_type msg = DISK_FLUSH_CACHE ->
  msg_disknr msg = _disknr w ->
  translate E w (ct_slot_addr w) <> None ->
  Z.testbit (wrap32 (hw_read E (S (n_reads w)) CI)) (_tag w) = false ->
  exists w1 done,
    receive E msg w = Ok true w1 /\
    commits (world_of (irq E fuel w1)) = commits w ++ map (commit_of w1) done /\
    In (_tag w) done /\ NoDup done /\
    commit_of w1 (_tag w)
    = {| commit_disknr := _disknr w; commit_usertag := 0; commit_status := DISK_OK |}.
Proof.
  intros Hwf Hip Hty Hdisk Htr Hci.
  destruct (receive_flush_usertag E msg w Hwf Hdisk Hty Htr) as (w1 & Hrun & Hut & Hbit).
  pose proof Hrun as Hrun'. rewrite receive_flush_eq in Hrun' by assumption.
  destruct (translate E w (ct_slot_addr w)) as [phys|]; [|contradiction].
  injection Hrun' as Hw1.
  assert (Hframe : n_reads w1 = n_reads w /\ commits w1 = commits w /\
                   _disknr w1 = _disknr w /\
                   length (_usertags w1) = length (_usertags w) /\
                   _inprogress w1 = Z.lor (_inprogress w) (bit32 (_tag w))).
  { rewrite <- Hw1. unfold command_started, request_set. rewrite Hty.
    cbn [n_reads commits _disknr _usertags _inprogress _tag set_tag log_write
         set_usertags set_inprogress command_set set_ct set_cl].
    rewrite length_wr. repeat split. }
  destruct Hframe as (Hnr & Hcm & Hdn & Hlen & Hip1).
  destruct Hwf as (Hms & Htag & _ & _ & Hul & _).
  assert (Hip1r : 0 <= _inprogress w1 < 2 ^ 32).
  { rewrite Hip1. apply lor_below; [lia|exact Hip|]. unfold bit32. apply wrap32_range. }
  exists w1, (set_bits (Z.land (_inprogress w1)
                          (not32 (wrap32 (hw_read E (S (n_reads w1)) CI))))).
  split; [exact Hrun|]. split.
  { rewrite <- Hcm. apply irq_commits; [rewrite Hlen; exact Hul|exact Hip1r]. }
  split.
  { apply in_set_bits; [apply land_nonneg_range; exact Hip1r|].
    split; [lia|]. rewrite Z.land_spec, Hbit, testbit_not32, Hnr, Hci by lia.
    assert ((_tag w <? 32) = true) as -> by (apply Z.ltb_lt; lia). reflexivity. }
  split; [apply set_bits_nodup|].
  unfold commit_of. rewrite Hut, Hdn. reflexivity.
Qed.

(** The same on the two-slot port: the consumer sends usertag 0xABCD and
    the commit carries 0. *)
Lemma flush_commit_example :
  let w1 := world_of (receive idle_env flush ready_port) in
  msg_usertag flush = 0xABCD /\
  receive idle_env flush ready_port = Ok true w1 /\
  commits ready_port = [] /\
  commits (world_of (irq idle_env 1 w1))
  = [ {| commit_disknr := 0; commit_usertag := 0; commit_status := DISK_OK |} ].
Proof. vm_compute. repeat split; reflexivity. Qed.

Lemma flush_commit_usertag_witness :
  msg_usertag flush = 0xABCD /\
  exists w1 done,
    receive idle_env flush ready_port = Ok true w1 /\
    commits (world_of (irq idle_env 1 w1))
    = commits ready_port ++ map (commit_of w1) done /\
    In (_tag ready_port) done /\ NoDup done /\
    commit_of w1 (_tag ready_port)
    = {| commit_disknr := _disknr ready_port; commit_usertag := 0;
         commit_status := DISK_OK |}.
Proof.
  split; [reflexivity|].
  apply (flush_commit_usertag idle_env 1 flush ready_port ready_port_wf).
  - vm_compute. split; [discriminate|reflexivity].
  - reflexivity.
  - reflexivity.
  - vm_compute. discriminate.
  - vm_compute. reflexivity.
Defined.

(** ** Termination of the bring-up *)

Lemma wait_timeout_advance E fuel reg mask value w :
  live E fuel ->
  exists r c res, wait_timeout E fuel reg mask value w = Ok res (advance r c w).
Proof.
  intros Hlive. unfold wait_timeout. unfold bind at 1. unfold clock at 1.
  fold (clock_at E (n_clock w)).
  destruct (wait_loop_spec E reg mask value
              (wrap64 (clock_at E (n_clock w) + TIMEOUT)) fuel (count_clock w))
    as (n & _ & _ & Hend); [exact (Hlive (n_clock w))|].
  change (count_clock w) with (advance 0 1 w) in *.
  rewrite !advance_advance in Hend.
  destruct Hend as [(_ & Hloop) | (_ & _ & Hloop)];
    unfold bind at 1; rewrite Hloop; unfold bind, reg_read, ret;
    change (count_read (advance ?r ?c w)) with (advance 1 0 (advance r c w));
    rewrite advance_advance; eauto.
Qed.

Lemma returns_ret {A} P (a : A) : returns P (ret a).
Proof. intros w Hw. exists a, w. split; [reflexivity|exact Hw]. Qed.

Lemma returns_get {A} P (f : Port -> A) : returns P (get f).
Proof. intros w Hw. exists (f w), w. split; [reflexivity|exact Hw]. Qed.

Lemma returns_modify P f : (forall w, P w -> P (f w)) -> returns P (modify f).
Proof. intros Hf w Hw. exists tt, (f w). split; [reflexivity|apply Hf; exact Hw]. Qed.

Lemma returns_bind {A B} P (m : M A) (k : A -> M B) :
  returns P m -> (forall a, returns P (k a)) -> returns P (bind m k).
Proof.
  intros Hm Hk w Hw. destruct (Hm w Hw) as (a & w1 & Hrun & Hw1).
  unfold bind. rewrite Hrun. apply Hk. exact Hw1.
Qed.

Lemma returns_get_bind {A B} P (f : Port -> A) (v : A) (k : A -> M B) :
  (forall w, P w -> f w = v) -> returns P (k v) -> returns P (bind (get f) k).
Proof.
  intros Hf Hk w Hw. unfold bind, get. rewrite (Hf w Hw). apply Hk. exact Hw.
Qed.

Lemma returns_check2 P (m k : M Z) :
  returns P m -> returns P k -> returns P (check2 m k).
Proof.
  intros Hm Hk. unfold check2. apply returns_bind; [exact Hm|].
  intros r. destruct (r =? 0); [exact Hk|apply returns_ret].
Qed.

Create HintDb returns.

#[global] Hint Resolve returns_ret returns_get returns_modify : returns.

Ltac run_through :=
  repeat (cbv zeta;
          lazymatch goal with
          | |- returns _ (bind _ _) => apply returns_bind; [|intros ?]
          | |- returns _ (check2 _ _) => apply returns_check2
          | |- returns _ (if ?b then _ else _) => destruct b
          | |- returns _ _ => solve [eauto with returns]
          end).

Section BringUp.

Variable E : Env.
Variable fuel : nat.
Variable w0 : Port.

Hypothesis Hlive : live E fuel.
Hypothesis Hcl : translate E w0 (cl_addr w0) <> None.
Hypothesis Hfis : translate E w0 (fis_addr w0) <> None.

Let P := init_frame w0.

Lemma returns_reg_read r : returns P (reg_read E r).
Proof. intros w Hw. eexists _, _. split; [reflexivity|exact Hw]. Qed.

Lemma returns_reg_write r v : returns P (reg_write r v).
Proof. intros w Hw. eexists _, _. split; [reflexivity|exact Hw]. Qed.

#[local] Hint Resolve returns_reg_read returns_reg_write : returns.

Lemma returns_reg_and r v : returns P (reg_and E r v).
Proof. unfold reg_and. run_through. Qed.

Lemma returns_reg_or r v : returns P (reg_or E r v).
Proof. unfold reg_or. run_through. Qed.

Lemma returns_wait_timeout reg mask value :
  returns P (wait_timeout E fuel reg mask value).
Proof.
  intros w Hw.
  destruct (wait_timeout_advance E fuel reg mask value w Hlive) as (r & c & res & Hrun).
  exists res, (advance r c w). split; [exact Hrun|exact Hw].
Qed.

Lemma returns_addr2phys_reg ptr r :
  translate E w0 ptr <> None -> returns P (addr2phys E ptr (RegPtr r)).
Proof.
  intros Htr w Hw. rewrite addr2phys_eq.
  assert (Hdmar : _dmar w = _dmar w0) by (destruct Hw as (_ & _ & H & _); exact H).
  rewrite (translate_frame E w0 w ptr Hdmar).
  destruct (translate E w0 ptr) as [value|]; [|contradiction].
  eexists _, _. split; [reflexivity|exact Hw].
Qed.

#[local] Hint Resolve returns_reg_and returns_reg_or returns_wait_timeout : returns.

#[local] Hint Resolve returns_addr2phys_reg : returns.

(** With a live clock and translatable buffers the bring-up returns. *)
Lemma init_port_returns : exists r w1, init_port E fuel w0 = Ok r w1.
Proof.
  assert (Hret : returns P (init_port E fuel)).
  { unfold init_port.
    apply returns_bind; [apply returns_reg_read|]. intros cmd.
    apply returns_check2; [run_through|].
    apply (returns_get_bind P cl_addr (cl_addr w0));
      [intros w (_ & _ & _ & H & _); exact H|].
    apply returns_bind; [apply returns_addr2phys_reg; exact Hcl|]. intros _.
    apply (returns_get_bind P fis_addr (fis_addr w0));
      [intros w (_ & _ & _ & _ & _ & H & _); exact H|].
    apply returns_bind; [apply returns_addr2phys_reg; exact Hfis|]. intros _.
    run_through. }
  destruct (Hret w0) as (r & w1 & Hrun & _); [repeat split|].
  exists r, w1. exact Hrun.
Qed.

End BringUp.

(** ** A bring-up that gives up *)

(** What a bring-up that returns early keeps: every predicate that register
    reads, clock readings and writes to registers other than CI keep.  The
    reset of [_inprogress] is not among them: it comes after the last
    wait. *)
Section BringUpQuiet.

Variable E : Env.
Variable P : Port -> Prop.

Hypothesis P_read : forall w, P w -> P (count_read w).
Hypothesis P_clock : forall w, P w -> P (count_clock w).
Hypothesis P_write : forall r v w, r <> CI -> P w -> P (log_write r v w).

Lemma quiet_reg_write r v : r <> CI -> preserves P (reg_write r v).
Proof. intros Hr w Hw. apply P_write; assumption. Qed.

Lemma quiet_update r (f : Z -> Z) :
  r <> CI -> preserves P (do old <- reg_read E r; reg_write r (f old)).
Proof.
  intros Hr. apply preserves_bind; [apply preserves_reg_read; exact P_read|].
  intros old. apply quiet_reg_write. exact Hr.
Qed.

Lemma quiet_addr2phys ptr r :
  r <> CI -> preg_next r <> CI -> preserves P (addr2phys E ptr (RegPtr r)).
Proof.
  intros Hr Hn w Hw. rewrite addr2phys_eq.
  destruct (translate E w ptr) as [p|]; [|exact Hw].
  unfold bind, store, reg_write, modify. cbn [world_of].
  apply P_write; [exact Hn|]. apply P_write; assumption.
Qed.

Lemma quiet_wait fuel reg mask value :
  preserves P (wait_timeout E fuel reg mask value).
Proof. apply preserves_wait_timeout; assumption. Qed.

Lemma nonzero_keeps_bind {A} (m : M A) (k : A -> M Z) :
  preserves P m -> (forall a, nonzero_keeps P (k a)) -> nonzero_keeps P (bind m k).
Proof.
  intros Hm Hk w r w' Hw Hrun Hr. unfold bind in Hrun. specialize (Hm w Hw).
  destruct (m w) as [a w1|f w1]; [|discriminate].
  exact (Hk a w1 r w' Hm Hrun Hr).
Qed.

Lemma nonzero_keeps_check2 (m k : M Z) :
  preserves P m -> nonzero_keeps P k -> nonzero_keeps P (check2 m k).
Proof.
  intros Hm Hk. unfold check2. apply nonzero_keeps_bind; [exact Hm|].
  intros r. destruct (r =? 0); [exact Hk|].
  intros w r' w' Hw Hrun _. unfold ret in Hrun. injection Hrun as _ <-. exact Hw.
Qed.

Lemma init_port_gives_up fuel : nonzero_keeps P (init_port E fuel).
Proof.
  unfold init_port, reg_and, reg_or.
  apply nonzero_keeps_bind; [apply preserves_reg_read; exact P_read|]. intros cmd.
  apply nonzero_keeps_check2.
  { destruct (negb _); [|apply preserves_ret].
    apply preserves_bind; [apply quiet_update; discriminate|]. intros _.
    apply preserves_check2; [apply quiet_wait|].
    apply preserves_bind; [apply quiet_update; discriminate|]. intros _.
    apply quiet_wait. }
  apply nonzero_keeps_bind; [apply preserves_get|]. intros cl.
  apply nonzero_keeps_bind; [apply quiet_addr2phys; discriminate|]. intros _.
  apply nonzero_keeps_bind; [apply preserves_get|]. intros fis.
  apply nonzero_keeps_bind; [apply quiet_addr2phys; discriminate|]. intros _.
  apply nonzero_keeps_bind; [apply quiet_reg_write; discriminate|]. intros _.
  apply nonzero_keeps_bind; [apply quiet_reg_write; discriminate|]. intros _.
  apply nonzero_keeps_bind; [apply quiet_update; discriminate|]. intros _.
  apply nonzero_keeps_check2; [apply quiet_wait|].
  apply nonzero_keeps_bind; [apply quiet_update; discriminate|]. intros _.
  apply nonzero_keeps_check2; [apply quiet_wait|].
  intros w r w' _ Hrun Hr.
  unfold bind, reg_read, reg_write, modify, ret in Hrun.
  injection Hrun as Hr0 _. congruence.
Qed.

End BringUpQuiet.

Lemma writes_to_log_write r r' v w :
  r' <> r -> writes_to r (log_write r' v w) = writes_to r w.
Proof.
  intros Hne. unfold writes_to. cbn [mmio log_write].
  rewrite list.filter_app, map_app.
  rewrite list.filter_cons_False, list.filter_nil; [apply app_nil_r|].
  cbn [fst]. intros Hd. apply bool_decide_unpack in Hd. contradiction.
Qed.

(** A bring-up that returns the result of a wait that timed out has written
    nothing to CI and has left [_inprogress] as it found it. *)
Lemma init_port_early E fuel w r w1 :
  init_port E fuel w = Ok r w1 -> r <> 0 ->
  writes_to CI w1 = writes_to CI w /\ _inprogress w1 = _inprogress w.
Proof.
  intros Hrun Hr.
  apply (init_port_gives_up E
           (fun w' => writes_to CI w' = writes_to CI w /\ _inprogress w' = _inprogress w))
    with (fuel := fuel) (w := w) (r := r); try assumption.
  - intros w' H. exact H.
  - intros w' H. exact H.
  - intros r' v w' Hne [H1 H2]. split; [|exact H2].
    rewrite writes_to_log_write by exact Hne. exact H1.
  - split; reflexivity.
Qed.

(** ** [init] and IDENTIFY DEVICE *)

Lemma init_port_frame E fuel w : init_frame w (world_of (init_port E fuel w)).
Proof.
  apply (preserves_init_port E (init_frame w)); try (intros; assumption).
  repeat split.
Qed.

Lemma port_wf_frame w w' : init_frame w w' -> port_wf w -> port_wf w'.
Proof.
  intros (_ & Hms & _ & _ & _ & _ & Hcl & Hct & Htag & _ & Hut & _).
  unfold port_wf. rewrite Hms, Hcl, Hct, Htag, Hut. exact id.
Qed.

(** What [init] does once its bring-up has returned [r]. *)
Lemma init_after_bring_up (E : Env) (fuel : nat) (buffer : Z) (w w1 : Port)
    (r phys_ct phys_buf : Z) :
  port_wf w ->
  translate E w (ct_slot_addr w) = Some phys_ct ->
  translate E w buffer = Some phys_buf ->
  init_port E fuel w = Ok r w1 ->
  let tag := _tag w in
  if r =? 0 then
    exists w2,
      init E fuel buffer w
      = check2 (wait_timeout E fuel CI (bit32 tag) 0) (identify_finish E tag) w2 /\
      mmio w2 = mmio w1 ++ [(CI, bit32 tag)] /\
      fis_command w2 tag = 0xec /\
      slot_header w2 tag = 0x10005 /\
      prd_count w2 tag = 1 /\
      prd_dword w2 tag 0 0 = wrap32 phys_buf /\
      prd_dword w2 tag 0 1 = 0 /\
      prd_dword w2 tag 0 3 = 511 /\
      Z.testbit (_inprogress w2) tag = true
  else
    init E fuel buffer w = Ok r w1 /\
    writes_to CI w1 = writes_to CI w /\
    _inprogress w1 = _inprogress w /\
    init_frame w w1.
Proof.
  intros Hwf Hct Hbuf Hup tag.
  assert (Htag32 : 0 <= tag < 32) by (destruct Hwf as (? & ? & _); unfold tag; lia).
  assert (Hinit : init E fuel buffer w
                  = if r =? 0 then identify_drive E fuel buffer w1 else Ok r w1).
  { unfold init, check2, bind. rewrite Hup. destruct (r =? 0); reflexivity. }
  pose proof (init_port_frame E fuel w) as Hframe. rewrite Hup in Hframe.
  cbn [world_of] in Hframe.
  rewrite Hinit. destruct (Z.eqb_spec r 0) as [_|Hne].
  2: { destruct (init_port_early E fuel w r w1 Hup Hne) as [Hci Hip].
       split; [reflexivity|]. split; [exact Hci|]. split; [exact Hip|exact Hframe]. }
  pose proof (port_wf_frame w w1 Hframe Hwf) as Hwf1.
  destruct Hframe as (_ & _ & Hdmar & _ & Hcta & _ & _ & _ & Htag & _).
  assert (Hct1 : translate E w1 (ct_slot_addr w1) = Some phys_ct).
  { unfold ct_slot_addr. rewrite Hcta, Htag.
    rewrite (translate_frame E w w1) by exact Hdmar. exact Hct. }
  set (w1c := command_set w1 phys_ct (cl_header true false 0) (cfis 0xec 0 0 0 0)).
  pose proof (command_set_wf w1 Hwf1 phys_ct (cl_header true false 0) 0xec 0 0 0 0
                (cl_header_range true false 0)) as Hwfc. fold w1c in Hwfc.
  destruct (command_set_header w1 Hwf1 phys_ct (cl_header true false 0) 0xec 0 0 0 0
              (cl_header_range true false 0)) as [Hhdr Hprd0]. fold w1c in Hhdr, Hprd0.
  pose proof (command_set_fis_command w1 Hwf1 phys_ct (cl_header true false 0)
                0xec 0 0 0 0) as Hfis. fold w1c in Hfis.
  rewrite Htag in Hhdr, Hprd0, Hfis. fold tag in Hhdr, Hprd0, Hfis.
  assert (Htagc : _tag w1c = tag) by exact Htag.
  assert (Hlt : prd_count w1c (_tag w1c) < MAX_PRD_COUNT)
    by (rewrite Htagc, Hprd0; unfold MAX_PRD_COUNT; lia).
  destruct (prd_appended_facts w1c Hwfc phys_buf 512 Hlt)
    as (Hh2 & Hp2 & Hd0 & Hd1 & Hd3).
  set (w1p := prd_appended w1c phys_buf 512) in *.
  rewrite Htagc in Hh2, Hp2, Hd0, Hd1, Hd3.
  rewrite Hprd0 in Hp2, Hd0, Hd1, Hd3. rewrite Hhdr in Hh2.
  change (cl_header true false 0 + 65536) with 0x10005 in Hh2.
  change (0 + 1) with 1 in Hp2. change (wrap32 (512 - 1)) with 511 in Hd3.
  assert (Hfisp : fis_command w1p tag = 0xec).
  { transitivity (fis_command w1c tag); [|rewrite Hfis; reflexivity].
    unfold fis_command, fis_dword, w1p, prd_appended.
    cbn [_ct set_ct set_cl]. rewrite Htagc.
    fold (slot_header w1c tag). fold (prd_count w1c tag). rewrite Hprd0.
    rewrite prd_index_eq, ct_index_eq.
    rewrite !rd_wr_ne by lia. reflexivity. }
  exists (command_started w1p 0). split.
  { unfold identify_drive. unfold bind at 1. rewrite set_command_eq.
    fold (ct_slot_addr w1). rewrite Hct1.
    fold w1c. unfold bind at 1. rewrite add_prd_eq by lia.
    rewrite Htagc, Hprd0.
    change (Z.odd 512 || (2 ^ 22 <=? 512)) with false. cbv iota.
    change (MAX_PRD_COUNT <=? 0) with false. cbv iota.
    rewrite (translate_frame E w w1c) by exact Hdmar. rewrite Hbuf.
    fold w1p. unfold bind at 1. rewrite start_command_eq.
    change (_tag w1p) with (_tag w1c). rewrite Htagc. reflexivity. }
  unfold command_started.
  change (_tag w1p) with (_tag w1c). rewrite Htagc.
  split; [reflexivity|]. split; [exact Hfisp|]. split; [exact Hh2|].
  split; [exact Hp2|]. split; [exact Hd0|]. split; [exact Hd1|].
  split; [exact Hd3|].
  cbn [_inprogress set_tag log_write set_usertags set_inprogress].
  rewrite Z.lor_spec, testbit_bit32 by lia.
  assert ((tag <? 32) = true) as -> by (apply Z.ltb_lt; lia).
  rewrite Z.eqb_refl. apply orb_true_r.
Qed.

(** C2, as the code has it: the bring-up of [init] returns; when its waits
    were all satisfied, [init] sets up IDENTIFY DEVICE (0xEC) in the slot the
    cursor [_tag] is at (slot 0 after the constructor), with one PRD of 512
    bytes at the buffer, writes the bit of that slot to CI and goes on with
    the wait for that bit of CI to clear; when a wait of the bring-up timed
    out, [init] returns its result and issues nothing: no write to CI is
    added, no slot is marked in progress, and the command list, the command
    tables, the cursor and the usertags are as they were. *)
Theorem init_identify (E : Env) (fuel : nat) (buffer : Z) (w : Port)
    (phys_ct phys_buf : Z) :
  port_wf w ->
  live E fuel ->
  translate E w (cl_addr w) <> None ->
  translate E w (fis_addr w) <> None ->
  translate E w (ct_slot_addr w) = Some phys_ct ->
  translate E w buffer = Some phys_buf ->
  let tag := _tag w in
  exists r w1,
    init_port E fuel w = Ok r w1 /\
    if r =? 0 then
      exists w2,
        init E fuel buffer w
        = check2 (wait_timeout E fuel CI (bit32 tag) 0) (identify_finish E tag) w2 /\
        mmio w2 = mmio w1 ++ [(CI, bit32 tag)] /\
        fis_command w2 tag = 0xec /\
        slot_header w2 tag = 0x10005 /\
        prd_count w2 tag = 1 /\
        prd_dword w2 tag 0 0 = wrap32 phys_buf /\
        prd_dword w2 tag 0 1 = 0 /\
        prd_dword w2 tag 0 3 = 511 /\
        Z.testbit (_inprogress w2) tag = true
    else
      init E fuel buffer w = Ok r w1 /\
      writes_to CI w1 = writes_to CI w /\
      _inprogress w1 = _inprogress w /\
      init_frame w w1.
Proof.
  intros Hwf Hlive Hcl Hfis Hct Hbuf tag.
  destruct (init_port_returns E fuel w Hlive Hcl Hfis) as (r & w1 & Hup).
  exists r, w1. split; [exact Hup|].
  exact (init_after_bring_up E fuel buffer w w1 r phys_ct phys_buf Hwf Hct Hbuf Hup).
Qed.

Lemma idle_env_live : live idle_env 200.
Proof.
  intros c. exists 199%nat. split; [lia|].
  unfold clock_at, TIMEOUT. cbn [hw_clock idle_env]. unfold wrap64.
  rewrite Zplus_mod_idemp_l.
  replace (Z.of_nat (S c + 199)) with (Z.of_nat c + 200) by lia. lia.
Qed.

Lemma init_identify_witness :
  exists w2,
    init idle_env 200 0x5000 fresh_port
    = check2 (wait_timeout idle_env 200 CI (bit32 0) 0) (identify_finish idle_env 0) w2 /\
    fis_command w2 0 = 0xec /\ prd_count w2 0 = 1 /\ prd_dword w2 0 0 3 = 511 /\
    writes_to CI w2 = [1].
Proof.
  assert (Hwf : port_wf fresh_port)
    by (apply (bool_decide_unpack _); vm_compute; reflexivity).
  destruct (init_identify idle_env 200 0x5000 fresh_port 0x3000 0x5000 Hwf
              idle_env_live ltac:(discriminate) ltac:(discriminate) eq_refl eq_refl)
    as (r & w1 & Hup & Hrest).
  assert (Hup' : init_port idle_env 200 fresh_port = Ok 0 reset_port)
    by (vm_compute; reflexivity).
  rewrite Hup' in Hup. injection Hup as <- <-. cbn [Z.eqb] in Hrest.
  destruct Hrest as (w2 & Hinit & Hmm & Hfis & _ & Hprd & _ & _ & Hd3 & _).
  exists w2. repeat split; try assumption.
  unfold writes_to. rewrite Hmm. vm_compute. reflexivity.
Defined.

(** C2 as the claim has it fails for the re-init of [irq]: the first
    bring-up has used slot 0 and moved the cursor to slot 1, so the IDENTIFY
    of the re-init is set up in slot 1 and started by writing 2 to CI.  It
    also fails when the device does not stop: [init] returns the result of
    its first wait and writes nothing to CI. *)
Lemma init_identify_counterexample :
  let w0 := world_of (init error_env 1 0x5000 fresh_port) in
  let w' := world_of (irq error_env 1 w0) in
  (_tag w0 = 1 /\
   writes_to CI w0 = [1] /\
   writes_to CI w' = [1; 2] /\
   writes_to IE w' = [0xf98000f1; 0xf98000f1] /\
   fis_command w' 1 = 0xec /\ prd_count w' 1 = 1 /\
   prd_dword w' 1 0 0 = irq_buffer error_env) /\
  exists w'',
    init stuck_env 1 0x5000 fresh_port = Ok 1 w'' /\ writes_to CI w'' = [].
Proof.
  split.
  - vm_compute. repeat split; reflexivity.
  - eexists. split; vm_compute; reflexivity.
Qed.


(** * Further properties of the port driver *)

(** ** Preservation through the command set-up *)

(** State predicates that the set-up of a command keeps for its own reasons
    (they speak of the command list and tables): preservation through the
    operations that set up commands, given preservation by [set_command],
    [add_dma] and [add_prd]. *)
Section PreservationCommands.

Variable E : Env.
Variable P : Port -> Prop.

Hypothesis P_read : forall w, P w -> P (count_read w).
Hypothesis P_clock : forall w, P w -> P (count_clock w).
Hypothesis P_write : forall r v w, P w -> P (log_write r v w).
Hypothesis P_params : forall v w, P w -> P (set_params v w).
Hypothesis P_commit : forall m w, P w -> P (log_commit m w).
Hypothesis P_invalidate :
  forall tag w, P w -> P (set_usertags (wr tag (not32 0) (_usertags w)) w).
Hypothesis P_start : forall usertag w, P w -> P (command_started w usertag).
Hypothesis P_clear :
  forall tag w, P w -> P (set_inprogress (Z.land (_inprogress w) (not32 (bit32 tag))) w).
Hypothesis P_reset : forall w, P w -> P (set_inprogress 0 w).
Hypothesis P_set_command :
  forall command sector read count atapi pmp features,
    preserves P (set_command E command sector read count atapi pmp features).
Hypothesis P_add_dma : forall ptr count, preserves P (add_dma E ptr count).
Hypothesis P_add_prd : forall buffer count, preserves P (add_prd E buffer count).

Lemma keeps_start_command usertag : preserves P (start_command usertag).
Proof. intros w Hw. rewrite start_command_eq. apply P_start. exact Hw. Qed.

Lemma keeps_clear_inprogress tag : preserves P (clear_inprogress tag).
Proof. apply preserves_modify. apply P_clear. Qed.

Lemma keeps_wait_timeout fuel reg mask value :
  preserves P (wait_timeout E fuel reg mask value).
Proof. apply preserves_wait_timeout; assumption. Qed.

Lemma keeps_init_port fuel : preserves P (init_port E fuel).
Proof. apply preserves_init_port; assumption. Qed.

Lemma keeps_reg_read r : preserves P (reg_read E r).
Proof. apply preserves_reg_read; assumption. Qed.

Lemma keeps_reg_write r v : preserves P (reg_write r v).
Proof. apply preserves_reg_write; assumption. Qed.

#[local] Hint Resolve keeps_start_command keeps_clear_inprogress keeps_wait_timeout
  keeps_init_port keeps_reg_read keeps_reg_write : preserves.

Lemma keeps_identify_finish tag : preserves P (identify_finish E tag).
Proof. unfold identify_finish. preserve. Qed.

#[local] Hint Resolve keeps_identify_finish : preserves.

Lemma keeps_identify_drive fuel buffer : preserves P (identify_drive E fuel buffer).
Proof. unfold identify_drive. preserve. Qed.

Lemma keeps_set_features fuel features count :
  preserves P (set_features E fuel features count).
Proof. unfold set_features. preserve. Qed.

#[local] Hint Resolve keeps_identify_drive : preserves.

Lemma keeps_init fuel buffer : preserves P (init E fuel buffer).
Proof. unfold init. preserve. Qed.

Lemma keeps_irq_loop fuel : forall done, preserves P (irq_loop fuel done).
Proof. induction fuel as [|fuel IH]; intros done; cbn [irq_loop]; preserve. Qed.

#[local] Hint Resolve keeps_init keeps_irq_loop : preserves.

Lemma keeps_irq fuel : preserves P (irq E fuel).
Proof. unfold irq. preserve. Qed.

Lemma keeps_dma_loop msg dma : preserves P (dma_loop E msg dma).
Proof. induction dma as [|d rest IH]; cbn [dma_loop]; preserve. Qed.

#[local] Hint Resolve keeps_dma_loop : preserves.

Lemma keeps_receive msg : preserves P (receive E msg).
Proof. unfold receive. preserve. Qed.

Lemma keeps_run_op fuel op : forall w, P w -> P (run_op E fuel op w).
Proof.
  destruct op; cbn [run_op];
    [ apply keeps_init | apply keeps_start_command | apply keeps_identify_drive
    | apply keeps_set_features | apply keeps_irq | apply keeps_receive ].
Qed.

End PreservationCommands.

(** ** Well-formedness is an invariant *)

Lemma port_wf_set_cl i v w :
  0 <= v < 2 ^ 32 -> port_wf w -> port_wf (set_cl (wr i v (_cl w)) w).
Proof.
  intros Hv (Hms & Htag & Hcl & Hct & Hut & Hall). unfold port_wf.
  cbn [_max_slots _tag _cl _ct _usertags set_cl]. rewrite length_wr.
  repeat split; try assumption; try lia. apply Forall_wr; assumption.
Qed.

Lemma port_wf_set_ct i v w : port_wf w -> port_wf (set_ct (wr i v (_ct w)) w).
Proof.
  intros (Hms & Htag & Hcl & Hct & Hut & Hall). unfold port_wf.
  cbn [_max_slots _tag _cl _ct _usertags set_ct]. rewrite length_wr.
  repeat split; try assumption; lia.
Qed.

Lemma port_wf_store d k v :
  0 <= v < 2 ^ 32 -> preserves port_wf (store d k v).
Proof.
  intros Hv. destruct d; cbn [store].
  - intros w Hw. exact Hw.
  - apply preserves_modify. intros w Hw. apply port_wf_set_cl; assumption.
  - apply preserves_modify. intros w Hw. apply port_wf_set_ct; assumption.
Qed.

Lemma port_wf_addr2phys E ptr d : preserves port_wf (addr2phys E ptr d).
Proof.
  intros w Hw. rewrite addr2phys_eq.
  destruct (translate E w ptr) as [value|]; [|exact Hw].
  apply preserves_bind; [| |exact Hw].
  - apply port_wf_store. apply wrap32_range.
  - intros _. apply port_wf_store. lia.
Qed.

Lemma port_wf_set_command E command sector read count atapi pmp features :
  preserves port_wf (set_command E command sector read count atapi pmp features).
Proof.
  unfold set_command.
  apply preserves_bind; [apply preserves_get|]. intros tag.
  apply preserves_bind.
  { apply port_wf_store. pose proof (cl_header_range read atapi pmp). lia. }
  intros _. apply preserves_bind; [apply port_wf_store; lia|]. intros _.
  apply preserves_bind; [apply preserves_get|]. intros ct.
  apply preserves_bind; [apply port_wf_addr2phys|]. intros _.
  apply preserves_modify. intros w (Hms & Htag & Hcl & Hct & Hut & Hall).
  unfold port_wf. cbn [_max_slots _tag _cl _ct _usertags set_ct].
  rewrite length_wr_list. repeat split; try assumption; lia.
Qed.

Lemma port_wf_add_dma E ptr count : preserves port_wf (add_dma E ptr count).
Proof.
  unfold add_dma. destruct (_ || _); [apply preserves_ret|].
  apply preserves_bind; [apply preserves_get|]. intros tag.
  apply preserves_bind; [apply preserves_get|]. intros hdr. cbv zeta.
  destruct (MAX_PRD_COUNT <=? _); [apply preserves_ret|].
  apply preserves_bind; [apply port_wf_store, wrap32_range|]. intros _.
  apply preserves_bind; [apply port_wf_addr2phys|]. intros _.
  apply preserves_bind; [apply port_wf_store, wrap32_range|]. intros _.
  apply preserves_ret.
Qed.

Lemma port_wf_add_prd E buffer count : preserves port_wf (add_prd E buffer count).
Proof.
  unfold add_prd.
  apply preserves_bind; [apply preserves_get|]. intros tag.
  apply preserves_bind; [apply preserves_get|]. intros hdr. cbv zeta.
  destruct (negb _); [|apply preserves_fail].
  destruct (_ =? 0); [|apply preserves_fail].
  destruct (MAX_PRD_COUNT <=? _); [apply preserves_ret|].
  apply preserves_bind; [apply port_wf_store, wrap32_range|]. intros _.
  apply preserves_bind; [apply port_wf_addr2phys|]. intros _.
  apply preserves_bind; [apply port_wf_store, wrap32_range|]. intros _.
  apply preserves_ret.
Qed.

Lemma port_wf_started usertag w : port_wf w -> port_wf (command_started w usertag).
Proof.
  intros (Hms & Htag & Hcl & Hct & Hut & Hall). unfold port_wf, command_started.
  cbn [_max_slots _tag _cl _ct _usertags set_tag log_write set_usertags set_inprogress].
  rewrite length_wr. repeat split; try assumption; try lia;
    apply Z.mod_pos_bound; lia.
Qed.

Lemma port_wf_invalidate tag w :
  port_wf w -> port_wf (set_usertags (wr tag (not32 0) (_usertags w)) w).
Proof.
  intros (Hms & Htag & Hcl & Hct & Hut & Hall). unfold port_wf.
  cbn [_max_slots _tag _cl _ct _usertags set_usertags]. rewrite length_wr.
  repeat split; try assumption; lia.
Qed.

Lemma length_heap_array f n : length (heap_array f n) = Z.to_nat n.
Proof. unfold heap_array. rewrite length_map, length_seq. reflexivity. Qed.

Lemma HostAhciPort_new_wf cap disknr dmar h :
  port_wf (HostAhciPort_new disknr (max_slots_of_cap cap) dmar h).
Proof.
  pose proof (max_slots_of_cap_range cap) as Hms. unfold port_wf.
  cbn [_max_slots _tag _cl _ct _usertags HostAhciPort_new].
  rewrite !length_heap_array. repeat split; try lia.
  unfold heap_array. apply List.Forall_forall. intros v Hv.
  apply in_map_iff in Hv as (i & <- & _). apply wrap32_range.
Qed.

Lemma port_wf_run_op E fuel op w : port_wf w -> port_wf (run_op E fuel op w).
Proof.
  apply (keeps_run_op E port_wf); try (intros; assumption).
  - apply port_wf_invalidate.
  - apply port_wf_started.
  - apply port_wf_set_command.
  - apply port_wf_add_dma.
  - apply port_wf_add_prd.
Qed.

Lemma built_wf E w : built E w -> port_wf w.
Proof.
  induction 1 as [cap disknr dmar h|w fuel op _ IH].
  - apply HostAhciPort_new_wf.
  - apply port_wf_run_op. exact IH.
Qed.

(** X1: whatever has been called on a port since [create_ahci_port]
    constructed it, and however those calls ended, the slot count is between
    1 and 32, the slot cursor [_tag] is below it, the command list, command
    tables and usertag table have the sizes they were allocated with, and so
    the 8 dwords of the command header and the 288 dwords of the command
    table (FIS and 64 PRDs) of the slot under the cursor lie inside the
    allocated arrays. *)
Theorem built_port_wf (E : Env) (w : Port) :
  built E w ->
  port_wf w /\
  (forall k, 0 <= k < CL_DWORDS ->
     0 <= _tag w * CL_DWORDS + k < Z.of_nat (length (_cl w))) /\
  (forall prd k, 0 <= prd < MAX_PRD_COUNT -> 0 <= k < 4 ->
     ct_index (_tag w) <= prd_index (_tag w) prd + k < Z.of_nat (length (_ct w))).
Proof.
  intros Hb. pose proof (built_wf E w Hb) as Hwf.
  split; [exact Hwf|]. split.
  - intros k Hk. pose proof (tag_cl_bound w Hwf k Hk). lia.
  - intros prd k Hprd Hk. unfold MAX_PRD_COUNT in Hprd.
    rewrite ct_index_eq, prd_index_eq.
    pose proof (tag_ct_bound w Hwf (32 + prd * 4 + k) ltac:(lia)).
    destruct Hwf as (_ & Htag & _). lia.
Qed.

Lemma built_port_wf_witness :
  let w := run_op idle_env 1 (OpReceive read_4k)
             (run_op idle_env 1 (OpInit 0x5000)
                (HostAhciPort_new 0 (max_slots_of_cap 0x100) true zero_heap)) in
  port_wf w /\
  (forall k, 0 <= k < CL_DWORDS ->
     0 <= _tag w * CL_DWORDS + k < Z.of_nat (length (_cl w))) /\
  (forall prd k, 0 <= prd < MAX_PRD_COUNT -> 0 <= k < 4 ->
     ct_index (_tag w) <= prd_index (_tag w) prd + k < Z.of_nat (length (_ct w))).
Proof.
  apply (built_port_wf idle_env).
  apply built_op. apply built_op. apply built_new.
Defined.

(** ** What [receive] does to the registers and the slot state *)

(** Programs that store to the command list and the command tables only. *)
Section PreservationTables.

Variable E : Env.
Variable P : Port -> Prop.

Hypothesis P_cl : forall v w, P w -> P (set_cl v w).
Hypothesis P_ct : forall v w, P w -> P (set_ct v w).

Lemma tables_store_cl i k v : preserves P (store (ClPtr i) k v).
Proof. apply preserves_modify. intros w Hw. apply P_cl. exact Hw. Qed.

Lemma tables_store_ct i k v : preserves P (store (CtPtr i) k v).
Proof. apply preserves_modify. intros w Hw. apply P_ct. exact Hw. Qed.

#[local] Hint Resolve tables_store_cl tables_store_ct : preserves.
#[local] Hint Resolve preserves_ret preserves_get preserves_fail : preserves.

Lemma tables_addr2phys_cl ptr i : preserves P (addr2phys E ptr (ClPtr i)).
Proof. unfold addr2phys. preserve. Qed.

Lemma tables_addr2phys_ct ptr i : preserves P (addr2phys E ptr (CtPtr i)).
Proof. unfold addr2phys. preserve. Qed.

#[local] Hint Resolve tables_addr2phys_cl tables_addr2phys_ct : preserves.

Lemma tables_set_command command sector read count atapi pmp features :
  preserves P (set_command E command sector read count atapi pmp features).
Proof.
  unfold set_command. preserve.
Qed.

Lemma tables_add_dma ptr count : preserves P (add_dma E ptr count).
Proof. unfold add_dma. preserve. Qed.

Lemma tables_add_prd buffer count : preserves P (add_prd E buffer count).
Proof. unfold add_prd. preserve. Qed.

#[local] Hint Resolve tables_add_dma : preserves.

Lemma tables_dma_loop msg dma : preserves P (dma_loop E msg dma).
Proof. induction dma as [|d rest IH]; cbn [dma_loop]; preserve. Qed.

End PreservationTables.

Lemma tables_frame_refl w : tables_frame w w.
Proof. unfold tables_frame. repeat split; reflexivity. Qed.

Lemma tables_frame_set_command E command sector read count atapi pmp features w :
  tables_frame w
    (world_of (set_command E command sector read count atapi pmp features w)).
Proof.
  apply (tables_set_command E (tables_frame w)).
  - intros v w' Hw'. exact Hw'.
  - intros v w' Hw'. exact Hw'.
  - apply tables_frame_refl.
Qed.

Lemma tables_frame_dma_loop E msg dma w :
  tables_frame w (world_of (dma_loop E msg dma w)).
Proof.
  apply (tables_dma_loop E (tables_frame w)).
  - intros v w' Hw'. exact Hw'.
  - intros v w' Hw'. exact Hw'.
  - apply tables_frame_refl.
Qed.

Lemma tables_frame_trans w1 w2 w3 :
  tables_frame w1 w2 -> tables_frame w2 w3 -> tables_frame w1 w3.
Proof. unfold tables_frame. intros H1 H2. intuition congruence. Qed.

(** The fields of [command_started] by those of a state with the same
    frame. *)
Lemma command_started_frame w w1 usertag :
  tables_frame w w1 ->
  let w' := command_started w1 usertag in
  n_reads w' = n_reads w /\ n_clock w' = n_clock w /\ commits w' = commits w /\
  _disknr w' = _disknr w /\ _max_slots w' = _max_slots w /\
  _params w' = _params w /\
  mmio w' = mmio w ++ [(CI, bit32 (_tag w))] /\
  _inprogress w' = Z.lor (_inprogress w) (bit32 (_tag w)) /\
  _usertags w' = wr (_tag w) usertag (_usertags w) /\
  _tag w' = (_tag w + 1) mod _max_slots w.
Proof.
  intros (H1 & H2 & H3 & H4 & H5 & H6 & H7 & H8 & H9 & H10 & H11 & H12 & H13 & H14).
  unfold command_started.
  cbn [n_reads n_clock commits _disknr _max_slots _params mmio _inprogress
       _usertags _tag set_tag log_write set_usertags set_inprogress].
  rewrite H1, H2, H7, H8, H9, H10, H11, H12, H13, H14. repeat split; reflexivity.
Qed.

(** X2: whatever the request and however [receive] ends, it reads no
    register and no clock, sends no commit, and leaves the disk number, the
    slot count and the drive parameters alone.  Either it has issued a
    command, and then it returns true, has written exactly one register, CI,
    with the bit of the slot under the cursor, has set that bit in
    [_inprogress], has stored the usertag (0 for FLUSH_CACHE) for that slot
    and has moved the cursor to the next slot; or it has written no register
    and [_inprogress], [_usertags] and [_tag] are as before. *)
Theorem receive_effects (E : Env) (msg : MessageDisk) (w : Port) :
  let r := receive E msg w in
  let w' := world_of r in
  (n_reads w' = n_reads w /\ n_clock w' = n_clock w /\ commits w' = commits w /\
   _disknr w' = _disknr w /\ _max_slots w' = _max_slots w /\
   _params w' = _params w) /\
  ((r = Ok true w' /\
    mmio w' = mmio w ++ [(CI, bit32 (_tag w))] /\
    _inprogress w' = Z.lor (_inprogress w) (bit32 (_tag w)) /\
    _usertags w' = wr (_tag w) (usertag_of msg) (_usertags w) /\
    _tag w' = (_tag w + 1) mod _max_slots w)
   \/
   (mmio w' = mmio w /\ _inprogress w' = _inprogress w /\
    _usertags w' = _usertags w /\ _tag w' = _tag w)).
Proof.
  pose (Q := fun r : Res bool =>
    (n_reads (world_of r) = n_reads w /\ n_clock (world_of r) = n_clock w /\
     commits (world_of r) = commits w /\ _disknr (world_of r) = _disknr w /\
     _max_slots (world_of r) = _max_slots w /\ _params (world_of r) = _params w) /\
    ((r = Ok true (world_of r) /\
      mmio (world_of r) = mmio w ++ [(CI, bit32 (_tag w))] /\
      _inprogress (world_of r) = Z.lor (_inprogress w) (bit32 (_tag w)) /\
      _usertags (world_of r) = wr (_tag w) (usertag_of msg) (_usertags w) /\
      _tag (world_of r) = (_tag w + 1) mod _max_slots w)
     \/
     (mmio (world_of r) = mmio w /\ _inprogress (world_of r) = _inprogress w /\
      _usertags (world_of r) = _usertags w /\ _tag (world_of r) = _tag w))).
  change (Q (receive E msg w)).
  assert (Hsame : forall w1 (r : Res bool),
    tables_frame w w1 -> world_of r = w1 -> Q r).
  { intros w1 r Hf <-. unfold tables_frame in Hf. split; [|right]; tauto. }
  assert (Hstart : forall w1 usertag,
    tables_frame w w1 -> usertag = usertag_of msg ->
    Q ((do _ <- start_command usertag; ret true) w1)).
  { intros w1 usertag Hf ->. unfold bind. rewrite start_command_eq.
    pose proof (command_started_frame w w1 (usertag_of msg) Hf) as Hs.
    cbv zeta in Hs. unfold Q. cbn [ret world_of].
    split; [|left; split; [reflexivity|]]; tauto. }
  clearbody Q.
  unfold receive, bind at 1, get at 1.
  destruct (negb (msg_disknr msg =? _disknr w)).
  { apply (Hsame w); [apply tables_frame_refl|reflexivity]. }
  unfold bind at 1, get at 1.
  destruct (msg_type msg) eqn:Htype.
  - destruct (negb (Z.land (sum_length (msg_dma msg)) 511 =? 0)).
    { apply (Hsame w); [apply tables_frame_refl|reflexivity]. }
    unfold bind at 1.
    match goal with |- context [set_command ?a ?b ?c ?d ?e ?f ?g ?h w] =>
      pose proof (tables_frame_set_command a b c d e f g h w) as Hf1;
      destruct (set_command a b c d e f g h w) as [[] w1|f1 w1] end;
      cbn [world_of] in Hf1.
    2: { apply (Hsame w1); [exact Hf1|reflexivity]. }
    unfold bind at 1.
    pose proof (tables_frame_dma_loop E msg (msg_dma msg) w1) as Hf2.
    destruct (dma_loop E msg (msg_dma msg) w1) as [[] w2|f2 w2];
      cbn [world_of] in Hf2;
      pose proof (tables_frame_trans _ _ _ Hf1 Hf2) as Hf.
    + apply (Hsame w2); [exact Hf|reflexivity].
    + apply Hstart; [exact Hf|]. unfold usertag_of. rewrite Htype. reflexivity.
    + apply (Hsame w2); [exact Hf|reflexivity].
  - destruct (negb (Z.land (sum_length (msg_dma msg)) 511 =? 0)).
    { apply (Hsame w); [apply tables_frame_refl|reflexivity]. }
    unfold bind at 1.
    match goal with |- context [set_command ?a ?b ?c ?d ?e ?f ?g ?h w] =>
      pose proof (tables_frame_set_command a b c d e f g h w) as Hf1;
      destruct (set_command a b c d e f g h w) as [[] w1|f1 w1] end;
      cbn [world_of] in Hf1.
    2: { apply (Hsame w1); [exact Hf1|reflexivity]. }
    unfold bind at 1.
    pose proof (tables_frame_dma_loop E msg (msg_dma msg) w1) as Hf2.
    destruct (dma_loop E msg (msg_dma msg) w1) as [[] w2|f2 w2];
      cbn [world_of] in Hf2;
      pose proof (tables_frame_trans _ _ _ Hf1 Hf2) as Hf.
    + apply (Hsame w2); [exact Hf|reflexivity].
    + apply Hstart; [exact Hf|]. unfold usertag_of. rewrite Htype. reflexivity.
    + apply (Hsame w2); [exact Hf|reflexivity].
  - unfold bind at 1.
    match goal with |- context [set_command ?a ?b ?c ?d ?e ?f ?g ?h w] =>
      pose proof (tables_frame_set_command a b c d e f g h w) as Hf1;
      destruct (set_command a b c d e f g h w) as [[] w1|f1 w1] end;
      cbn [world_of] in Hf1.
    2: { apply (Hsame w1); [exact Hf1|reflexivity]. }
    apply Hstart; [exact Hf1|]. unfold usertag_of. rewrite Htype. reflexivity.
  - apply (Hsame w); [apply tables_frame_refl|reflexivity].
  - apply (Hsame w); [apply tables_frame_refl|reflexivity].
Qed.

(** ** The command [set_command] leaves in the slot *)

Lemma byte_bits b n : 0 <= b < 256 -> 8 <= n -> Z.testbit b n = false.
Proof.
  intros Hb Hn. apply (below_pow2_bits b 8); [lia|lia|change (2 ^ 8) with 256; lia|lia].
Qed.

(** The bits of a dword packed from four bytes. *)
Lemma pack_testbit b0 b1 b2 b3 n :
  0 <= b0 < 256 -> 0 <= b1 < 256 -> 0 <= b2 < 256 -> 0 <= b3 < 256 -> 0 <= n ->
  Z.testbit (Z.lor (Z.lor b0 (Z.shiftl b1 8))
                   (Z.lor (Z.shiftl b2 16) (Z.shiftl b3 24))) n
  = if n <? 8 then Z.testbit b0 n
    else if n <? 16 then Z.testbit b1 (n - 8)
    else if n <? 24 then Z.testbit b2 (n - 16)
    else Z.testbit b3 (n - 24).
Proof.
  intros H0 H1 H2 H3 Hn. rewrite !Z.lor_spec, !Z.shiftl_spec by lia.
  destruct (Z.ltb_spec n 8).
  { rewrite (Z.testbit_neg_r b1), (Z.testbit_neg_r b2), (Z.testbit_neg_r b3) by lia.
    rewrite !orb_false_r. reflexivity. }
  rewrite (byte_bits b0) by lia. cbn [orb].
  destruct (Z.ltb_spec n 16).
  { rewrite (Z.testbit_neg_r b2), (Z.testbit_neg_r b3) by lia.
    rewrite !orb_false_r. reflexivity. }
  rewrite (byte_bits b1) by lia. cbn [orb].
  destruct (Z.ltb_spec n 24).
  { rewrite (Z.testbit_neg_r b3) by lia. rewrite orb_false_r. reflexivity. }
  rewrite (byte_bits b2) by lia. reflexivity.
Qed.

(** Byte [j] of a dword packed from four bytes. *)
Lemma pack_byte b0 b1 b2 b3 j :
  0 <= b0 < 256 -> 0 <= b1 < 256 -> 0 <= b2 < 256 -> 0 <= b3 < 256 ->
  (j < 4)%nat ->
  Z.land (Z.shiftr (Z.lor (Z.lor b0 (Z.shiftl b1 8))
                          (Z.lor (Z.shiftl b2 16) (Z.shiftl b3 24)))
            (8 * Z.of_nat j)) 0xff
  = nth j [b0; b1; b2; b3] 0.
Proof.
  intros H0 H1 H2 H3 Hj. apply Z.bits_inj'. intros n Hn.
  rewrite Z.land_spec, Z.shiftr_spec by lia.
  rewrite pack_testbit by (try assumption; lia).
  change 0xff with (Z.ones 8). rewrite Z.testbit_ones_nonneg by lia.
  destruct (Z.ltb_spec n 8) as [Hlt|Hge].
  - rewrite andb_true_r.
    destruct j as [|[|[|[|j]]]]; [| | | |lia]; cbn [nth];
      repeat match goal with
             | |- context [?a <? ?b] => destruct (Z.ltb_spec a b); try lia
             end; f_equal; lia.
  - rewrite andb_false_r. symmetry.
    destruct j as [|[|[|[|j]]]]; [| | | |lia]; cbn [nth];
      apply byte_bits; assumption || lia.
Qed.

(** The dwords of a FIS, read back as bytes. *)
Lemma dwords_of_bytes_byte : forall (bs : list Z) (i : nat),
  Forall (fun b => 0 <= b < 256) bs ->
  (i < 4 * (length bs / 4))%nat ->
  Z.land (Z.shiftr (nth (i / 4) (dwords_of_bytes bs) 0) (8 * Z.of_nat (i mod 4))) 0xff
  = nth i bs 0.
Proof.
  fix IH 1. intros bs i Hbs Hi.
  destruct bs as [|b0 [|b1 [|b2 [|b3 rest]]]];
    try (cbn [length] in Hi; change (Nat.div _ 4) with 0%nat in Hi; lia).
  inversion Hbs as [|? ? Hb0 Hbs1]; subst. inversion Hbs1 as [|? ? Hb1 Hbs2]; subst.
  inversion Hbs2 as [|? ? Hb2 Hbs3]; subst. inversion Hbs3 as [|? ? Hb3 Hrest]; subst.
  cbn [dwords_of_bytes].
  destruct (Nat.lt_ge_cases i 4) as [Hlt|Hge].
  - rewrite (Nat.div_small i 4), (Nat.mod_small i 4) by lia. cbn [nth].
    rewrite pack_byte by assumption.
    destruct i as [|[|[|[|i]]]]; [reflexivity..|lia].
  - replace i with (4 + (i - 4))%nat by lia.
    replace ((4 + (i - 4)) / 4)%nat with (S ((i - 4) / 4))%nat.
    2: { replace (4 + (i - 4))%nat with ((i - 4) + 1 * 4)%nat by lia.
         rewrite Nat.div_add by lia. lia. }
    replace ((4 + (i - 4)) mod 4)%nat with ((i - 4) mod 4)%nat.
    2: { replace (4 + (i - 4))%nat with ((i - 4) + 1 * 4)%nat by lia.
         rewrite Nat.Div0.mod_add. reflexivity. }
    cbn [nth plus]. apply IH; [exact Hrest|].
    cbn [length] in Hi.
    replace (S (S (S (S (length rest))))) with (length rest + 1 * 4)%nat in Hi by lia.
    rewrite Nat.div_add in Hi by lia. lia.
Qed.

Lemma cfis_bytes command sector count pmp features :
  Forall (fun b => 0 <= b < 256) (cfis command sector count pmp features).
Proof. unfold cfis. cbn [map]. repeat constructor; apply wrap8_range. Qed.

(** The FIS [set_command] has copied into the command table, read back
    byte by byte. *)
Lemma command_set_fis_byte w phys header command sector count pmp features k :
  port_wf w -> (k < 20)%nat ->
  fis_byte (command_set w phys header (cfis command sector count pmp features))
    (_tag w) (Z.of_nat k)
  = nth k (cfis command sector count pmp features) 0.
Proof.
  intros Hwf Hk. unfold fis_byte, fis_dword, command_set. cbn [_ct set_ct set_cl].
  change 4 with (Z.of_nat 4). rewrite <- Nat2Z.inj_div, <- Nat2Z.inj_mod.
  assert (Hdiv : (k / 4 < 5)%nat) by (apply Nat.Div0.div_lt_upper_bound; lia).
  destruct (tag_ct_bound w Hwf 0) as [H0 _]; [lia|].
  pose proof (ct_length w Hwf) as Hlen. destruct Hwf as (Hms & Htag & _).
  rewrite rd_wr_list_in.
  - apply dwords_of_bytes_byte; [apply cfis_bytes|].
    cbn [cfis map length]. change (20 / 4)%nat with 5%nat. lia.
  - rewrite ct_index_eq. lia.
  - cbn [cfis map dwords_of_bytes length]. exact Hdiv.
  - rewrite ct_index_eq. cbn [cfis map dwords_of_bytes length]. lia.
Qed.

Lemma split_byte x n m :
  0 <= n -> 0 <= m ->
  (x / 2 ^ n) mod 2 ^ (8 + m)
  = (x / 2 ^ n) mod 2 ^ 8 + 2 ^ 8 * ((x / 2 ^ (n + 8)) mod 2 ^ m).
Proof.
  intros Hn Hm. rewrite (Z.pow_add_r 2 8 m) by lia.
  rewrite Z.rem_mul_r by lia. rewrite Z.div_div by lia.
  rewrite <- Z.pow_add_r by lia. reflexivity.
Qed.

(** Six bytes taken from a number, put together again. *)
Lemma bytes_48 s :
  wrap8 s + 2 ^ 8 * wrap8 (Z.shiftr s 8) + 2 ^ 16 * wrap8 (Z.shiftr s 16)
  + 2 ^ 24 * wrap8 (Z.shiftr s 24) + 2 ^ 32 * wrap8 (Z.shiftr s 32)
  + 2 ^ 40 * wrap8 (Z.shiftr s 40)
  = s mod 2 ^ 48.
Proof.
  unfold wrap8. rewrite !Z.shiftr_div_pow2 by lia.
  pose proof (split_byte s 0 40 ltac:(lia) ltac:(lia)) as H0.
  pose proof (split_byte s 8 32 ltac:(lia) ltac:(lia)) as H1.
  pose proof (split_byte s 16 24 ltac:(lia) ltac:(lia)) as H2.
  pose proof (split_byte s 24 16 ltac:(lia) ltac:(lia)) as H3.
  pose proof (split_byte s 32 8 ltac:(lia) ltac:(lia)) as H4.
  change (2 ^ 0) with 1 in H0. rewrite Z.div_1_r in H0.
  change (8 + 40) with 48 in H0. change (0 + 8) with 8 in H0.
  change (8 + 32) with 40 in H1. change (8 + 8) with 16 in *.
  change (8 + 24) with 32 in H2. change (16 + 8) with 24 in *.
  change (8 + 16) with 24 in *.
  change (24 + 8) with 32 in *. change (32 + 8) with 40 in *.
  rewrite H0, H1, H2, H3, H4. lia.
Qed.

Lemma bytes_16 s : wrap8 s + 2 ^ 8 * wrap8 (Z.shiftr s 8) = s mod 2 ^ 16.
Proof.
  unfold wrap8. rewrite Z.shiftr_div_pow2 by lia.
  pose proof (split_byte s 0 8 ltac:(lia) ltac:(lia)) as H0.
  change (2 ^ 0) with 1 in H0. rewrite Z.div_1_r in H0.
  change (8 + 8) with 16 in H0. change (0 + 8) with 8 in H0.
  rewrite H0. reflexivity.
Qed.

Lemma cl_header_bits read atapi pmp :
  Z.testbit (cl_header read atapi pmp) 6 = negb read /\
  Z.testbit (cl_header read atapi pmp) 5 = atapi /\
  Z.land (cl_header read atapi pmp) 0x1f = 5.
Proof.
  unfold cl_header. split; [|split].
  - rewrite !Z.lor_spec, Z.shiftl_spec_low by lia. destruct atapi, read; reflexivity.
  - rewrite !Z.lor_spec, Z.shiftl_spec_low by lia. destruct atapi, read; reflexivity.
  - apply Z.bits_inj'. intros n Hn.
    rewrite Z.land_spec, !Z.lor_spec.
    change 0x1f with (Z.ones 5). rewrite Z.testbit_ones_nonneg by lia.
    destruct (Z.ltb_spec n 5) as [Hlt|Hge].
    + rewrite Z.shiftl_spec_low by lia. rewrite andb_true_r, orb_false_r.
      assert (Hc : n = 0 \/ n = 1 \/ n = 2 \/ n = 3 \/ n = 4) by lia.
      destruct Hc as [-> | [-> | [-> | [-> | ->]]]]; destruct atapi, read; reflexivity.
    + rewrite andb_false_r. symmetry. change 5 with 5.
      apply (below_pow2_bits 5 3); lia.
Qed.

(** The header dwords 1 to 3 [set_command] leaves. *)
Lemma command_set_table w phys header fis :
  port_wf w ->
  let w' := command_set w phys header fis in
  rd (_cl w') (_tag w * CL_DWORDS + 1) = 0 /\
  rd (_cl w') (_tag w * CL_DWORDS + 2) = wrap32 phys /\
  rd (_cl w') (_tag w * CL_DWORDS + 3) = 0.
Proof.
  intros Hwf. cbv zeta. unfold command_set. cbn [_cl set_ct set_cl].
  destruct (tag_cl_bound w Hwf 0) as [H0 Hl0]; [lia|].
  destruct (tag_cl_bound w Hwf 1) as [H1 Hl1]; [lia|].
  destruct (tag_cl_bound w Hwf 2) as [H2 Hl2]; [lia|].
  destruct (tag_cl_bound w Hwf 3) as [H3 Hl3]; [lia|].
  replace (_tag w * CL_DWORDS + 2 + 1) with (_tag w * CL_DWORDS + 3) by lia.
  replace (_tag w * CL_DWORDS + 2 + 0) with (_tag w * CL_DWORDS + 2) by lia.
  split; [|split].
  - rewrite !rd_wr_ne by lia. apply rd_wr_eq; [lia|]. rewrite length_wr. exact Hl1.
  - rewrite rd_wr_ne by lia. apply rd_wr_eq; [lia|]. rewrite !length_wr. exact Hl2.
  - apply rd_wr_eq; [lia|]. rewrite !length_wr. exact Hl3.
Qed.

(** X3: the command [set_command] writes, as the device decodes it.  The
    command FIS starts with 0x27 (host to device), has the command-update
    bit and the port multiplier port, the command byte (the low 8 bits of
    [command]) and the device byte 0x40 (LBA mode); it carries the low 48
    bits of the sector number, the low 16 bits of the sector count and the
    low 16 bits of the features, so larger values are cut off; its bytes 14
    to 19 are 0.  The command header has the FIS length 5, the write bit set
    exactly when [read] is false, the ATAPI bit as given, no PRD yet, a byte
    count of 0 and the physical address of the command table of the slot. *)
Theorem set_command_fis (E : Env) (command sector : Z) (read : bool) (count : Z)
    (atapi : bool) (pmp features : Z) (w : Port) (phys : Z) :
  port_wf w ->
  translate E w (ct_slot_addr w) = Some phys ->
  let tag := _tag w in
  exists w',
    set_command E command sector read count atapi pmp features w = Ok tt w' /\
    fis_byte w' tag 0 = 0x27 /\
    fis_byte w' tag 1 = wrap8 (Z.lor 0x80 (Z.land pmp 0xf)) /\
    fis_byte w' tag 2 = command mod 2 ^ 8 /\
    fis_byte w' tag 7 = 0x40 /\
    fis_lba w' tag = sector mod 2 ^ 48 /\
    fis_count w' tag = count mod 2 ^ 16 /\
    fis_features w' tag = features mod 2 ^ 16 /\
    (forall i, 14 <= i < 20 -> fis_byte w' tag i = 0) /\
    Z.land (slot_header w' tag) 0x1f = 5 /\
    Z.testbit (slot_header w' tag) 6 = negb read /\
    Z.testbit (slot_header w' tag) 5 = atapi /\
    prd_count w' tag = 0 /\
    rd (_cl w') (tag * CL_DWORDS + 1) = 0 /\
    rd (_cl w') (tag * CL_DWORDS + 2) = wrap32 phys /\
    rd (_cl w') (tag * CL_DWORDS + 3) = 0.
Proof.
  intros Hwf Htr tag. rewrite set_command_eq. fold (ct_slot_addr w). rewrite Htr.
  eexists. split; [reflexivity|].
  assert (Hb : forall i, 0 <= i < 20 ->
    fis_byte (command_set w phys (cl_header read atapi pmp)
                (cfis command sector count pmp features)) tag i
    = nth (Z.to_nat i) (cfis command sector count pmp features) 0).
  { intros i Hi. rewrite <- (Z2Nat.id i) at 1 by lia.
    apply command_set_fis_byte; [assumption|lia]. }
  pose proof (command_set_header w Hwf phys (cl_header read atapi pmp) command sector
                count pmp features (cl_header_range read atapi pmp)) as [Hh Hp].
  fold tag in Hh, Hp.
  pose proof (cl_header_bits read atapi pmp) as (Hb6 & Hb5 & Hlen).
  pose proof (command_set_table w phys (cl_header read atapi pmp)
                (cfis command sector count pmp features) Hwf) as Htab.
  cbv zeta in Htab. fold tag in Htab.
  split; [exact (Hb 0 ltac:(lia))|].
  split; [exact (Hb 1 ltac:(lia))|].
  split; [exact (Hb 2 ltac:(lia))|].
  split; [exact (Hb 7 ltac:(lia))|].
  split.
  { unfold fis_lba. rewrite !Hb by lia. apply bytes_48. }
  split.
  { unfold fis_count. rewrite !Hb by lia. apply bytes_16. }
  split.
  { unfold fis_features. rewrite !Hb by lia. apply bytes_16. }
  split.
  { intros i Hi. rewrite Hb by lia.
    assert (Hc : i = 14 \/ i = 15 \/ i = 16 \/ i = 17 \/ i = 18 \/ i = 19) by lia.
    destruct Hc as [-> | [-> | [-> | [-> | [-> | ->]]]]]; reflexivity. }
  rewrite Hh. repeat split; try assumption; apply Htab.
Qed.

Lemma set_command_fis_witness :
  exists w',
    set_command idle_env 0x25 0x123456789abcdef true 0x12345 false 0 0 ready_port
    = Ok tt w' /\
    fis_lba w' (_tag ready_port) = 0x456789abcdef /\
    fis_count w' (_tag ready_port) = 0x2345.
Proof.
  destruct (set_command_fis idle_env 0x25 0x123456789abcdef true 0x12345 false 0 0
              ready_port 0x3480 ready_port_wf)
    as (w' & Hrun & _ & _ & _ & _ & Hlba & Hcount & _).
  - vm_compute. reflexivity.
  - exists w'. split; [exact Hrun|]. split; [exact Hlba|exact Hcount].
Defined.

(** ** A request [receive] accepts *)




(** ** What [irq] completes *)

Lemma tables_frame_add_prd E buffer count w :
  tables_frame w (world_of (add_prd E buffer count w)).
Proof.
  apply (tables_add_prd E (tables_frame w)).
  - intros v w' Hw'. exact Hw'.
  - intros v w' Hw'. exact Hw'.
  - apply tables_frame_refl.
Qed.

(** [_inprogress] is an [unsigned]. *)
Lemma built_inprogress_range E w : built E w -> 0 <= _inprogress w < 2 ^ 32.
Proof.
  induction 1 as [cap disknr dmar h|w fuel op _ IH].
  - apply wrap32_range.
  - revert w IH.
    apply (keeps_run_op E (fun w => 0 <= _inprogress w < 2 ^ 32));
      try (intros; assumption).
    + intros usertag w Hw. unfold command_started.
      cbn [_inprogress set_tag log_write set_usertags set_inprogress].
      apply lor_below; [lia|exact Hw|apply wrap32_range].
    + intros tag w Hw. cbn [_inprogress set_inprogress].
      apply land_nonneg_range. exact Hw.
    + intros w _. cbn [_inprogress set_inprogress]. lia.
    + intros. apply tables_set_command; intros; assumption.
    + intros. apply tables_add_dma; intros; assumption.
    + intros. apply tables_add_prd; intros; assumption.
Qed.

Lemma ldiff_done ip ci :
  0 <= ip < 2 ^ 32 ->
  Z.ldiff ip (Z.land ip (not32 ci)) = Z.land ip ci.
Proof.
  intros Hip. apply Z.bits_inj'. intros n Hn.
  rewrite Z.ldiff_spec, !Z.land_spec, testbit_not32 by lia.
  destruct (Z.ltb_spec n 32) as [Hlt|Hge].
  - destruct (Z.testbit ip n), (Z.testbit ci n); reflexivity.
  - assert (Z.testbit ip n = false) as ->
      by (apply (below_pow2_bits ip 32); lia).
    reflexivity.
Qed.

(** X5: on a port that has been constructed, whatever was called on it
    since, [irq] reads IS, writes the value back, reads CI and sends one
    commit for every slot that is in progress and whose CI bit reads clear,
    and for no other slot, lowest slot first, each with the disk number and
    the usertag stored for the slot; this holds also when it then finds an
    error in TFD and reinitialises the port.  When TFD shows no error [irq]
    returns with exactly the slots whose CI bit was still set left in
    progress, the usertags of the completed slots overwritten with
    0xFFFFFFFF, the others kept, and no register written but IS. *)
Theorem irq_completes (E : Env) (fuel : nat) (w : Port) :
  built E w ->
  let status := wrap32 (hw_read E (n_reads w) IS) in
  let ci := wrap32 (hw_read E (S (n_reads w)) CI) in
  exists tags,
    commits (world_of (irq E fuel w)) = commits w ++ map (commit_of w) tags /\
    StronglySorted Z.lt tags /\
    (forall t, In t tags <->
       0 <= t < 32 /\ Z.testbit (_inprogress w) t = true /\ Z.testbit ci t = false) /\
    (Z.land (wrap32 (hw_read E (S (S (n_reads w))) TFD)) 1 = 0 ->
     exists w',
       irq E fuel w = Ok tt w' /\
       _inprogress w' = Z.land (_inprogress w) ci /\
       (forall t, In t tags -> rd (_usertags w') t = 0xFFFFFFFF) /\
       (forall t, 0 <= t -> ~ In t tags -> rd (_usertags w') t = rd (_usertags w) t) /\
       mmio w' = mmio w ++ [(IS, status)] /\
       _tag w' = _tag w).
Proof.
  intros Hb status ci.
  pose proof (built_inprogress_range E w Hb) as Hip.
  destruct (built_wf E w Hb) as (_ & _ & _ & _ & Hlen & _).
  set (done := Z.land (_inprogress w) (not32 ci)).
  assert (Hdone : 0 <= done < 2 ^ 32) by (apply land_nonneg_range; exact Hip).
  exists (set_bits done). split; [apply irq_commits; assumption|].
  split; [apply set_bits_sorted|]. split.
  - intros t. rewrite in_set_bits by lia. unfold done.
    rewrite Z.land_spec. split.
    + intros [Ht Hbit]. rewrite testbit_not32 in Hbit by lia.
      apply andb_true_iff in Hbit as [Hipt Hci].
      apply andb_true_iff in Hci as [Hlt Hci].
      apply Z.ltb_lt in Hlt. apply negb_true_iff in Hci. repeat split; try assumption; lia.
    + intros ([Ht0 Ht] & Hipt & Hci). split; [exact Ht0|].
      rewrite testbit_not32 by lia. rewrite Hipt, Hci.
      apply Z.ltb_lt in Ht. rewrite Ht. reflexivity.
  - intros Htfd.
    destruct (irq_no_error E fuel w Hlen Hip Htfd)
      as (w' & Hrun & Hipw & Hset & Hkeep & Hmm & Htag & _).
    exists w'. split; [exact Hrun|]. split.
    { rewrite Hipw. apply ldiff_done. exact Hip. }
    repeat split; assumption.
Qed.

Lemma irq_completes_witness :
  let w := run_op idle_env 1 (OpReceive read_4k)
             (run_op idle_env 1 (OpInit 0x5000)
                (HostAhciPort_new 0 (max_slots_of_cap 0x100) true zero_heap)) in
  exists tags,
    commits (world_of (irq idle_env 1 w)) = commits w ++ map (commit_of w) tags /\
    (forall t, In t tags <->
       0 <= t < 32 /\ Z.testbit (_inprogress w) t = true /\
       Z.testbit (wrap32 (hw_read idle_env (S (n_reads w)) CI)) t = false).
Proof.
  intros w.
  destruct (irq_completes idle_env 1 w) as (tags & Hc & _ & Hin & _).
  - apply built_op. apply built_op. apply built_new.
  - exists tags. split; [exact Hc|exact Hin].
Defined.

(** ** What [init] does to the requests in flight *)

Lemma land_not32_self x : Z.land x (not32 x) = 0.
Proof.
  apply Z.bits_inj'. intros n Hn.
  rewrite Z.land_spec, testbit_not32, Z.bits_0 by lia.
  destruct (Z.testbit x n), (n <? 32); reflexivity.
Qed.

(** The state [identify_finish] ends in differs from the one it starts in by
    the bit it clears and the parameters. *)
Lemma identify_finish_inprogress E tag w :
  let w' := world_of (identify_finish E tag w) in
  _inprogress w' = Z.land (_inprogress w) (not32 (bit32 tag)) /\
  commits w' = commits w /\ _tag w' = _tag w /\ _usertags w' = _usertags w.
Proof.
  cbv zeta. unfold identify_finish, bind, clear_inprogress, modify, get.
  destruct (_ =? 51255); [|cbn; repeat split; reflexivity].
  destruct (update_params E _ false) as [res params]. cbn. repeat split; reflexivity.
Qed.

(** X6: when the bring-up of [init] has gone through, every request that
    was in flight is forgotten without a commit: on return [_inprogress] is
    0, or holds the one bit of the slot IDENTIFY DEVICE was issued in (when
    the wait for it timed out or failed), and no commit has been sent.  When
    [init] returns 0, nothing is in progress. *)
Theorem init_discards_inprogress (E : Env) (fuel : nat) (buffer : Z) (w w1 : Port) :
  init_port E fuel w = Ok 0 w1 ->
  let r := init E fuel buffer w in
  let w' := world_of r in
  commits w' = commits w /\
  (_inprogress w' = 0 \/ _inprogress w' = bit32 (_tag w)) /\
  (r = Ok 0 w' -> _inprogress w' = 0).
Proof.
  intros Hinit.
  pose proof (init_port_reset E fuel w w1 Hinit) as Hip1. cbv beta in Hip1.
  pose proof (init_port_frame E fuel w) as Hfr. rewrite Hinit in Hfr.
  cbn [world_of] in Hfr.
  destruct Hfr as (_ & _ & _ & _ & _ & _ & _ & _ & Htag1 & _ & _ & Hcm1).
  pose (Q := fun r : Res Z =>
    commits (world_of r) = commits w /\
    (_inprogress (world_of r) = 0 \/ _inprogress (world_of r) = bit32 (_tag w)) /\
    (r = Ok 0 (world_of r) -> _inprogress (world_of r) = 0)).
  change (Q (init E fuel buffer w)).
  assert (Hidle : forall f w2, tables_frame w1 w2 -> Q (Fail f w2)).
  { intros f w2 Hf. unfold tables_frame in Hf. unfold Q. cbn [world_of].
    split; [intuition congruence|]. split; [left; intuition congruence|].
    discriminate. }
  unfold init, check2, bind at 1. rewrite Hinit. cbn [Z.eqb].
  unfold identify_drive. unfold bind at 1.
  match goal with |- context [set_command ?a ?b ?c ?d ?e ?f ?g ?h w1] =>
    pose proof (tables_frame_set_command a b c d e f g h w1) as Hf1;
    destruct (set_command a b c d e f g h w1) as [[] w2|f1 w2] end;
    cbn [world_of] in Hf1; [|apply Hidle; exact Hf1].
  unfold bind at 1.
  pose proof (tables_frame_add_prd E buffer 512 w2) as Hf2.
  destruct (add_prd E buffer 512 w2) as [b w3|f2 w3]; cbn [world_of] in Hf2;
    pose proof (tables_frame_trans _ _ _ Hf1 Hf2) as Hf;
    [|apply Hidle; exact Hf].
  unfold bind at 1. rewrite start_command_eq.
  destruct (command_started_frame w1 w3 0 Hf)
    as (_ & _ & Hcm4 & _ & _ & _ & _ & Hip4 & _ & _).
  set (w4 := command_started w3 0) in *.
  assert (Ht3 : _tag w3 = _tag w) by (unfold tables_frame in Hf; intuition congruence).
  rewrite Ht3. rewrite Hip1, Z.lor_0_l, Htag1 in Hip4. rewrite Hcm1 in Hcm4.
  unfold check2, bind at 1.
  pose proof (preserves_wait_timeout E
                (fun w' => _inprogress w' = bit32 (_tag w) /\ commits w' = commits w)
                ltac:(intros w0 Hw0; exact Hw0) ltac:(intros w0 Hw0; exact Hw0)
                fuel CI (bit32 (_tag w)) 0 w4 (conj Hip4 Hcm4)) as Hwait.
  destruct (wait_timeout E fuel CI (bit32 (_tag w)) 0 w4) as [res w5|f5 w5];
    cbn [world_of] in Hwait; destruct Hwait as [Hip5 Hcm5].
  2: { unfold Q. cbn [world_of]. split; [exact Hcm5|]. split; [right; exact Hip5|].
       discriminate. }
  destruct (Z.eqb_spec res 0) as [->|Hne].
  - destruct (identify_finish_inprogress E (_tag w) w5) as (Hip6 & Hcm6 & _).
    rewrite Hip5, land_not32_self in Hip6. rewrite Hcm5 in Hcm6.
    unfold Q. split; [exact Hcm6|]. split; [left; exact Hip6|].
    intros _. exact Hip6.
  - unfold Q, ret. cbn [world_of]. split; [exact Hcm5|]. split; [right; exact Hip5|].
    intros Heq. injection Heq as Heq. contradiction.
Qed.

Lemma init_discards_inprogress_witness :
  let w := world_of (receive idle_env read_4k ready_port) in
  _inprogress w = 2 /\
  _inprogress (world_of (init idle_env 1 0x5000 w)) = 0 /\
  commits (world_of (init idle_env 1 0x5000 w)) = commits w.
Proof.
  intros w. split; [vm_compute; reflexivity|].
  destruct (init_discards_inprogress idle_env 1 0x5000 w
              (world_of (init_port idle_env 1 w))) as (Hcm & _ & Hzero).
  - vm_compute. reflexivity.
  - split; [|exact Hcm]. apply Hzero. vm_compute. reflexivity.
Defined.

(** ** IDENTIFY DEVICE that does not complete *)

Lemma identify_drive_eq E fuel buffer w phys_ct phys_buf :
  port_wf w ->
  translate E w (ct_slot_addr w) = Some phys_ct ->
  translate E w buffer = Some phys_buf ->
  identify_drive E fuel buffer w
  = check2 (wait_timeout E fuel CI (bit32 (_tag w)) 0) (identify_finish E (_tag w))
      (identify_issued w phys_ct phys_buf).
Proof.
  intros Hwf Hct Hbuf. unfold identify_issued.
  set (wc := command_set w phys_ct (cl_header true false 0) (cfis 0xec 0 0 0 0)).
  destruct (command_set_header w Hwf phys_ct (cl_header true false 0) 0xec 0 0 0 0
              (cl_header_range true false 0)) as [_ Hprd0]. fold wc in Hprd0.
  unfold identify_drive. unfold bind at 1. rewrite set_command_eq.
  fold (ct_slot_addr w). rewrite Hct. fold wc.
  unfold bind at 1. rewrite add_prd_eq by lia.
  change (_tag wc) with (_tag w). rewrite Hprd0.
  change (Z.odd 512 || (2 ^ 22 <=? 512)) with false. cbv iota.
  change (MAX_PRD_COUNT <=? 0) with false. cbv iota.
  rewrite (translate_frame E w wc) by reflexivity. rewrite Hbuf.
  unfold bind at 1. rewrite start_command_eq. reflexivity.
Qed.

(** While the clock goes on, a wait returns, and its result is read off the
    register read made after the polling. *)
Lemma wait_timeout_run E fuel reg mask value w :
  live E fuel ->
  exists n c,
    wait_timeout E fuel reg mask value w
    = Ok (if reg_sat E reg mask value (n_reads w + S n) then 0 else 1)
         (advance (S (S n)) c w).
Proof.
  intros Hlive. unfold wait_timeout. unfold bind at 1. unfold clock at 1.
  fold (clock_at E (n_clock w)).
  destruct (wait_loop_spec E reg mask value
              (wrap64 (clock_at E (n_clock w) + TIMEOUT)) fuel (count_clock w))
    as (n & _ & _ & Hend); [exact (Hlive (n_clock w))|].
  change (count_clock w) with (advance 0 1 w) in *.
  rewrite !advance_advance in Hend.
  assert (Hfinal : forall c,
    (do r <- reg_read E reg; ret (if Z.land r mask =? value then 0 else 1))
      (advance (S n + 0) c w)
    = Ok (if reg_sat E reg mask value (n_reads w + S n) then 0 else 1)
         (advance (S (S n)) c w)).
  { intros c. unfold bind, reg_read, ret, reg_sat. cbn [n_reads advance].
    replace (S n + 0 + n_reads w)%nat with (n_reads w + S n)%nat by lia.
    f_equal. unfold advance, count_read. cbn. f_equal. lia. }
  exists n.
  destruct Hend as [(_ & Hloop) | (_ & _ & Hloop)];
    unfold bind at 1; rewrite Hloop; eexists; apply Hfinal.
Qed.


Lemma land_bit32_set r tag :
  0 <= tag < 32 -> Z.testbit r tag = true -> (Z.land r (bit32 tag) =? 0) = false.
Proof.
  intros Ht Hr. apply Z.eqb_neq. intros H0.
  assert (Hbit : Z.testbit (Z.land r (bit32 tag)) tag = true).
  { rewrite Z.land_spec, Hr, testbit_bit32 by lia.
    rewrite Z.eqb_refl. assert ((tag <? 32) = true) as -> by (apply Z.ltb_lt; lia).
    reflexivity. }
  rewrite H0, Z.bits_0 in Hbit. discriminate.
Qed.

(** X7: when the device never clears the CI bit of the slot, IDENTIFY
    DEVICE times out: [identify_drive] returns 1 without looking at the
    buffer, the slot stays marked in progress with usertag 0, the cursor has
    moved on and no commit has been sent.  The next [irq] that reads that CI
    bit clear then sends a commit with usertag 0 for this disk, for a request
    no client has made. *)
Theorem identify_drive_timeout (E : Env) (fuel : nat) (buffer : Z) (w : Port)
    (phys_ct phys_buf : Z) :
  port_wf w ->
  0 <= _inprogress w < 2 ^ 32 ->
  translate E w (ct_slot_addr w) = Some phys_ct ->
  translate E w buffer = Some phys_buf ->
  live E fuel ->
  (forall i, Z.testbit (wrap32 (hw_read E i CI)) (_tag w) = true) ->
  exists w',
    identify_drive E fuel buffer w = Ok 1 w' /\
    Z.testbit (_inprogress w') (_tag w) = true /\
    rd (_usertags w') (_tag w) = 0 /\
    _tag w' = (_tag w + 1) mod _max_slots w /\
    _params w' = _params w /\
    commits w' = commits w /\
    (forall E' fuel',
       Z.testbit (wrap32 (hw_read E' (S (n_reads w')) CI)) (_tag w) = false ->
       In {| commit_disknr := _disknr w; commit_usertag := 0; commit_status := DISK_OK |}
          (commits (world_of (irq E' fuel' w')))).
Proof.
  intros Hwf Hip Hct Hbuf Hlive Hbusy.
  assert (Htag : 0 <= _tag w < 32) by (destruct Hwf as (? & ? & _); lia).
  assert (Hut : length (_usertags w) = 32%nat) by (destruct Hwf as (_ & _ & _ & _ & H & _); exact H).
  rewrite (identify_drive_eq E fuel buffer w phys_ct phys_buf) by assumption.
  set (w3 := identify_issued w phys_ct phys_buf).
  destruct (wait_timeout_run E fuel CI (bit32 (_tag w)) 0 w3 Hlive) as (n & c & Hwait).
  unfold reg_sat in Hwait. rewrite land_bit32_set in Hwait by auto.
  unfold check2, bind. rewrite Hwait. cbn [Z.eqb ret].
  exists (advance (S (S n)) c w3). split; [reflexivity|].
  assert (Hbit : Z.testbit (_inprogress (advance (S (S n)) c w3)) (_tag w) = true).
  { cbn [_inprogress advance w3 identify_issued command_started set_tag log_write
         set_usertags set_inprogress prd_appended command_set set_ct set_cl _tag].
    rewrite Z.lor_spec, testbit_bit32 by lia.
    assert ((_tag w <? 32) = true) as -> by (apply Z.ltb_lt; lia).
    rewrite Z.eqb_refl. apply orb_true_r. }
  assert (Hus : rd (_usertags (advance (S (S n)) c w3)) (_tag w) = 0).
  { cbn [_usertags advance w3 identify_issued command_started set_tag log_write
         set_usertags set_inprogress prd_appended command_set set_ct set_cl _tag].
    apply rd_wr_eq; lia. }
  split; [exact Hbit|]. split; [exact Hus|].
  split; [reflexivity|]. split; [reflexivity|]. split; [reflexivity|].
  intros E' fuel' Hclear.
  set (w' := advance (S (S n)) c w3) in *.
  assert (Hut' : length (_usertags w') = 32%nat).
  { cbn [_usertags advance w' w3 identify_issued command_started set_tag log_write
         set_usertags set_inprogress prd_appended command_set set_ct set_cl _tag].
    rewrite length_wr. exact Hut. }
  assert (Hip' : 0 <= _inprogress w' < 2 ^ 32).
  { cbn [_inprogress advance w' w3 identify_issued command_started set_tag log_write
         set_usertags set_inprogress prd_appended command_set set_ct set_cl _tag].
    apply lor_below; [lia|exact Hip|apply wrap32_range]. }
  rewrite (irq_commits E' fuel' w' Hut' Hip'). apply in_or_app. right.
  change {| commit_disknr := _disknr w; commit_usertag := 0; commit_status := DISK_OK |}
    with {| commit_disknr := _disknr w'; commit_usertag := 0; commit_status := DISK_OK |}.
  rewrite <- Hus. change (In (commit_of w' (_tag w))
    (map (commit_of w')
       (set_bits (Z.land (_inprogress w')
                    (not32 (wrap32 (hw_read E' (S (n_reads w')) CI))))))).
  apply in_map. apply in_set_bits.
  - apply Z.land_nonneg. left. lia.
  - split; [lia|]. rewrite Z.land_spec, Hbit, testbit_not32, Hclear by lia.
    assert ((_tag w <? 32) = true) as -> by (apply Z.ltb_lt; lia). reflexivity.
Qed.

Lemma busy_env_live : live busy_env 1.
Proof.
  intros c. exists 0%nat. split; [lia|].
  unfold clock_at, TIMEOUT. cbn [hw_clock busy_env]. unfold wrap64.
  rewrite Zplus_mod_idemp_l.
  replace (200 * Z.of_nat (S c + 0)) with (200 * Z.of_nat c + 200) by lia. lia.
Qed.

Lemma identify_drive_timeout_witness :
  exists w',
    identify_drive busy_env 1 0x5000 ready_port = Ok 1 w' /\
    Z.testbit (_inprogress w') (_tag ready_port) = true /\
    In {| commit_disknr := _disknr ready_port; commit_usertag := 0;
          commit_status := DISK_OK |}
       (commits (world_of (irq idle_env 1 w'))).
Proof.
  destruct (identify_drive_timeout busy_env 1 0x5000 ready_port 0x3480 0x5000
              ready_port_wf)
    as (w' & Hrun & Hbit & _ & _ & _ & _ & Hirq).
  - vm_compute. split; [discriminate|reflexivity].
  - vm_compute. reflexivity.
  - vm_compute. reflexivity.
  - exact busy_env_live.
  - intros i. vm_compute. reflexivity.
  - exists w'. split; [exact Hrun|]. split; [exact Hbit|].
    apply Hirq. vm_compute. reflexivity.
Defined.

(** ** The slots [start_command] hands out *)

Lemma mod_shift_ne a d m : 0 < d < m -> (a + d) mod m <> a mod m.
Proof.
  intros Hd Heq.
  assert (H0 : ((a + d) - a) mod m = 0).
  { rewrite Zminus_mod, Heq, Z.sub_diag. apply Z.mod_0_l. lia. }
  replace (a + d - a) with d in H0 by lia.
  rewrite Z.mod_small in H0 by lia. lia.
Qed.

Lemma started_all_snoc us u w :
  started_all (us ++ [u]) w = command_started (started_all us w) u.
Proof. unfold started_all. rewrite fold_left_app. reflexivity. Qed.

Lemma started_all_facts us : forall w,
  port_wf w ->
  let w' := started_all us w in
  port_wf w' /\ _max_slots w' = _max_slots w /\
  _tag w' = slot_of w (length us) /\
  mmio w' = mmio w ++ map (fun k => (CI, bit32 (slot_of w k))) (seq 0 (length us)) /\
  (forall k u, us !! k = Some u ->
     (Z.of_nat (length us) <= Z.of_nat k + _max_slots w) ->
     rd (_usertags w') (slot_of w k) = u) /\
  (forall k, (k < length us)%nat ->
     Z.testbit (_inprogress w') (slot_of w k) = true).
Proof.
  induction us as [|u us IH] using rev_ind; intros w Hwf.
  - cbv zeta. unfold started_all, slot_of. cbn [fold_left length seq map].
    split; [exact Hwf|]. split; [reflexivity|]. split.
    { rewrite Z.add_0_r. symmetry. apply Z.mod_small.
      destruct Hwf as (_ & Ht & _). lia. }
    split; [rewrite app_nil_r; reflexivity|]. split.
    + intros k u Hk. rewrite lookup_nil in Hk. discriminate.
    + intros k Hk. cbn in Hk. lia.
  - cbv zeta. rewrite started_all_snoc.
    destruct (IH w Hwf) as (Hwf1 & Hms1 & Htag1 & Hmm1 & Hut1 & Hip1).
    set (w1 := started_all us w) in *.
    assert (Hms : 1 <= _max_slots w <= 32) by (destruct Hwf as (? & _); lia).
    assert (Hslot : forall k, 0 <= slot_of w k < _max_slots w)
      by (intros k; unfold slot_of; apply Z.mod_pos_bound; lia).
    assert (Hlen1 : length (_usertags w1) = 32%nat)
      by (destruct Hwf1 as (_ & _ & _ & _ & H & _); exact H).
    rewrite length_app. cbn [length]. rewrite Nat.add_1_r.
    split; [apply port_wf_started; exact Hwf1|].
    split; [exact Hms1|]. split.
    { unfold command_started. cbn [_tag set_tag]. rewrite Htag1, Hms1.
      unfold slot_of. rewrite Nat2Z.inj_succ.
      rewrite Zplus_mod_idemp_l. f_equal. lia. }
    split.
    { unfold command_started. cbn [mmio set_tag log_write set_usertags set_inprogress _tag].
      rewrite Hmm1, Htag1. rewrite seq_S, map_app, app_assoc. reflexivity. }
    split.
    + intros k v Hk Hroom. rewrite Nat2Z.inj_succ in Hroom.
      unfold command_started.
      cbn [_usertags set_tag log_write set_usertags set_inprogress _tag].
      rewrite Htag1.
      destruct (Nat.eq_dec k (length us)) as [->|Hne].
      * rewrite list_lookup_middle in Hk by reflexivity. injection Hk as <-.
        pose proof (Hslot (length us)). apply rd_wr_eq; lia.
      * assert (Hklt : (k < length us)%nat).
        { apply lookup_lt_Some in Hk. rewrite length_app in Hk. cbn in Hk. lia. }
        rewrite lookup_app_l in Hk by exact Hklt.
        pose proof (Hslot k). pose proof (Hslot (length us)).
        rewrite rd_wr_ne; [apply Hut1; [exact Hk|lia]|lia|lia|].
        unfold slot_of.
        replace (_tag w + Z.of_nat (length us))
          with (_tag w + Z.of_nat k + (Z.of_nat (length us) - Z.of_nat k)) by lia.
        apply mod_shift_ne. lia.
    + intros k Hk. unfold command_started.
      cbn [_inprogress set_tag log_write set_usertags set_inprogress _tag].
      rewrite Htag1, Z.lor_spec.
      destruct (Nat.eq_dec k (length us)) as [->|Hne].
      * pose proof (Hslot (length us)).
        rewrite testbit_bit32 by lia. rewrite Z.eqb_refl.
        assert ((slot_of w (length us) <? 32) = true) as -> by (apply Z.ltb_lt; lia).
        apply orb_true_r.
      * rewrite Hip1 by lia. reflexivity.
Qed.

(** X8: [start_command] hands out the slots round robin and never looks at
    [_inprogress].  After calls for the usertags [us] in a row, the [k]-th
    call has used slot [(_tag + k) mod _max_slots] and written its bit to CI,
    in this order, the cursor is at [(_tag + |us|) mod _max_slots], and the
    slots used are marked in progress.  A slot still holds the usertag of the
    [k]-th call only while fewer than [_max_slots] calls have followed it:
    the call [_max_slots] later uses the same slot again and overwrites the
    usertag, though the earlier command has not been completed. *)
Theorem start_command_round_robin (us : list Z) (w : Port) :
  port_wf w ->
  let w' := started_all us w in
  let n := _max_slots w in
  _tag w' = slot_of w (length us) /\
  mmio w' = mmio w ++ map (fun k => (CI, bit32 (slot_of w k))) (seq 0 (length us)) /\
  (forall k, (k < length us)%nat ->
     Z.testbit (_inprogress w') (slot_of w k) = true) /\
  (forall k u, us !! k = Some u -> Z.of_nat (length us) <= Z.of_nat k + n ->
     rd (_usertags w') (slot_of w k) = u) /\
  (forall k u', us !! (k + Z.to_nat n)%nat = Some u' ->
     Z.of_nat (length us) <= Z.of_nat k + 2 * n ->
     slot_of w (k + Z.to_nat n) = slot_of w k /\
     rd (_usertags w') (slot_of w k) = u').
Proof.
  intros Hwf. cbv zeta.
  destruct (started_all_facts us w Hwf) as (_ & _ & Htag & Hmm & Hut & Hip).
  assert (Hms : 1 <= _max_slots w <= 32) by (destruct Hwf as (? & _); lia).
  split; [exact Htag|]. split; [exact Hmm|]. split; [exact Hip|].
  split; [exact Hut|].
  intros k u' Hk Hroom.
  assert (Hsame : slot_of w (k + Z.to_nat (_max_slots w)) = slot_of w k).
  { unfold slot_of. rewrite Nat2Z.inj_add, Z2Nat.id by lia.
    replace (_tag w + (Z.of_nat k + _max_slots w))
      with (_tag w + Z.of_nat k + 1 * _max_slots w) by lia.
    apply Z_mod_plus_full. }
  split; [exact Hsame|]. rewrite <- Hsame. apply Hut; [exact Hk|].
  rewrite Nat2Z.inj_add, Z2Nat.id by lia. lia.
Qed.

Lemma start_command_round_robin_witness :
  let w' := started_all [11; 22; 33] ready_port in
  _tag w' = slot_of ready_port 3 /\
  slot_of ready_port 2 = slot_of ready_port 0 /\
  rd (_usertags w') (slot_of ready_port 0) = 33.
Proof.
  cbv zeta.
  destruct (start_command_round_robin [11; 22; 33] ready_port ready_port_wf)
    as (Htag & _ & _ & _ & Hover).
  split; [exact Htag|].
  apply (Hover 0%nat 33).
  - vm_compute. reflexivity.
  - vm_compute. discriminate.
Defined.

(** ** The register writes of the bring-up *)

Lemma bind_ok {A B} (m : M A) (k : A -> M B) w b w' :
  bind m k w = Ok b w' -> exists a w1, m w = Ok a w1 /\ k a w1 = Ok b w'.
Proof.
  unfold bind. destruct (m w) as [a w1|f w1]; [|discriminate].
  intros H. exists a, w1. split; [reflexivity|exact H].
Qed.

Lemma check2_zero (m k : M Z) w w' :
  check2 m k w = Ok 0 w' -> exists w1, m w = Ok 0 w1 /\ k w1 = Ok 0 w'.
Proof.
  unfold check2. intros H. apply bind_ok in H as (r & w1 & Hm & H).
  destruct (Z.eqb_spec r 0) as [->|Hne].
  - exists w1. split; assumption.
  - injection H as H _. contradiction.
Qed.

Lemma init_frame_refl w : init_frame w w.
Proof. unfold init_frame. repeat split; reflexivity. Qed.

Lemma init_frame_trans w1 w2 w3 :
  init_frame w1 w2 -> init_frame w2 w3 -> init_frame w1 w3.
Proof. unfold init_frame. intros H1 H2. intuition congruence. Qed.

Lemma wrote_trans w w1 w2 l1 l2 :
  wrote w w1 l1 -> wrote w1 w2 l2 -> wrote w w2 (l1 ++ l2).
Proof.
  intros (Hf1 & Hr1 & Hm1) (Hf2 & Hr2 & Hm2). split; [|split].
  - eapply init_frame_trans; eassumption.
  - lia.
  - rewrite Hm2, Hm1, app_assoc. reflexivity.
Qed.

Lemma wrote_read E r w v w1 : reg_read E r w = Ok v w1 -> wrote w w1 [].
Proof.
  unfold reg_read. intros H. injection H as _ <-. split; [|split].
  - unfold init_frame. cbn. repeat split; reflexivity.
  - cbn. lia.
  - cbn. rewrite app_nil_r. reflexivity.
Qed.

Lemma wrote_write r v w u w1 : reg_write r v w = Ok u w1 -> wrote w w1 [(r, v)].
Proof.
  unfold reg_write, modify. intros H. injection H as _ <-. split; [|split].
  - unfold init_frame. cbn. repeat split; reflexivity.
  - cbn. lia.
  - reflexivity.
Qed.

Lemma wrote_update E r (f : Z -> Z) w u w1 :
  (do old <- reg_read E r; reg_write r (f old)) w = Ok u w1 ->
  wrote w w1 [(r, f (wrap32 (hw_read E (n_reads w) r)))].
Proof.
  unfold bind, reg_read, reg_write, modify. intros H. injection H as _ <-.
  split; [|split].
  - unfold init_frame. cbn. repeat split; reflexivity.
  - cbn. lia.
  - reflexivity.
Qed.

Lemma wait_loop_wrote E reg mask value deadline : forall fuel w u w1,
  wait_loop E fuel reg mask value deadline w = Ok u w1 -> wrote w w1 [].
Proof.
  induction fuel as [|fuel IH]; intros w u w1 H; [discriminate|].
  rewrite wait_loop_step in H.
  assert (Hadv : forall a b, wrote w (advance a b w) []).
  { intros a b. split; [|split].
    - unfold init_frame. cbn. repeat split; reflexivity.
    - cbn. lia.
    - cbn. rewrite app_nil_r. reflexivity. }
  destruct (reg_sat E reg mask value (n_reads w)).
  { injection H as _ <-. apply Hadv. }
  destruct (clock_at E (n_clock w) <? deadline).
  - apply IH in H. apply (wrote_trans w (advance 1 1 w) w1 [] []); [apply Hadv|exact H].
  - injection H as _ <-. apply Hadv.
Qed.

Lemma wait_timeout_wrote E fuel reg mask value w r w1 :
  wait_timeout E fuel reg mask value w = Ok r w1 -> wrote w w1 [].
Proof.
  unfold wait_timeout. intros H.
  apply bind_ok in H as (start & wa & Hclock & H).
  apply bind_ok in H as (u & wb & Hloop & H).
  apply bind_ok in H as (v & wc & Hread & H).
  injection H as _ <-.
  assert (Ha : wrote w wa []).
  { unfold clock in Hclock. injection Hclock as _ <-. split; [|split].
    - unfold init_frame. cbn. repeat split; reflexivity.
    - cbn. lia.
    - cbn. rewrite app_nil_r. reflexivity. }
  apply wait_loop_wrote in Hloop. apply wrote_read in Hread.
  apply (wrote_trans w wa wc [] []); [exact Ha|].
  apply (wrote_trans wa wb wc [] []); assumption.
Qed.

Lemma addr2phys_wrote E ptr r w u w1 :
  addr2phys E ptr (RegPtr r) w = Ok u w1 ->
  exists p, translate E w ptr = Some p /\
            wrote w w1 [(r, wrap32 p); (preg_next r, 0)].
Proof.
  rewrite addr2phys_eq. destruct (translate E w ptr) as [p|]; [|discriminate].
  intros H. exists p. split; [reflexivity|].
  unfold bind, store, reg_write, modify in H. injection H as _ <-.
  split; [|split].
  - unfold init_frame. cbn. repeat split; reflexivity.
  - cbn. lia.
  - cbn. rewrite <- app_assoc. reflexivity.
Qed.

Lemma wrote_translate E w w1 l ptr :
  wrote w w1 l -> translate E w1 ptr = translate E w ptr.
Proof.
  intros ((_ & _ & Hd & _) & _). apply translate_frame. exact Hd.
Qed.

(** The reads of a register access. *)
Lemma read_reads E r w v w1 :
  reg_read E r w = Ok v w1 -> n_reads w1 = S (n_reads w).
Proof. unfold reg_read. intros H. injection H as _ <-. reflexivity. Qed.

Lemma write_reads r v w u w1 :
  reg_write r v w = Ok u w1 -> n_reads w1 = n_reads w.
Proof. unfold reg_write, modify. intros H. injection H as _ <-. reflexivity. Qed.

Lemma update_reads E r (f : Z -> Z) w u w1 :
  (do old <- reg_read E r; reg_write r (f old)) w = Ok u w1 ->
  n_reads w1 = S (n_reads w).
Proof.
  unfold bind, reg_read, reg_write, modify. intros H. injection H as _ <-.
  reflexivity.
Qed.

Lemma addr2phys_reads E ptr r w u w1 :
  addr2phys E ptr (RegPtr r) w = Ok u w1 -> n_reads w1 = n_reads w.
Proof.
  rewrite addr2phys_eq. destruct (translate E w ptr) as [p|]; [|discriminate].
  intros H. unfold bind, store, reg_write, modify in H. injection H as _ <-.
  reflexivity.
Qed.

(** The polls of a wait loop that ends: all but the last find the register
    unsatisfied. *)
Lemma wait_loop_polls E reg mask value deadline : forall fuel w u w1,
  wait_loop E fuel reg mask value deadline w = Ok u w1 ->
  exists n, n_reads w1 = (n_reads w + S n)%nat /\
    forall i, (i < n)%nat -> reg_sat E reg mask value (n_reads w + i) = false.
Proof.
  induction fuel as [|fuel IH]; intros w u w1 H; [discriminate|].
  rewrite wait_loop_step in H.
  destruct (reg_sat E reg mask value (n_reads w)) eqn:Hsat.
  { injection H as _ <-. exists 0%nat. cbn [n_reads advance].
    split; [lia|intros i Hi; lia]. }
  destruct (clock_at E (n_clock w) <? deadline).
  - apply IH in H as (n & Hn & Hp). cbn [n_reads advance] in Hn, Hp.
    exists (S n). split; [lia|]. intros i Hi. destruct i as [|i].
    + rewrite Nat.add_0_r. exact Hsat.
    + replace (n_reads w + S i)%nat with (1 + n_reads w + i)%nat by lia.
      apply Hp. lia.
  - injection H as _ <-. exists 0%nat. cbn [n_reads advance].
    split; [lia|intros i Hi; lia].
Qed.

(** A wait that returns 0 has read the register from the read it started at
    up to the one that found it satisfied. *)
Lemma wait_timeout_waited E fuel reg mask value w w1 :
  wait_timeout E fuel reg mask value w = Ok 0 w1 ->
  waited E reg mask value (n_reads w) (n_reads w1).
Proof.
  unfold wait_timeout. intros H.
  apply bind_ok in H as (start & wa & Hclock & H).
  apply bind_ok in H as (u & wb & Hloop & H).
  apply bind_ok in H as (v & wc & Hread & H).
  unfold clock in Hclock. injection Hclock as _ <-.
  apply wait_loop_polls in Hloop as (n & Hn & Hp). cbn [n_reads count_clock] in Hn, Hp.
  unfold reg_read in Hread. injection Hread as <- <-.
  unfold ret in H. injection H as H <-.
  exists n. cbn [n_reads count_read]. split; [lia|]. split; [exact Hp|].
  unfold reg_sat. rewrite <- Hn.
  destruct (Z.land (wrap32 (hw_read E (n_reads wb) reg)) mask =? value);
    [reflexivity|discriminate].
Qed.

(** The part of [init] that stops the command engine: CMD is read, ST
    cleared, the engine waited for, CMD read again, FRE cleared, and the FIS
    receive waited for. *)
Lemma stop_engine_trace E fuel w w1 :
  (exec reg_and E CMD (not32 1);
   check2 (wait_timeout E fuel CMD (bit32 15) 0)
     (exec reg_and E CMD (not32 0x10);
      wait_timeout E fuel CMD (bit32 14) 0)) w = Ok 0 w1 ->
  exists m2,
    wrote w w1 [(CMD, Z.land (wrap32 (hw_read E (n_reads w) CMD)) (not32 1));
                (CMD, Z.land (wrap32 (hw_read E m2 CMD)) (not32 0x10))] /\
    waited E CMD (bit32 15) 0 (S (n_reads w)) m2 /\
    waited E CMD (bit32 14) 0 (S m2) (n_reads w1).
Proof.
  intros H. apply bind_ok in H as (u & wa & Hand1 & H).
  apply check2_zero in H as (wb & Hwait1 & H).
  apply bind_ok in H as (u' & wc & Hand2 & Hwait2).
  pose proof (update_reads E CMD (fun old => Z.land old (not32 1)) _ _ _ Hand1) as Hna.
  pose proof (update_reads E CMD (fun old => Z.land old (not32 0x10)) _ _ _ Hand2) as Hnc.
  pose proof (wait_timeout_waited _ _ _ _ _ _ _ Hwait1) as Hw1.
  pose proof (wait_timeout_waited _ _ _ _ _ _ _ Hwait2) as Hw2.
  rewrite Hna in Hw1. rewrite Hnc in Hw2.
  apply (wrote_update E CMD (fun old => Z.land old (not32 1))) in Hand1.
  apply wait_timeout_wrote in Hwait1.
  apply (wrote_update E CMD (fun old => Z.land old (not32 0x10))) in Hand2.
  apply wait_timeout_wrote in Hwait2. cbv beta in Hand1, Hand2.
  exists (n_reads wb).
  pose proof (wrote_trans _ _ _ _ _ Hand1 Hwait1) as H1.
  pose proof (wrote_trans _ _ _ _ _ Hand2 Hwait2) as H2.
  pose proof (wrote_trans _ _ _ _ _ H1 H2) as H3.
  rewrite !app_nil_r in H3. split; [exact H3|]. split; assumption.
Qed.

(** X9: when the bring-up of [init] goes through, the registers have been
    written in this order and no other: if CMD showed the command engine or
    the FIS receive running (any of ST, CR, FR, CLO), ST is cleared, then FRE;
    then CLB/CLBU and FB/FBU get the translated addresses of the command list
    and the received-FIS area with upper halves 0, SERR and IS are cleared by
    writing all ones, FRE is set, then CLO, then ST, each on top of the value
    just read from CMD, and last IE is set to 0xf98000f1; [_inprogress] is
    0.  The register reads are numbered as they are made, [r0] being the
    first: every read of the bring-up is one of CMD, the value of each update
    of CMD is that of the read named in it, the reads between two updates are
    those of the wait between them, which ends with a read that finds the
    awaited bit clear, and the read for setting ST is the last. *)
Theorem init_port_trace (E : Env) (fuel : nat) (w w' : Port) :
  init_port E fuel w = Ok 0 w' ->
  let cmd_at := fun i : nat => wrap32 (hw_read E i CMD) in
  let r0 := n_reads w in
  exists pc pf stop n1 n2 n3,
    translate E w (cl_addr w) = Some pc /\
    translate E w (fis_addr w) = Some pf /\
    mmio w' = mmio w ++ stop
              ++ bring_up_writes pc pf (cmd_at n1) (cmd_at n2) (cmd_at n3) /\
    ((Z.land (cmd_at r0) 0xc009 = 0 /\ stop = [] /\ n1 = S r0) \/
     (Z.land (cmd_at r0) 0xc009 <> 0 /\
      exists m2,
        stop = [(CMD, Z.land (cmd_at (S r0)) (not32 1));
                (CMD, Z.land (cmd_at m2) (not32 0x10))] /\
        waited E CMD (bit32 15) 0 (S (S r0)) m2 /\
        waited E CMD (bit32 14) 0 (S m2) n1)) /\
    waited E CMD (bit32 15) 0 (S n1) n2 /\
    waited E CMD 0x8 0 (S n2) n3 /\
    n_reads w' = S n3 /\
    _inprogress w' = 0.
Proof.
  intros Hrun cmd_at r0.
  pose proof (init_port_reset E fuel w w' Hrun) as Hzero. cbv beta in Hzero.
  unfold init_port in Hrun.
  apply bind_ok in Hrun as (cmd & wa & Hread & Hrun).
  assert (Hcmd : cmd = cmd_at r0)
    by (unfold reg_read in Hread; injection Hread as <- _; reflexivity).
  assert (Hwa : wa = count_read w)
    by (unfold reg_read in Hread; injection Hread as _ <-; reflexivity).
  apply wrote_read in Hread.
  apply check2_zero in Hrun as (wb & Hstop & Hrun).
  assert (Hstop' : exists stop,
    wrote wa wb stop /\
    ((Z.land (cmd_at r0) 0xc009 = 0 /\ stop = [] /\ n_reads wb = S r0) \/
     (Z.land (cmd_at r0) 0xc009 <> 0 /\
      exists m2,
        stop = [(CMD, Z.land (cmd_at (S r0)) (not32 1));
                (CMD, Z.land (cmd_at m2) (not32 0x10))] /\
        waited E CMD (bit32 15) 0 (S (S r0)) m2 /\
        waited E CMD (bit32 14) 0 (S m2) (n_reads wb)))).
  { rewrite Hcmd in Hstop.
    destruct (Z.eqb_spec (Z.land (cmd_at r0) 0xc009) 0) as [H0|Hne];
      cbn [negb] in Hstop.
    - exists []. unfold ret in Hstop. injection Hstop as <-. split.
      + split; [|split].
        * apply init_frame_refl.
        * lia.
        * rewrite app_nil_r. reflexivity.
      + left. split; [exact H0|]. split; [reflexivity|]. rewrite Hwa. reflexivity.
    - apply stop_engine_trace in Hstop as (m2 & Hw & Hw1 & Hw2).
      rewrite Hwa in Hw, Hw1. cbn [n_reads count_read] in Hw, Hw1.
      eexists. split; [rewrite Hwa; exact Hw|]. right. split; [exact Hne|].
      exists m2. split; [reflexivity|]. split; assumption. }
  destruct Hstop' as (stop & Hwstop & Hstopcase).
  pose proof (wrote_trans _ _ _ _ _ Hread Hwstop) as Hwb. cbn [app] in Hwb.
  apply bind_ok in Hrun as (cl & w1 & Hcl & Hrun).
  unfold get in Hcl. injection Hcl as <- <-.
  apply bind_ok in Hrun as (u1 & w2 & Hclb & Hrun).
  pose proof (addr2phys_reads _ _ _ _ _ _ Hclb) as Hn2.
  apply addr2phys_wrote in Hclb as (pc & Hpc & Hw2).
  apply bind_ok in Hrun as (fis & w3 & Hfis & Hrun).
  unfold get in Hfis. injection Hfis as <- <-.
  apply bind_ok in Hrun as (u2 & w4 & Hfb & Hrun).
  pose proof (addr2phys_reads _ _ _ _ _ _ Hfb) as Hn4.
  apply addr2phys_wrote in Hfb as (pf & Hpf & Hw4).
  apply bind_ok in Hrun as (u3 & w5 & Hserr & Hrun).
  pose proof (write_reads _ _ _ _ _ Hserr) as Hn5. apply wrote_write in Hserr.
  apply bind_ok in Hrun as (u4 & w6 & His & Hrun).
  pose proof (write_reads _ _ _ _ _ His) as Hn6. apply wrote_write in His.
  apply bind_ok in Hrun as (u5 & w7 & Hfre & Hrun).
  pose proof (update_reads E CMD (fun old => Z.lor old 0x10) _ _ _ Hfre) as Hn7.
  apply (wrote_update E CMD (fun old => Z.lor old 0x10)) in Hfre.
  apply check2_zero in Hrun as (w8 & Hwait1 & Hrun).
  pose proof (wait_timeout_waited _ _ _ _ _ _ _ Hwait1) as Hwd1.
  apply wait_timeout_wrote in Hwait1.
  apply bind_ok in Hrun as (u6 & w9 & Hclo & Hrun).
  pose proof (update_reads E CMD (fun old => Z.lor old 0x8) _ _ _ Hclo) as Hn9.
  apply (wrote_update E CMD (fun old => Z.lor old 0x8)) in Hclo.
  apply check2_zero in Hrun as (w10 & Hwait2 & Hrun).
  pose proof (wait_timeout_waited _ _ _ _ _ _ _ Hwait2) as Hwd2.
  apply wait_timeout_wrote in Hwait2.
  apply bind_ok in Hrun as (u7 & w11 & Hst & Hrun).
  pose proof (update_reads E CMD (fun old => Z.lor old 0x1) _ _ _ Hst) as Hn11.
  apply (wrote_update E CMD (fun old => Z.lor old 0x1)) in Hst.
  apply bind_ok in Hrun as (u8 & w12 & Hreset & Hrun).
  unfold modify in Hreset. injection Hreset as _ <-.
  apply bind_ok in Hrun as (u9 & w13 & Hie & Hrun).
  unfold reg_write, modify in Hie. injection Hie as _ <-.
  unfold ret in Hrun. injection Hrun as <-.
  cbv beta in Hfre, Hclo, Hst.
  exists pc, pf, stop, (n_reads w6), (n_reads w8), (n_reads w10).
  assert (Hn6b : n_reads w6 = n_reads wb) by congruence.
  destruct Hwb as ((_ & _ & Hdb & Hclb & _ & Hfb & _) & _ & Hmb).
  rewrite (translate_frame E w wb) in Hpc by exact Hdb. rewrite Hclb in Hpc.
  rewrite (wrote_translate E wb w2 _ _ Hw2) in Hpf.
  rewrite (translate_frame E w wb) in Hpf by exact Hdb.
  assert (Hfis2 : fis_addr w2 = fis_addr w).
  { destruct Hw2 as ((_ & _ & _ & _ & _ & Hf & _) & _). rewrite Hf. exact Hfb. }
  rewrite Hfis2 in Hpf.
  split; [exact Hpc|]. split; [exact Hpf|].
  split.
  { pose proof (wrote_trans _ _ _ _ _ Hw2 Hw4) as H24.
    pose proof (wrote_trans _ _ _ _ _ H24 Hserr) as H25.
    pose proof (wrote_trans _ _ _ _ _ H25 His) as H26.
    pose proof (wrote_trans _ _ _ _ _ H26 Hfre) as H27.
    pose proof (wrote_trans _ _ _ _ _ H27 Hwait1) as H28.
    pose proof (wrote_trans _ _ _ _ _ H28 Hclo) as H29.
    pose proof (wrote_trans _ _ _ _ _ H29 Hwait2) as H210.
    pose proof (wrote_trans _ _ _ _ _ H210 Hst) as H211.
    destruct H211 as (_ & _ & Hm11).
    cbn [mmio log_write set_inprogress]. rewrite Hm11, Hmb.
    unfold bring_up_writes, cmd_at. cbn [preg_next app].
    rewrite <- !app_assoc. cbn [app]. reflexivity. }
  split.
  { rewrite Hn6b. destruct Hstopcase as [(H0 & Hs & Hn) | (Hne & m2 & Hs & Hw1 & Hw2')].
    - left. split; [exact H0|]. split; [exact Hs|exact Hn].
    - right. split; [exact Hne|]. exists m2. split; [exact Hs|]. split; assumption. }
  rewrite Hn7 in Hwd1. rewrite Hn9 in Hwd2.
  split; [exact Hwd1|]. split; [exact Hwd2|].
  split; [|exact Hzero].
  cbn [n_reads log_write set_inprogress]. exact Hn11.
Qed.

Lemma init_port_trace_witness :
  mmio reset_port
  = mmio fresh_port ++ bring_up_writes 0x2000 0x1000 0 0 0 /\
  n_reads reset_port = 8%nat /\ _inprogress reset_port = 0.
Proof.
  destruct (init_port_trace idle_env 1 fresh_port reset_port)
    as (pc & pf & stop & n1 & n2 & n3 & Hpc & Hpf & Hmm & Hstop & _ & _ & Hn & Hzero).
  - vm_compute. reflexivity.
  - split; [|split; [reflexivity|exact Hzero]].
    injection Hpc as <-. injection Hpf as <-.
    destruct Hstop as [(_ & -> & _) | [Hne _]]; [exact Hmm|].
    exfalso. apply Hne. vm_compute. reflexivity.
Defined.

(** ** SET FEATURES *)



(** ** The in-progress mask of a port that did not come up *)

Lemma land_above_nonzero x n :
  0 <= n -> 2 ^ n <= x -> Z.land x (Z.lnot (Z.shiftl 1 n - 1)) <> 0.
Proof.
  intros Hn Hx H0.
  assert (Hlt : x < 2 ^ n); [|lia].
  apply below_pow2_bits; [lia|exact Hn|]. intros i Hi.
  apply (f_equal (fun v => Z.testbit v i)) in H0.
  rewrite Z.land_spec, Z.lnot_spec, Z.bits_0 in H0 by lia.
  rewrite Z.shiftl_1_l, Z.sub_1_r, <- Z.ones_equiv in H0.
  rewrite Z.testbit_ones_nonneg in H0 by lia.
  destruct (Z.ltb_spec i n) as [|_]; [lia|].
  cbn [negb] in H0. rewrite andb_true_r in H0. exact H0.
Qed.

(** C7 fails on the code: the constructor does not set [_inprogress], and
    when a wait of the bring-up times out [init] returns before its reset of
    [_inprogress], so that the port is left with what the heap held, bits at
    or above the slot count among them as it may be.  The port object stays
    with the controller, and at the next interrupt [irq] sends a commit for
    every bit of that mask whose CI bit reads clear, for requests nobody has
    made. *)
Theorem unset_inprogress_commits (E : Env) (fuel fuel' : nat)
    (buffer disknr cap : Z) (dmar : bool) (h : Heap) (r : Z) (w1 : Port) :
  let w := HostAhciPort_new disknr (max_slots_of_cap cap) dmar h in
  init_port E fuel w = Ok r w1 ->
  r <> 0 ->
  let unset := wrap32 (heap_inprogress h) in
  let ci := wrap32 (hw_read E (S (n_reads w1)) CI) in
  init E fuel buffer w = Ok r w1 /\
  built E w1 /\
  _max_slots w1 = max_slots_of_cap cap /\
  _inprogress w1 = unset /\
  (2 ^ _max_slots w1 <= unset ->
   Z.land (_inprogress w1) (Z.lnot (Z.shiftl 1 (_max_slots w1) - 1)) <> 0) /\
  commits (world_of (irq E fuel' w1))
  = map (commit_of w1) (set_bits (Z.land unset (not32 ci))).
Proof.
  intros w Hup Hr unset ci.
  assert (Hinit : init E fuel buffer w = Ok r w1).
  { unfold init, check2, bind. rewrite Hup.
    destruct (Z.eqb_spec r 0) as [|_]; [contradiction|reflexivity]. }
  pose proof (init_port_frame E fuel w) as Hframe. rewrite Hup in Hframe.
  cbn [world_of] in Hframe.
  destruct (init_port_early E fuel w r w1 Hup Hr) as [_ Hip].
  change (_inprogress w) with unset in Hip.
  destruct Hframe as (_ & Hms & _ & _ & _ & _ & _ & _ & _ & _ & Hut & Hcm).
  change (_max_slots w) with (max_slots_of_cap cap) in Hms.
  split; [exact Hinit|]. split.
  { assert (Hw1 : w1 = run_op E fuel (OpInit buffer) w)
      by (cbn [run_op]; rewrite Hinit; reflexivity).
    rewrite Hw1. apply built_op. apply built_new. }
  split; [exact Hms|]. split; [exact Hip|]. split.
  { intros Hge. rewrite Hip. apply land_above_nonzero; [|exact Hge].
    rewrite Hms. pose proof (max_slots_of_cap_range cap). lia. }
  pose proof (irq_commits E fuel' w1) as Hirq. cbv zeta in Hirq.
  rewrite Hirq.
  - rewrite Hcm, Hip. reflexivity.
  - rewrite Hut. apply length_heap_array.
  - rewrite Hip. apply wrap32_range.
Qed.

Lemma unset_inprogress_commits_witness :
  let w := HostAhciPort_new 0 (max_slots_of_cap 0) true ones_heap in
  exists w1,
    init stuck_env 1 0x5000 w = Ok 1 w1 /\
    _max_slots w1 = 1 /\ popcount (_inprogress w1) = 32 /\
    Z.land (_inprogress w1) (Z.lnot (Z.shiftl 1 (_max_slots w1) - 1)) <> 0 /\
    length (commits (world_of (irq stuck_env 1 w1))) = 32%nat.
Proof.
  intros w.
  destruct (init_port stuck_env 1 w) as [r w1|f w1] eqn:Hup;
    [|exfalso; revert Hup; vm_compute; discriminate].
  assert (Hr : r = 1)
    by (revert Hup; vm_compute; intros H; injection H as <- _; reflexivity).
  subst r.
  destruct (unset_inprogress_commits stuck_env 1 1 0x5000 0 0 true ones_heap 1 w1 Hup)
    as (Hinit & _ & Hms & Hip & Habove & Hcommits); [discriminate|].
  exists w1. split; [exact Hinit|]. split; [exact Hms|].
  split; [rewrite Hip; reflexivity|].
  split; [apply Habove; rewrite Hms; vm_compute; discriminate|].
  rewrite Hcommits, length_map.
  change (hw_read stuck_env (S (n_reads w1)) CI) with 0. reflexivity.
Defined.

(** The same on a whole controller: the constructor keeps the port whose
    bring-up failed, without registering it on the disk bus, and the first
    interrupt makes it send 32 commits although it has one slot and has
    never been given a request. *)
Lemma unset_inprogress_interrupt :
  let h := hba_of (HostAhci_new stuck_host 1 high_conf high_alloc 0 0x13 true 5) in
  let h' := hba_of (receive_irq stuck_host 1 0x13 true h) in
  HostAhci_new stuck_host 1 high_conf high_alloc 0 0x13 true 5 = HOk tt h /\
  bus_added h = [] /\
  option_map _max_slots (port_at h 0) = Some 1 /\
  option_map _inprogress (port_at h 0) = Some 0xffffffff /\
  option_map commits (port_at h 0) = Some [] /\
  receive_irq stuck_host 1 0x13 true h = HOk true h' /\
  option_map (fun p => length (commits p)) (port_at h' 0) = Some 32%nat.
Proof. vm_compute. repeat split; reflexivity. Qed.

(** * Properties of the controller driver *)

(** ** The ports the constructor creates *)

Lemma port_at_set_port h nr p nr' :
  length (_ports h) = 32%nat -> 0 <= nr < 32 -> 0 <= nr' ->
  port_at (set_port nr p h) nr' = if nr' =? nr then Some p else port_at h nr'.
Proof.
  intros Hlen Hnr Hnr'. unfold port_at, set_port, with_ports. cbn [_ports].
  destruct (Z.eqb_spec nr' nr) as [->|Hne].
  - rewrite list_lookup_insert_eq by lia. reflexivity.
  - rewrite list_lookup_insert_ne by lia. reflexivity.
Qed.

Lemma filter_all {A} (f : A -> bool) l :
  Forall (fun x => f x = true) l -> List.filter f l = l.
Proof.
  induction 1 as [|x l Hx _ IH]; [reflexivity|].
  cbn [List.filter]. rewrite Hx, IH. reflexivity.
Qed.

Lemma sorted_snoc l y :
  StronglySorted Z.lt l -> Forall (fun x => x < y) l -> StronglySorted Z.lt (l ++ [y]).
Proof.
  induction 1 as [|x l Hs IH Hx]; intros Hall; cbn [app].
  - repeat constructor.
  - inversion Hall as [|? ? Hxy Hall']; subst. constructor; [apply IH; exact Hall'|].
    apply Forall_app. split; [exact Hx|]. repeat constructor. exact Hxy.
Qed.

Lemma init_disknr E fuel buffer w : _disknr (world_of (init E fuel buffer w)) = _disknr w.
Proof.
  apply (preserves_init E (fun w' => _disknr w' = _disknr w));
    try (intros; assumption). reflexivity.
Qed.

Lemma ports_inv_weaken HE fuel dmar h h' bound :
  _ports h' = _ports h -> bus_base h' = bus_base h -> bus_added h' = bus_added h ->
  ports_inv HE fuel dmar h bound -> ports_inv HE fuel dmar h' (bound + 1).
Proof.
  intros Hp Hb Ha (Hlen & Hnone & Hbus & Hsort & Hports).
  unfold ports_inv, port_at, registered_below in *. rewrite Hp, Hb, Ha.
  split; [exact Hlen|]. split; [intros nr Hnr; apply Hnone; lia|].
  split.
  { intros i e He. destruct (Hbus i e He) as (H1 & H2 & H3).
    split; [exact H1|]. split; [lia|exact H3]. }
  split; [exact Hsort|].
  intros nr p Hnr Hp'. destruct (Hports nr p Hnr Hp') as (H1 & H2 & H3).
  split; [lia|]. split; assumption.
Qed.

(** One call of [create_ahci_port] in the loops of the constructor. *)
Lemma create_ahci_port_inv HE fuel dmar nr h h' :
  0 <= nr < 32 ->
  ports_inv HE fuel dmar h nr ->
  create_ahci_port HE fuel nr dmar h = HOk tt h' ->
  ports_inv HE fuel dmar h' (nr + 1) /\
  bus_base h' = bus_base h /\ hba_mmio h' = hba_mmio h /\
  _regs_high h' = _regs_high h /\ _hostirq h' = _hostirq h.
Proof.
  intros Hnr Hinv Hrun. unfold create_ahci_port, hba_reg_read in Hrun.
  destruct (_ && _).
  2: { injection Hrun as <-. split; [|repeat split; reflexivity].
       apply (ports_inv_weaken HE fuel dmar h); try reflexivity. exact Hinv. }
  set (h2 := count_hba_read (count_hba_read h)) in *.
  set (cap := wrap32 (hba_read HE (hba_reads (count_hba_read h)) HCAP)) in *.
  set (p0 := HostAhciPort_new (bus_count h2) (max_slots_of_cap cap) dmar
               (port_heap HE nr)) in *.
  pose proof (init_disknr (port_env HE nr) fuel (identify_buffer HE) p0) as Hdisk.
  destruct (init (port_env HE nr) fuel (identify_buffer HE) p0) as [r p'|f p'] eqn:Hinit;
    [|discriminate].
  cbn [world_of] in Hdisk.
  destruct Hinv as (Hlen & Hnone & Hbus & Hsort & Hports).
  assert (Hat : forall nr', 0 <= nr' ->
            port_at (set_port nr p' h2) nr'
            = if nr' =? nr then Some p' else port_at h nr').
  { intros nr' Hnr'. rewrite port_at_set_port by (assumption || exact Hlen).
    reflexivity. }
  assert (Hold : Forall (fun e : Z * Z => (snd e <? nr) = true) (bus_added h)).
  { apply List.Forall_forall. intros e He. apply list_elem_of_In in He.
    apply list_elem_of_lookup_1 in He as (i & He).
    destruct (Hbus i e He) as (_ & Hlt & _). apply Z.ltb_lt. lia. }
  assert (Hnotin : ~ nr ∈ map snd (bus_added h)).
  { intros Hin. apply list_elem_of_fmap in Hin as (e & Heq & He).
    apply list_elem_of_lookup_1 in He as (i & He).
    destruct (Hbus i e He) as (_ & Hlt & _). lia. }
  assert (Hcount : _disknr p' = bus_base h + Z.of_nat (length (bus_added h)))
    by (rewrite Hdisk; reflexivity).
  destruct (Z.eqb_spec r 0) as [->|Hr]; cbn [negb] in Hrun; injection Hrun as <-.
  - (* registered *)
    split; [|repeat split; reflexivity].
    unfold ports_inv.
    change (_ports (bus_add nr (set_port nr p' h2))) with (_ports (set_port nr p' h2)).
    change (bus_base (bus_add nr (set_port nr p' h2))) with (bus_base h).
    change (bus_added (bus_add nr (set_port nr p' h2)))
      with (bus_added h ++ [(bus_base h + Z.of_nat (length (bus_added h)), nr)]).
    assert (Hat' : forall nr', port_at (bus_add nr (set_port nr p' h2)) nr'
                               = port_at (set_port nr p' h2) nr') by reflexivity.
    split.
    { unfold set_port, with_ports. cbn [_ports]. rewrite length_insert. exact Hlen. }
    split.
    { intros nr' Hnr'. rewrite Hat', Hat by lia.
      destruct (Z.eqb_spec nr' nr); [lia|]. apply Hnone. lia. }
    split.
    { intros i e He. apply lookup_app_Some in He as [He | [Hi He]].
      - destruct (Hbus i e He) as (H1 & H2 & p & Hp & Hd).
        split; [exact H1|]. split; [lia|]. exists p. rewrite Hat', Hat by lia.
        destruct (Z.eqb_spec (snd e) nr); [lia|]. split; assumption.
      - destruct (i - length (bus_added h))%nat as [|k] eqn:Hk; cbn in He;
          [|try rewrite lookup_nil in He; discriminate].
        injection He as <-. cbn [fst snd].
        split; [f_equal; lia|]. split; [lia|]. exists p'.
        rewrite Hat', Hat, Z.eqb_refl by lia. split; [reflexivity|exact Hcount]. }
    split.
    { rewrite map_app. cbn [map snd]. apply sorted_snoc; [exact Hsort|].
      apply List.Forall_forall. intros x Hx. apply in_map_iff in Hx as (e & <- & He).
      rewrite List.Forall_forall in Hold. apply Z.ltb_lt. apply Hold. exact He. }
    intros nr' p Hnr' Hp. rewrite Hat', Hat in Hp by lia.
    unfold registered_below.
    change (bus_added (bus_add nr (set_port nr p' h2)))
      with (bus_added h ++ [(bus_base h + Z.of_nat (length (bus_added h)), nr)]).
    rewrite List.filter_app, length_app. cbn [List.filter snd].
    destruct (Z.eqb_spec nr' nr) as [->|Hne].
    + injection Hp as <-. split; [lia|]. rewrite Z.ltb_irrefl. cbn [length].
      rewrite filter_all by exact Hold. split; [rewrite Hcount; f_equal; lia|].
      exists (bus_count h2), cap, 0. split; [exact Hinit|].
      rewrite bool_decide_eq_true_2; [reflexivity|].
      rewrite map_app. apply elem_of_app. right. cbn. apply list_elem_of_singleton.
      reflexivity.
    + destruct (Hports nr' p Hnr' Hp) as (H1 & H2 & H3).
      split; [lia|].
      assert ((nr <? nr') = false) as -> by (apply Z.ltb_ge; lia).
      cbn [length]. rewrite Nat.add_0_r. split; [exact H2|].
      destruct H3 as (d & c & r & Hi & Hreg). exists d, c, r. split; [exact Hi|].
      rewrite <- Hreg. apply bool_decide_ext. rewrite map_app, elem_of_app.
      cbn [map snd]. split; [|intros Hin; left; exact Hin].
      intros [Hin|Hin]; [exact Hin|]. apply list_elem_of_singleton in Hin. lia.
  - (* init failed: the port stays, unregistered *)
    split; [|repeat split; reflexivity].
    unfold ports_inv.
    change (bus_base (set_port nr p' h2)) with (bus_base h).
    change (bus_added (set_port nr p' h2)) with (bus_added h).
    split.
    { unfold set_port, with_ports. cbn [_ports]. rewrite length_insert. exact Hlen. }
    split.
    { intros nr' Hnr'. rewrite Hat by lia.
      destruct (Z.eqb_spec nr' nr); [lia|]. apply Hnone. lia. }
    split.
    { intros i e He. destruct (Hbus i e He) as (H1 & H2 & p & Hp & Hd).
      split; [exact H1|]. split; [lia|]. exists p. rewrite Hat by lia.
      destruct (Z.eqb_spec (snd e) nr); [lia|]. split; assumption. }
    split; [exact Hsort|].
    intros nr' p Hnr' Hp. rewrite Hat in Hp by lia.
    unfold registered_below.
    change (bus_added (set_port nr p' h2)) with (bus_added h).
    destruct (Z.eqb_spec nr' nr) as [->|Hne].
    + injection Hp as <-. split; [lia|].
      rewrite filter_all by exact Hold. split; [exact Hcount|].
      exists (bus_count h2), cap, r. split; [exact Hinit|].
      rewrite bool_decide_eq_false_2 by exact Hnotin.
      symmetry. apply Z.eqb_neq. exact Hr.
    + destruct (Hports nr' p Hnr' Hp) as (H1 & H2 & H3).
      split; [lia|]. split; assumption.
Qed.

Lemma ports_inv_mono HE fuel dmar h bound bound' :
  bound <= bound' -> ports_inv HE fuel dmar h bound -> ports_inv HE fuel dmar h bound'.
Proof.
  intros Hle (Hlen & Hnone & Hbus & Hsort & Hports).
  split; [exact Hlen|]. split; [intros nr Hnr; apply Hnone; lia|].
  split.
  { intros i e He. destruct (Hbus i e He) as (H1 & H2 & H3).
    split; [exact H1|]. split; [lia|exact H3]. }
  split; [exact Hsort|].
  intros nr p Hnr Hp. destruct (Hports nr p Hnr Hp) as (H1 & H2 & H3).
  split; [lia|]. split; assumption.
Qed.

(** A run of the loop over the ports [a], [a+1], ... *)
Lemma create_ports_inv HE fuel dmar : forall n a h h',
  (a + n <= 32)%nat ->
  ports_inv HE fuel dmar h (Z.of_nat a) ->
  create_ports HE fuel dmar (map Z.of_nat (seq a n)) h = HOk tt h' ->
  ports_inv HE fuel dmar h' (Z.of_nat (a + n)) /\
  bus_base h' = bus_base h /\ hba_mmio h' = hba_mmio h /\
  _regs_high h' = _regs_high h /\ _hostirq h' = _hostirq h.
Proof.
  induction n as [|n IH]; intros a h h' Hle Hinv Hrun; cbn [seq map create_ports] in Hrun.
  - injection Hrun as <-. rewrite Nat.add_0_r. split; [exact Hinv|].
    repeat split; reflexivity.
  - destruct (create_ahci_port HE fuel (Z.of_nat a) dmar h) as [[] h1|f h1] eqn:Hstep;
      [|discriminate].
    apply create_ahci_port_inv in Hstep as (Hinv1 & Hb1 & Hm1 & Hr1 & Hi1);
      [|lia|exact Hinv].
    replace (Z.of_nat a + 1) with (Z.of_nat (S a)) in Hinv1 by lia.
    destruct (IH (S a) h1 h' ltac:(lia) Hinv1 Hrun) as (Hinv' & Hb & Hm & Hr & Hi).
    replace (a + S n)%nat with (S a + n)%nat by lia.
    split; [exact Hinv'|]. repeat split; congruence.
Qed.

Lemma ports_inv_start HE fuel dmar h :
  _ports h = replicate 32 None -> bus_added h = [] -> ports_inv HE fuel dmar h 0.
Proof.
  intros Hp Ha. unfold ports_inv, port_at, registered_below. rewrite Hp, Ha.
  assert (Hnone : forall nr, default None (replicate 32 (@None Port) !! Z.to_nat nr) = None).
  { intros nr. destruct (replicate 32 (@None Port) !! Z.to_nat nr) as [o|] eqn:Hl;
      [|reflexivity].
    apply lookup_replicate in Hl as [-> _]. reflexivity. }
  split; [apply length_replicate|]. split; [intros nr _; apply Hnone|].
  split; [intros i e He; rewrite lookup_nil in He; discriminate|].
  split; [constructor|].
  intros nr p _ Hp'. rewrite Hnone in Hp'. discriminate.
Qed.

(** What a run of the constructor that returns has gone through: [h5] is
    the state before the first loop, [h6] after it, [h7] after the second. *)
Lemma HostAhci_new_loops HE fuel conf_read alloc_iomem bdf hostirq dmar base h :
  HostAhci_new HE fuel conf_read alloc_iomem bdf hostirq dmar base = HOk tt h ->
  exists regs regs_high reqs h5 h6 h7,
    map_registers conf_read alloc_iomem (hba_read HE 0 HPI) = Mapped regs regs_high reqs /\
    wrap32 (hba_read HE 8 HBOHC) = 0 /\
    _ports h5 = replicate 32 None /\ bus_added h5 = [] /\ bus_base h5 = base /\
    _hostirq h5 = hostirq /\ _regs_high h5 = regs_high /\
    hba_mmio h5 = [(HGHC, Z.lor (wrap32 (hba_read HE 1 HGHC)) 0x80000000)] /\
    hba_reads h5 = 9%nat /\
    create_ports HE fuel dmar low_ports h5 = HOk tt h6 /\
    (if regs_high =? 0 then h7 = h6
     else create_ports HE fuel dmar high_ports h6 = HOk tt h7) /\
    h = hba_reg_or HE HGHC 2
          (log_hba_write HIS (wrap32 (hba_read HE (hba_reads h7) HPI))
             (count_hba_read h7)).
Proof.
  unfold HostAhci_new. intros Hrun.
  destruct (map_registers conf_read alloc_iomem (hba_read HE 0 HPI))
    as [regs regs_high reqs| |]; try discriminate.
  unfold hba_reg_or, hba_reg_read in Hrun.
  change (hba_reads (Nat.iter 6 count_hba_read _)) with 8%nat in Hrun.
  destruct (Z.eqb_spec (wrap32 (hba_read HE 8 HBOHC)) 0) as [Hbohc|]; [|discriminate].
  cbn [negb] in Hrun.
  match type of Hrun with
  | context [create_ports HE fuel dmar low_ports ?hh] => set (h5 := hh) in *
  end.
  destruct (create_ports HE fuel dmar low_ports h5) as [[] h6|f h6] eqn:Hlow;
    [|discriminate].
  exists regs, regs_high, reqs, h5, h6.
  destruct (Z.eqb_spec regs_high 0) as [Hhigh|Hhigh].
  - exists h6. injection Hrun as <-. repeat (split; [reflexivity || assumption|]).
    reflexivity.
  - destruct (create_ports HE fuel dmar high_ports h6) as [[] h7|f h7] eqn:Hhi;
      [|discriminate].
    exists h7. injection Hrun as <-. repeat (split; [reflexivity || assumption|]).
    reflexivity.
Qed.

Lemma HostAhci_new_run HE fuel conf_read alloc_iomem bdf hostirq dmar base h :
  HostAhci_new HE fuel conf_read alloc_iomem bdf hostirq dmar base = HOk tt h ->
  exists regs regs_high reqs h5 h6 h7,
    map_registers conf_read alloc_iomem (hba_read HE 0 HPI) = Mapped regs regs_high reqs /\
    wrap32 (hba_read HE 8 HBOHC) = 0 /\
    _ports h5 = replicate 32 None /\ bus_added h5 = [] /\ bus_base h5 = base /\
    _hostirq h5 = hostirq /\ _regs_high h5 = regs_high /\
    hba_mmio h5 = [(HGHC, Z.lor (wrap32 (hba_read HE 1 HGHC)) 0x80000000)] /\
    create_ports HE fuel dmar low_ports h5 = HOk tt h6 /\
    (if regs_high =? 0 then h7 = h6
     else create_ports HE fuel dmar high_ports h6 = HOk tt h7) /\
    h = hba_reg_or HE HGHC 2
          (log_hba_write HIS (wrap32 (hba_read HE (hba_reads h7) HPI))
             (count_hba_read h7)).
Proof.
  intros Hrun.
  apply HostAhci_new_loops in Hrun
    as (regs & regs_high & reqs & h5 & h6 & h7 & H1 & H2 & H3 & H4 & H5 & H6 & H7
        & H8 & _ & H9 & H10 & H11).
  exists regs, regs_high, reqs, h5, h6, h7.
  repeat (split; [assumption|]). exact H11.
Qed.

Lemma HostAhci_new_ok HE fuel conf_read alloc_iomem bdf hostirq dmar base h :
  HostAhci_new HE fuel conf_read alloc_iomem bdf hostirq dmar base = HOk tt h ->
  exists h7,
    ports_inv HE fuel dmar h7 32 /\
    (_regs_high h7 = 0 -> forall nr, 30 <= nr -> port_at h7 nr = None) /\
    bus_base h7 = base /\ _hostirq h7 = hostirq /\
    hba_mmio h7 = [(HGHC, Z.lor (wrap32 (hba_read HE 1 HGHC)) 0x80000000)] /\
    wrap32 (hba_read HE 8 HBOHC) = 0 /\
    h = hba_reg_or HE HGHC 2
          (log_hba_write HIS (wrap32 (hba_read HE (hba_reads h7) HPI))
             (count_hba_read h7)).
Proof.
  intros Hrun.
  apply HostAhci_new_run in Hrun
    as (regs & regs_high & reqs & h5 & h6 & h7 & _ & Hbohc & Hp5 & Ha5 & Hb5 & Hi5 & Hr5
        & Hm5 & Hlow & Hhigh & ->).
  pose proof (ports_inv_start HE fuel dmar h5 Hp5 Ha5) as Hinv5.
  apply (create_ports_inv HE fuel dmar 30 0 h5 h6 ltac:(lia) Hinv5) in Hlow
    as (Hinv6 & Hb6 & Hm6 & Hr6 & Hi6).
  exists h7. destruct (Z.eqb_spec regs_high 0) as [H0|Hne].
  - subst h7. split; [apply (ports_inv_mono HE fuel dmar h6 30); [lia|exact Hinv6]|].
    split; [intros _ nr Hnr; apply Hinv6; exact Hnr|].
    split; [congruence|]. split; [congruence|]. split; [congruence|].
    split; [exact Hbohc|reflexivity].
  - apply (create_ports_inv HE fuel dmar 2 30 h6 h7 ltac:(lia) Hinv6) in Hhigh
      as (Hinv7 & Hb7 & Hm7 & Hr7 & Hi7).
    split; [exact Hinv7|].
    split; [intros H0; exfalso; apply Hne; congruence|].
    split; [congruence|]. split; [congruence|]. split; [congruence|].
    split; [exact Hbohc|reflexivity].
Qed.

(** X11: when the constructor of [HostAhci] returns, the ports it has put
    on the disk bus have consecutive disk numbers, starting at the number of
    receivers the bus had, in the order of their port numbers, and each holds
    its number in [_disknr].  Every port object, registered or not, is a
    constructed port on which [init] has run, was given as disk number the
    bus count at its creation (so a port whose [init] failed holds the
    number the next registered port gets), stays in [_ports], and is on the
    bus exactly when its [init] returned 0. *)
Theorem HostAhci_new_disk_numbers (HE : HostEnv) (fuel : nat) (conf_read : Z -> Z)
    (alloc_iomem : Z -> Z -> option Z) (bdf hostirq : Z) (dmar : bool) (base : Z)
    (h : HostAhci) :
  HostAhci_new HE fuel conf_read alloc_iomem bdf hostirq dmar base = HOk tt h ->
  (forall i key nr, bus_added h !! i = Some (key, nr) ->
     key = base + Z.of_nat i /\ 0 <= nr < 32 /\
     exists p, port_at h nr = Some p /\ _disknr p = key) /\
  StronglySorted Z.lt (map snd (bus_added h)) /\
  (forall nr p, 0 <= nr -> port_at h nr = Some p ->
     nr < 32 /\
     _disknr p = base + registered_below h nr /\
     built (port_env HE nr) p /\
     created HE fuel dmar nr p (bool_decide (nr ∈ map snd (bus_added h)))).
Proof.
  intros Hrun.
  apply HostAhci_new_ok in Hrun as (h7 & Hinv & _ & Hbase & _ & _ & _ & ->).
  destruct Hinv as (_ & _ & Hbus & Hsort & Hports).
  change (bus_added (hba_reg_or HE HGHC 2 _)) with (bus_added h7).
  change (registered_below (hba_reg_or HE HGHC 2 _)) with (registered_below h7).
  change (port_at (hba_reg_or HE HGHC 2 _)) with (port_at h7).
  rewrite <- Hbase. split; [|split; [exact Hsort|]].
  - intros i key nr He. destruct (Hbus i (key, nr) He) as (H1 & H2 & H3).
    split; [exact H1|]. split; [exact H2|exact H3].
  - intros nr p Hnr Hp. destruct (Hports nr p Hnr Hp) as (H1 & H2 & H3).
    split; [exact H1|]. split; [exact H2|]. split; [|exact H3].
    destruct H3 as (d & c & r & Hinit & _).
    pose proof (built_op (port_env HE nr) _ fuel (OpInit (identify_buffer HE))
                  (built_new (port_env HE nr) c d dmar (port_heap HE nr))) as Hb.
    cbn [run_op] in Hb. rewrite Hinit in Hb. exact Hb.
Qed.

Lemma HostAhci_new_disk_numbers_witness :
  let h := hba_of (HostAhci_new three_port_host 1 high_conf high_alloc 0 0x13 true 5) in
  bus_added h = [(5, 2)] /\
  (exists p, port_at h 0 = Some p) /\
  (forall nr p, 0 <= nr -> port_at h nr = Some p ->
     _disknr p = 5 + registered_below h nr).
Proof.
  intros h.
  destruct (HostAhci_new_disk_numbers three_port_host 1 high_conf high_alloc 0 0x13
              true 5 h) as (_ & _ & Hports).
  - vm_compute. reflexivity.
  - split; [vm_compute; reflexivity|]. split; [eexists; vm_compute; reflexivity|].
    intros nr p Hnr Hp. apply Hports; assumption.
Defined.

(** ** Which ports the constructor creates *)

Lemma land_bit32_testbit x nr :
  0 <= nr < 32 -> (Z.land x (bit32 nr) =? 0) = negb (Z.testbit x nr).
Proof.
  intros Hnr. destruct (Z.testbit x nr) eqn:Hbit; cbn [negb].
  - apply land_bit32_set; assumption.
  - apply Z.eqb_eq. apply Z.bits_inj'. intros n Hn.
    rewrite Z.land_spec, testbit_bit32, Z.bits_0 by lia.
    destruct (Z.eqb_spec n nr) as [->|_]; [rewrite Hbit; reflexivity|].
    rewrite andb_false_r. apply andb_false_r.
Qed.

Lemma not32_zero x : 0 <= x < 2 ^ 32 -> (not32 x =? 0) = (x =? 0xffffffff).
Proof.
  intros Hx. unfold not32, wrap32, Z.lnot.
  replace (Z.pred (- x)) with ((2 ^ 32 - 1 - x) + (-1) * 2 ^ 32) by lia.
  rewrite Z_mod_plus_full, Z.mod_small by lia.
  destruct (Z.eqb_spec x 0xffffffff); [apply Z.eqb_eq|apply Z.eqb_neq]; lia.
Qed.

Lemma create_ahci_port_present HE fuel dmar pi nr h h' :
  length (_ports h) = 32%nat -> 0 <= nr < 32 ->
  wrap32 (hba_read HE (hba_reads h) HPI) = pi ->
  create_ahci_port HE fuel nr dmar h = HOk tt h' ->
  length (_ports h') = 32%nat /\
  (port_at h nr = None -> (port_at h' nr <> None <-> port_present HE pi nr = true)) /\
  (forall nr', 0 <= nr' -> nr' <> nr -> port_at h' nr' = port_at h nr').
Proof.
  intros Hlen Hnr Hpi Hrun. unfold create_ahci_port, hba_reg_read in Hrun.
  rewrite Hpi, land_bit32_testbit, negb_involutive, not32_zero in Hrun
    by (lia || apply wrap32_range).
  fold (port_present HE pi nr) in Hrun.
  destruct (port_present HE pi nr).
  - set (h2 := count_hba_read (count_hba_read h)) in *.
    destruct (init _ _ _ _) as [r p'|f p']; [|discriminate].
    assert (Hh' : _ports h' = _ports (set_port nr p' h2))
      by (destruct (negb (r =? 0)); injection Hrun as <-; reflexivity).
    assert (Hat : forall nr', port_at h' nr' = port_at (set_port nr p' h2) nr')
      by (intros nr'; unfold port_at; rewrite Hh'; reflexivity).
    split; [rewrite Hh'; unfold set_port, with_ports; cbn [_ports];
            rewrite length_insert; exact Hlen|].
    split.
    + intros _. rewrite Hat, port_at_set_port, Z.eqb_refl by (lia || exact Hlen).
      split; [reflexivity|discriminate].
    + intros nr' Hnr' Hne. rewrite Hat, port_at_set_port by (lia || exact Hlen).
      destruct (Z.eqb_spec nr' nr); [contradiction|reflexivity].
  - injection Hrun as <-. split; [exact Hlen|]. split; [|reflexivity].
    intros Hnone. change (port_at (count_hba_read h) nr) with (port_at h nr).
    rewrite Hnone. split; [intros H; contradiction|discriminate].
Qed.

Lemma create_ports_present HE fuel dmar pi :
  (forall n, wrap32 (hba_read HE n HPI) = pi) ->
  forall n a h h',
    (a + n <= 32)%nat ->
    length (_ports h) = 32%nat ->
    (forall nr, Z.of_nat a <= nr -> port_at h nr = None) ->
    create_ports HE fuel dmar (map Z.of_nat (seq a n)) h = HOk tt h' ->
    length (_ports h') = 32%nat /\
    (forall nr, Z.of_nat a <= nr < Z.of_nat (a + n) ->
       (port_at h' nr <> None <-> port_present HE pi nr = true)) /\
    (forall nr, 0 <= nr -> nr < Z.of_nat a \/ Z.of_nat (a + n) <= nr ->
       port_at h' nr = port_at h nr).
Proof.
  intros Hpi. induction n as [|n IH]; intros a h h' Hle Hlen Hnone Hrun;
    cbn [seq map create_ports] in Hrun.
  - injection Hrun as <-. split; [exact Hlen|]. split; [intros nr Hnr; lia|].
    intros; reflexivity.
  - destruct (create_ahci_port HE fuel (Z.of_nat a) dmar h) as [[] h1|f h1] eqn:Hstep;
      [|discriminate].
    apply (create_ahci_port_present HE fuel dmar pi) in Hstep
      as (Hlen1 & Hhere & Hother); [|exact Hlen|lia|apply Hpi].
    assert (Hnone1 : forall nr, Z.of_nat (S a) <= nr -> port_at h1 nr = None).
    { intros nr Hnr. rewrite Hother by lia. apply Hnone. lia. }
    destruct (IH (S a) h1 h' ltac:(lia) Hlen1 Hnone1 Hrun) as (Hlen' & Hin & Hout).
    split; [exact Hlen'|]. split.
    + intros nr Hnr. destruct (Z.eq_dec nr (Z.of_nat a)) as [->|Hne].
      * rewrite Hout by lia. apply Hhere. apply Hnone. lia.
      * apply Hin. lia.
    + intros nr Hnr Hrange. rewrite Hout by lia. apply Hother; lia.
Qed.

(** X12: with a PI register that reads the same value [pi] every time, the
    constructor creates a port object for port [nr] exactly when bit [nr] of
    [pi] is set and the SIG register of the port does not read 0xFFFFFFFF,
    and, for the ports 30 and 31, the pointer to the high ports is not
    null. *)
Theorem HostAhci_new_ports (HE : HostEnv) (fuel : nat) (conf_read : Z -> Z)
    (alloc_iomem : Z -> Z -> option Z) (bdf hostirq : Z) (dmar : bool) (base pi : Z)
    (h : HostAhci) :
  (forall n, wrap32 (hba_read HE n HPI) = pi) ->
  HostAhci_new HE fuel conf_read alloc_iomem bdf hostirq dmar base = HOk tt h ->
  forall nr, 0 <= nr < 32 ->
    (port_at h nr <> None <->
     (nr < 30 \/ _regs_high h <> 0) /\ port_present HE pi nr = true).
Proof.
  intros Hpi Hrun nr Hnr.
  apply HostAhci_new_run in Hrun
    as (regs & regs_high & reqs & h5 & h6 & h7 & _ & _ & Hp5 & Ha5 & _ & _ & Hr5
        & _ & Hlow & Hhigh & ->).
  change (port_at (hba_reg_or HE HGHC 2 _) nr) with (port_at h7 nr).
  change (_regs_high (hba_reg_or HE HGHC 2 _)) with (_regs_high h7).
  assert (Hlen5 : length (_ports h5) = 32%nat) by (rewrite Hp5; apply length_replicate).
  assert (Hnone5 : forall nr, Z.of_nat 0 <= nr -> port_at h5 nr = None).
  { intros nr' _. unfold port_at. rewrite Hp5.
    destruct (replicate 32 (@None Port) !! Z.to_nat nr') as [o|] eqn:Hl; [|reflexivity].
    apply lookup_replicate in Hl as [-> _]. reflexivity. }
  pose proof (create_ports_inv HE fuel dmar 30 0 h5 h6 ltac:(lia)
                (ports_inv_start HE fuel dmar h5 Hp5 Ha5) Hlow)
    as (_ & _ & _ & Hr6 & _).
  destruct (create_ports_present HE fuel dmar pi Hpi 30 0 h5 h6 ltac:(lia) Hlen5 Hnone5
              Hlow) as (Hlen6 & Hin6 & Hout6).
  destruct (Z.eqb_spec regs_high 0) as [H0|Hne].
  - subst h7. rewrite Hr6, Hr5, H0.
    destruct (Z.lt_ge_cases nr 30) as [Hlt|Hge].
    + rewrite (Hin6 nr) by lia. tauto.
    + rewrite Hout6, Hnone5 by lia. split; [intros H; contradiction|].
      intros [[H|H] _]; [lia|contradiction].
  - assert (Hnone6 : forall nr, Z.of_nat 30 <= nr -> port_at h6 nr = None)
      by (intros nr' Hnr'; rewrite Hout6 by lia; apply Hnone5; lia).
    pose proof (create_ports_inv HE fuel dmar 2 30 h6 h7 ltac:(lia)) as Hinv7.
    destruct (create_ports_present HE fuel dmar pi Hpi 2 30 h6 h7 ltac:(lia) Hlen6
                Hnone6 Hhigh) as (_ & Hin7 & Hout7).
    assert (Hr7 : _regs_high h7 <> 0).
    { assert (Hinv6 : ports_inv HE fuel dmar h6 (Z.of_nat 30)).
      { apply (create_ports_inv HE fuel dmar 30 0 h5 h6 ltac:(lia)
                 (ports_inv_start HE fuel dmar h5 Hp5 Ha5) Hlow). }
      destruct (Hinv7 Hinv6 Hhigh) as (_ & _ & _ & Hr7 & _). congruence. }
    destruct (Z.lt_ge_cases nr 30) as [Hlt|Hge].
    + rewrite Hout7 by lia. rewrite (Hin6 nr) by lia. tauto.
    + rewrite (Hin7 nr) by lia. tauto.
Qed.

Lemma HostAhci_new_ports_witness :
  let h := hba_of (HostAhci_new three_port_host 1 high_conf high_alloc 0 0x13 true 5) in
  port_at h 0 <> None /\ port_at h 2 <> None /\ port_at h 1 = None.
Proof.
  intros h.
  assert (Hrun : HostAhci_new three_port_host 1 high_conf high_alloc 0 0x13 true 5
                 = HOk tt h) by (vm_compute; reflexivity).
  pose proof (HostAhci_new_ports three_port_host 1 high_conf high_alloc 0 0x13 true 5
                0x7 h ltac:(intros n; reflexivity) Hrun) as Hp.
  split; [apply (Hp 0); [lia|split; [left; lia|reflexivity]]|].
  split; [apply (Hp 2); [lia|split; [left; lia|reflexivity]]|].
  destruct (port_at h 1) as [p|] eqn:H1; [|reflexivity].
  exfalso. assert (Hne : Some p <> None) by discriminate.
  rewrite <- H1 in Hne. apply (Hp 1) in Hne as [_ Hpres]; [|lia].
  revert Hpres. vm_compute. discriminate.
Defined.

(** ** The register writes of the constructor *)

Lemma ports_made_insert (p : Port) : forall (l : list (option Port)) (i : nat),
  (i < length l)%nat -> default None (l !! i) = None ->
  length (List.filter port_made (<[i := Some p]> l))
  = S (length (List.filter port_made l)).
Proof.
  induction l as [|o l IH]; intros i Hi Hnone; cbn [length] in Hi; [lia|].
  destruct i as [|i].
  - cbn in Hnone. subst o. reflexivity.
  - cbn in Hnone. cbn [insert list_insert List.filter].
    change (list_insert i (Some p) l) with (<[i := Some p]> l).
    destruct (port_made o); cbn [length]; rewrite IH by (assumption || lia);
      reflexivity.
Qed.

(** [create_ahci_port] reads PI, and CAP as well when it makes a port. *)
Lemma create_ahci_port_reads HE fuel dmar nr h h' :
  0 <= nr < 32 ->
  ports_inv HE fuel dmar h nr ->
  create_ahci_port HE fuel nr dmar h = HOk tt h' ->
  (hba_reads h' + ports_made h = S (hba_reads h) + ports_made h')%nat.
Proof.
  intros Hnr (Hlen & Hnone & _) Hrun. unfold create_ahci_port, hba_reg_read in Hrun.
  destruct (_ && _).
  2: { injection Hrun as <-. unfold ports_made. cbn [hba_reads _ports count_hba_read].
       lia. }
  specialize (Hnone nr ltac:(lia)). unfold port_at in Hnone.
  assert (Hmade : forall p',
            ports_made (set_port nr p' (count_hba_read (count_hba_read h)))
            = S (ports_made h)).
  { intros p'. unfold ports_made, set_port, with_ports. cbn [_ports count_hba_read].
    apply ports_made_insert; [lia|exact Hnone]. }
  destruct (init _ _ _ _) as [r p'|f p']; [|discriminate].
  destruct (negb (r =? 0)); injection Hrun as <-.
  - rewrite Hmade. cbn [hba_reads set_port with_ports count_hba_read]. lia.
  - change (ports_made (bus_add nr ?x)) with (ports_made x).
    rewrite Hmade. cbn [hba_reads bus_add set_port with_ports count_hba_read]. lia.
Qed.

Lemma create_ports_reads HE fuel dmar : forall n a h h',
  (a + n <= 32)%nat ->
  ports_inv HE fuel dmar h (Z.of_nat a) ->
  create_ports HE fuel dmar (map Z.of_nat (seq a n)) h = HOk tt h' ->
  (hba_reads h' + ports_made h = hba_reads h + n + ports_made h')%nat.
Proof.
  induction n as [|n IH]; intros a h h' Hle Hinv Hrun; cbn [seq map create_ports] in Hrun.
  - injection Hrun as <-. lia.
  - destruct (create_ahci_port HE fuel (Z.of_nat a) dmar h) as [[] h1|f h1] eqn:Hstep;
      [|discriminate].
    pose proof (create_ahci_port_reads HE fuel dmar (Z.of_nat a) h h1 ltac:(lia)
                  Hinv Hstep) as Hr1.
    apply create_ahci_port_inv in Hstep as (Hinv1 & _); [|lia|exact Hinv].
    replace (Z.of_nat a + 1) with (Z.of_nat (S a)) in Hinv1 by lia.
    pose proof (IH (S a) h1 h' ltac:(lia) Hinv1 Hrun) as Hr. lia.
Qed.

(** The reads the constructor has made when the loops over the ports are
    done: nine before them, PI once for each port number gone through and
    CAP once for each port made. *)
Lemma HostAhci_new_reads HE fuel conf_read alloc_iomem bdf hostirq dmar base h :
  HostAhci_new HE fuel conf_read alloc_iomem bdf hostirq dmar base = HOk tt h ->
  exists h7,
    hba_reads h7
    = (9 + (if (_regs_high h7 =? 0)%Z then 30 else 32) + ports_made h7)%nat /\
    h = hba_reg_or HE HGHC 2
          (log_hba_write HIS (wrap32 (hba_read HE (hba_reads h7) HPI))
             (count_hba_read h7)).
Proof.
  intros Hrun.
  apply HostAhci_new_loops in Hrun
    as (regs & regs_high & reqs & h5 & h6 & h7 & _ & _ & Hp5 & Ha5 & _ & _ & Hr5
        & _ & Hn5 & Hlow & Hhigh & ->).
  pose proof (ports_inv_start HE fuel dmar h5 Hp5 Ha5) as Hinv5.
  assert (Hmade5 : ports_made h5 = 0%nat) by (unfold ports_made; rewrite Hp5; reflexivity).
  pose proof (create_ports_reads HE fuel dmar 30 0 h5 h6 ltac:(lia) Hinv5 Hlow) as Hn6.
  apply (create_ports_inv HE fuel dmar 30 0 h5 h6 ltac:(lia) Hinv5) in Hlow
    as (Hinv6 & _ & _ & Hr6 & _).
  exists h7. split; [|reflexivity].
  destruct (Z.eqb_spec regs_high 0) as [H0|Hne].
  - subst h7. rewrite Hr6, Hr5, H0. cbn [Z.eqb]. lia.
  - pose proof (create_ports_reads HE fuel dmar 2 30 h6 h7 ltac:(lia) Hinv6 Hhigh) as Hn7.
    apply (create_ports_inv HE fuel dmar 2 30 h6 h7 ltac:(lia) Hinv6) in Hhigh
      as (_ & _ & _ & Hr7 & _).
    rewrite Hr7, Hr6, Hr5.
    destruct (Z.eqb_spec regs_high 0) as [|_]; [contradiction|]. lia.
Qed.

(** X13: a run of the constructor that returns has found BOHC reading 0 and
    has written three controller registers, in this order: GHC with bit 31
    (AHCI enable) set on top of the value read, before any port is touched;
    after the ports, IS with the value just read from PI; and last GHC with
    bit 1 (interrupt enable) set on top of the value then read.  The reads
    of the controller's registers are numbered as they are made: 0 to 8
    come before the loops over the ports (PI for the mapping, GHC, six for
    the log line, BOHC), each port number gone through reads PI and each port
    made reads CAP, so that [n] below is the first read after the loops; the
    value written to IS is that read, the value or-ed into GHC the next, and
    they are the last two reads of the constructor.  It leaves 32 entries in
    [_ports], and [_hostirq] as given. *)
Theorem HostAhci_new_registers (HE : HostEnv) (fuel : nat) (conf_read : Z -> Z)
    (alloc_iomem : Z -> Z -> option Z) (bdf hostirq : Z) (dmar : bool) (base : Z)
    (h : HostAhci) :
  HostAhci_new HE fuel conf_read alloc_iomem bdf hostirq dmar base = HOk tt h ->
  let n := (9 + (if (_regs_high h =? 0)%Z then 30 else 32) + ports_made h)%nat in
  wrap32 (hba_read HE 8 HBOHC) = 0 /\
  hba_reads h = S (S n) /\
  hba_mmio h = [ (HGHC, Z.lor (wrap32 (hba_read HE 1 HGHC)) 0x80000000);
                 (HIS, wrap32 (hba_read HE n HPI));
                 (HGHC, Z.lor (wrap32 (hba_read HE (S n) HGHC)) 2) ] /\
  length (_ports h) = 32%nat /\ _hostirq h = hostirq.
Proof.
  intros Hrun.
  destruct (HostAhci_new_reads _ _ _ _ _ _ _ _ _ Hrun) as (h7' & Hn & Hh).
  apply HostAhci_new_ok in Hrun as (h7 & Hinv & _ & _ & Hirq & Hmm & Hbohc & ->).
  assert (Heq : h7' = h7).
  { apply (f_equal (fun x => (_ports x, hba_reads x, _regs_high x, bus_added x,
                              bus_base x, _bdf x, _hostirq x, _regs x))) in Hh as Hf.
    unfold hba_reg_or, hba_reg_read in Hf, Hh.
    cbn [_ports hba_reads _regs_high bus_added bus_base _bdf _hostirq _regs
         log_hba_write count_hba_read] in Hf.
    apply (f_equal hba_mmio) in Hh.
    cbn [hba_mmio hba_reads log_hba_write count_hba_read] in Hh.
    apply app_inj_tail in Hh as [Hh _]. apply app_inj_tail in Hh as [Hh _].
    destruct h7, h7'. cbn in *. congruence. }
  subst h7'. cbv zeta.
  change (_regs_high (hba_reg_or HE HGHC 2 _)) with (_regs_high h7).
  change (ports_made (hba_reg_or HE HGHC 2 _)) with (ports_made h7).
  rewrite <- Hn.
  split; [exact Hbohc|]. split; [reflexivity|]. split.
  - unfold hba_reg_or, hba_reg_read.
    cbn [hba_mmio hba_reads log_hba_write count_hba_read]. rewrite Hmm. reflexivity.
  - split; [apply Hinv|exact Hirq].
Qed.

Lemma HostAhci_new_registers_witness :
  let h := hba_of (HostAhci_new three_port_host 1 high_conf high_alloc 0 0x13 true 5) in
  hba_mmio h = [(HGHC, 0x80000000); (HIS, 0x7); (HGHC, 2)].
Proof.
  intros h.
  destruct (HostAhci_new_registers three_port_host 1 high_conf high_alloc 0 0x13
              true 5 h) as (_ & _ & Hmm & _).
  - vm_compute. reflexivity.
  - rewrite Hmm. reflexivity.
Defined.

(** ** Interrupts *)

Lemma testbit_clear_bit x b nr :
  0 <= nr -> 0 <= b ->
  Z.testbit (Z.land x (not32 (bit32 b))) nr
  = Z.testbit x nr && (nr <? 32) && negb (nr =? b).
Proof.
  intros Hnr Hb. rewrite Z.land_spec, testbit_not32, testbit_bit32 by lia.
  destruct (Z.testbit x nr), (nr <? 32), (nr =? b); reflexivity.
Qed.

Lemma irq_ports_spec HE fuel : forall n is_ h,
  0 <= is_ < 2 ^ 32 ->
  (length (set_bits is_) <= n)%nat ->
  length (_ports h) = 32%nat ->
  match irq_ports HE fuel n is_ h with
  | HOk _ h' =>
      length (_ports h') = 32%nat /\ hba_mmio h' = hba_mmio h /\
      hba_reads h' = hba_reads h /\ bus_added h' = bus_added h /\
      _hostirq h' = _hostirq h /\
      irq_dispatched HE fuel is_ h h'
  | HFail f h' =>
      hba_mmio h' = hba_mmio h /\
      exists nr p p',
        0 <= nr < 32 /\ Z.testbit is_ nr = true /\ port_at h nr = Some p /\
        irq (port_env HE nr) fuel p = Fail f p'
  end.
Proof.
  induction n as [|n IH]; intros is_ h His Hfuel Hlen.
  - destruct (Z.eqb_spec is_ 0) as [->|Hne]; cbn [irq_ports Z.eqb].
    + repeat split; try reflexivity; try exact Hlen. intros nr Hnr.
      rewrite Z.bits_0. reflexivity.
    + rewrite set_bits_cons in Hfuel by lia. cbn [length] in Hfuel. lia.
  - cbn [irq_ports]. destruct (Z.eqb_spec is_ 0) as [->|Hne].
    { repeat split; try reflexivity; try exact Hlen. intros nr Hnr.
      rewrite Z.bits_0. reflexivity. }
    pose proof (set_bits_cons is_ ltac:(lia)) as Hcons.
    set (b := bsf is_) in *. set (rest := Z.land is_ (not32 (bit32 b))) in *.
    assert (Hb : 0 <= b < 32).
    { pose proof (set_bits_range is_ His) as Hr. rewrite Hcons in Hr.
      inversion Hr; assumption. }
    assert (Hbit : Z.testbit is_ b = true).
    { apply (in_set_bits is_ b ltac:(lia)). rewrite Hcons. left. reflexivity. }
    assert (Hrest : 0 <= rest < 2 ^ 32) by (apply land_nonneg_range; exact His).
    assert (Hfuel' : (length (set_bits rest) <= n)%nat)
      by (rewrite Hcons in Hfuel; cbn [length] in Hfuel; lia).
    assert (Hbits : forall nr, 0 <= nr < 32 ->
              Z.testbit rest nr = Z.testbit is_ nr && negb (nr =? b)).
    { intros nr Hnr. unfold rest. rewrite testbit_clear_bit by lia.
      assert ((nr <? 32) = true) as -> by (apply Z.ltb_lt; lia).
      rewrite andb_true_r. reflexivity. }
    destruct (port_at h b) as [p|] eqn:Hp.
    + destruct (irq (port_env HE b) fuel p) as [[] p'|f p'] eqn:Hirq.
      * assert (Hlen1 : length (_ports (set_port b p' h)) = 32%nat)
          by (unfold set_port, with_ports; cbn [_ports]; rewrite length_insert;
              exact Hlen).
        specialize (IH rest (set_port b p' h) Hrest Hfuel' Hlen1).
        destruct (irq_ports HE fuel n rest (set_port b p' h)) as [[] h'|f h'].
        -- destruct IH as (H1 & H2 & H3 & H4 & H5 & Hd).
           repeat split; try assumption. intros nr Hnr.
           rewrite (Hd nr Hnr), (Hbits nr Hnr), port_at_set_port by (lia || exact Hlen).
           destruct (Z.eqb_spec nr b) as [->|Hnb].
           ++ rewrite Hbit, Hp. cbn [andb negb option_map]. rewrite Hirq. reflexivity.
           ++ rewrite andb_true_r. reflexivity.
        -- destruct IH as (H1 & nr & q & q' & Hnr & Hbq & Hq & Hfail).
           split; [exact H1|]. exists nr, q, q'. split; [exact Hnr|].
           rewrite (Hbits nr Hnr) in Hbq. apply andb_true_iff in Hbq as [Hbq Hnb].
           split; [exact Hbq|]. split; [|exact Hfail].
           rewrite port_at_set_port in Hq by (lia || exact Hlen).
           destruct (nr =? b); [discriminate|exact Hq].
      * split; [reflexivity|]. exists b, p, p'. repeat split; try assumption; lia.
    + specialize (IH rest h Hrest Hfuel' Hlen).
      destruct (irq_ports HE fuel n rest h) as [[] h'|f h'].
      * destruct IH as (H1 & H2 & H3 & H4 & H5 & Hd).
        repeat split; try assumption. intros nr Hnr.
        rewrite (Hd nr Hnr), (Hbits nr Hnr).
        destruct (Z.eqb_spec nr b) as [->|Hnb].
        -- rewrite Hbit, Hp. reflexivity.
        -- rewrite andb_true_r. reflexivity.
      * destruct IH as (H1 & nr & q & q' & Hnr & Hbq & Hq & Hfail).
        split; [exact H1|]. exists nr, q, q'. split; [exact Hnr|].
        rewrite (Hbits nr Hnr) in Hbq. apply andb_true_iff in Hbq as [Hbq _].
        repeat split; assumption.
Qed.

(** X14: [HostAhci::receive] ignores an interrupt message for another line
    or of another type without touching a register.  Otherwise it reads the
    controller's IS once and calls [irq] exactly once on every existing port
    whose bit is set in the value read, and on no other port; when these
    calls all return, it writes the value read back to IS, as its only
    register write, and returns true.  It fails only when the [irq] of such a
    port fails, and then IS has not been written. *)
Theorem receive_irq_spec (HE : HostEnv) (fuel : nat) (line : Z) (assert_irq : bool)
    (h : HostAhci) :
  length (_ports h) = 32%nat ->
  let is_ := wrap32 (hba_read HE (hba_reads h) HIS) in
  if negb (line =? _hostirq h) || negb assert_irq
  then receive_irq HE fuel line assert_irq h = HOk false h
  else
    match receive_irq HE fuel line assert_irq h with
    | HOk r h' =>
        r = true /\
        hba_mmio h' = hba_mmio h ++ [(HIS, is_)] /\
        hba_reads h' = S (hba_reads h) /\
        bus_added h' = bus_added h /\
        irq_dispatched HE fuel is_ h h'
    | HFail f h' =>
        hba_mmio h' = hba_mmio h /\
        exists nr p p',
          0 <= nr < 32 /\ Z.testbit is_ nr = true /\ port_at h nr = Some p /\
          irq (port_env HE nr) fuel p = Fail f p'
    end.
Proof.
  intros Hlen is_. unfold receive_irq.
  destruct (negb (line =? _hostirq h) || negb assert_irq); [reflexivity|].
  unfold hba_reg_read. fold is_.
  assert (His : 0 <= is_ < 2 ^ 32) by apply wrap32_range.
  pose proof (irq_ports_spec HE fuel 32 is_ (count_hba_read h) His
                (irq_loop_fuel is_ His) Hlen) as Hspec.
  destruct (irq_ports HE fuel 32 is_ (count_hba_read h)) as [[] h'|f h'].
  - destruct Hspec as (H1 & H2 & H3 & H4 & H5 & Hd).
    split; [reflexivity|]. cbn [hba_mmio hba_reads bus_added log_hba_write].
    rewrite H2, H3, H4. repeat split; try reflexivity. exact Hd.
  - exact Hspec.
Qed.

Lemma receive_irq_spec_witness :
  exists h',
    receive_irq three_port_host 1 0x13 true one_port_hba = HOk true h' /\
    hba_mmio h' = hba_mmio one_port_hba ++ [(HIS, 0x5)] /\
    port_at h' 1 = port_at one_port_hba 1.
Proof.
  pose proof (receive_irq_spec three_port_host 1 0x13 true one_port_hba eq_refl)
    as Hspec.
  cbv zeta in Hspec.
  assert (Hc : negb (0x13 =? _hostirq one_port_hba) || negb true = false)
    by reflexivity.
  rewrite Hc in Hspec.
  destruct (receive_irq three_port_host 1 0x13 true one_port_hba) as [r h'|f h'] eqn:Hrun.
  - destruct Hspec as (-> & Hmm & _ & _ & Hd). exists h'.
    split; [reflexivity|]. split; [exact Hmm|]. apply (Hd 1). lia.
  - exfalso. revert Hrun. vm_compute. discriminate.
Defined.

(** * From a request to its commit *)

(** What [receive] has done when it returns true for a READ or WRITE. *)
Lemma receive_rw_true E msg w w1 :
  msg_type msg = DISK_READ \/ msg_type msg = DISK_WRITE ->
  receive E msg w = Ok true w1 ->
  exists phys w2,
    dma_loop E msg (msg_dma msg) (request_set w phys msg) = Ok false w2 /\
    w1 = command_started w2 (msg_usertag msg).
Proof.
  intros Hty Hrun.
  assert (Hdisk : msg_disknr msg = _disknr w).
  { unfold receive, bind, get in Hrun. cbn beta in Hrun.
    destruct (Z.eqb_spec (msg_disknr msg) (_disknr w)); [assumption|discriminate]. }
  assert (Hlen : total_length (msg_dma msg) mod 512 = 0).
  { unfold receive, bind, get in Hrun. cbn beta in Hrun.
    rewrite Hdisk, Z.eqb_refl, sum_length_sector in Hrun. cbn [negb] in Hrun.
    destruct (Z.eqb_spec (total_length (msg_dma msg) mod 512) 0); [assumption|].
    destruct Hty as [Ht | Ht]; rewrite Ht in Hrun; discriminate. }
  rewrite receive_rw_eq in Hrun by assumption.
  destruct (translate E w (ct_slot_addr w)) as [phys|]; [|discriminate].
  exists phys.
  destruct (dma_loop E msg (msg_dma msg) (request_set w phys msg))
    as [[|] w2|f w2]; try discriminate.
  exists w2. injection Hrun as <-. split; reflexivity.
Qed.

Lemma request_set_frame w phys msg : tables_frame w (request_set w phys msg).
Proof.
  unfold request_set, command_set, tables_frame.
  destruct (msg_type msg); cbn; repeat split; reflexivity.
Qed.

Lemma run_op_irq E fuel w : run_op E fuel OpIrq w = world_of (irq E fuel w).
Proof. reflexivity. Qed.

Lemma run_op_receive E fuel msg w :
  run_op E fuel (OpReceive msg) w = world_of (receive E msg w).
Proof. reflexivity. Qed.

Lemma built_irq E fuel w w' : built E w -> irq E fuel w = Ok tt w' -> built E w'.
Proof.
  intros Hb Hrun. replace w' with (world_of (irq E fuel w)) by (rewrite Hrun; reflexivity).
  rewrite <- run_op_irq. apply built_op. exact Hb.
Qed.

Lemma built_receive E msg w r w' : built E w -> receive E msg w = Ok r w' -> built E w'.
Proof.
  intros Hb Hrun.
  replace w' with (world_of (receive E msg w)) by (rewrite Hrun; reflexivity).
  rewrite <- (run_op_receive E 0 msg w). apply built_op. exact Hb.
Qed.

(** X15: from a request to its commit.  When [receive] has returned true
    for a READ or WRITE, and at the next [irq] the CI bit of the slot it used
    reads clear and TFD shows no error, [irq] sends the commit with this
    disk's number and the usertag of the request, once; the slot is then no
    longer in progress, and no later [irq] commits it again unless a new
    command is issued in it. *)
Theorem request_commit (E : Env) (fuel : nat) (msg : MessageDisk) (w w1 : Port) :
  built E w ->
  msg_type msg = DISK_READ \/ msg_type msg = DISK_WRITE ->
  receive E msg w = Ok true w1 ->
  Z.testbit (wrap32 (hw_read E (S (n_reads w1)) CI)) (_tag w) = false ->
  Z.land (wrap32 (hw_read E (S (S (n_reads w1))) TFD)) 1 = 0 ->
  exists tags w2,
    irq E fuel w1 = Ok tt w2 /\
    commits w2 = commits w ++ map (commit_of w1) tags /\
    In (_tag w) tags /\ NoDup tags /\
    commit_of w1 (_tag w)
    = {| commit_disknr := _disknr w; commit_usertag := msg_usertag msg;
         commit_status := DISK_OK |} /\
    Z.testbit (_inprogress w2) (_tag w) = false /\
    (forall E' fuel',
       exists tags',
         commits (world_of (irq E' fuel' w2)) = commits w2 ++ map (commit_of w2) tags' /\
         ~ In (_tag w) tags').
Proof.
  intros Hb Hty Hrun Hci Htfd.
  pose proof (built_wf E w Hb) as Hwf.
  pose proof (built_receive E msg w true w1 Hb Hrun) as Hb1.
  pose proof (built_wf E w1 Hb1) as Hwf1.
  pose proof (built_inprogress_range E w1 Hb1) as Hip1.
  assert (Htag : 0 <= _tag w < 32) by (destruct Hwf as (? & ? & _); lia).
  destruct (receive_rw_true E msg w w1 Hty Hrun) as (phys & w2 & Hloop & Hw1).
  pose proof (tables_frame_dma_loop E msg (msg_dma msg) (request_set w phys msg)) as Hf.
  rewrite Hloop in Hf. cbn [world_of] in Hf.
  pose proof (tables_frame_trans _ _ _ (request_set_frame w phys msg) Hf) as Hfr.
  destruct (command_started_frame w w2 (msg_usertag msg) Hfr)
    as (_ & _ & Hcm & Hdn & _ & _ & _ & Hip & Hut & _).
  rewrite <- Hw1 in Hcm, Hdn, Hip, Hut.
  assert (Hbit1 : Z.testbit (_inprogress w1) (_tag w) = true).
  { rewrite Hip, Z.lor_spec, testbit_bit32 by lia. rewrite Z.eqb_refl.
    assert ((_tag w <? 32) = true) as -> by (apply Z.ltb_lt; lia).
    apply orb_true_r. }
  assert (Hlen1 : length (_usertags w1) = 32%nat)
    by (destruct Hwf1 as (_ & _ & _ & _ & H & _); exact H).
  set (done := Z.land (_inprogress w1)
                 (not32 (wrap32 (hw_read E (S (n_reads w1)) CI)))).
  assert (Hdone : In (_tag w) (set_bits done)).
  { apply in_set_bits; [apply Z.land_nonneg; left; lia|]. split; [lia|].
    unfold done. rewrite Z.land_spec, Hbit1, testbit_not32, Hci by lia.
    assert ((_tag w <? 32) = true) as -> by (apply Z.ltb_lt; lia). reflexivity. }
  destruct (irq_no_error E fuel w1 Hlen1 Hip1 Htfd)
    as (w3 & Hirq & Hip3 & _). fold done in Hip3.
  pose proof (irq_commits E fuel w1 Hlen1 Hip1) as Hc. cbv zeta in Hc. fold done in Hc.
  rewrite Hirq in Hc. cbn [world_of] in Hc. rewrite Hcm in Hc.
  assert (Hbit3 : Z.testbit (_inprogress w3) (_tag w) = false).
  { rewrite Hip3, Z.ldiff_spec.
    apply (in_set_bits done (_tag w)) in Hdone as [_ Hd];
      [|apply Z.land_nonneg; left; lia].
    rewrite Hd. apply andb_false_r. }
  exists (set_bits done), w3. split; [exact Hirq|]. split; [exact Hc|].
  split; [exact Hdone|]. split; [apply set_bits_nodup|].
  split.
  { unfold commit_of. rewrite Hdn, Hut. f_equal.
    apply rd_wr_eq; [lia|]. destruct Hwf as (_ & _ & _ & _ & H & _). lia. }
  split; [exact Hbit3|].
  intros E' fuel'.
  pose proof (built_irq E fuel w1 w3 Hb1 Hirq) as Hb3.
  pose proof (built_wf E w3 Hb3) as Hwf3.
  pose proof (built_inprogress_range E w3 Hb3) as Hipr3.
  assert (Hlen3 : length (_usertags w3) = 32%nat)
    by (destruct Hwf3 as (_ & _ & _ & _ & H & _); exact H).
  eexists. split; [apply (irq_commits E' fuel' w3 Hlen3 Hipr3)|].
  intros Hin. apply in_set_bits in Hin as [_ Hin]; [|apply Z.land_nonneg; left; lia].
  rewrite Z.land_spec, Hbit3 in Hin. discriminate.
Qed.

Lemma request_commit_witness :
  let w := run_op idle_env 1 (OpInit 0x5000)
             (HostAhciPort_new 0 (max_slots_of_cap 0x100) true zero_heap) in
  let w1 := world_of (receive idle_env read_4k w) in
  exists tags w2,
    irq idle_env 1 w1 = Ok tt w2 /\
    commits w2 = commits w ++ map (commit_of w1) tags /\
    In (_tag w) tags /\
    commit_of w1 (_tag w)
    = {| commit_disknr := _disknr w; commit_usertag := msg_usertag read_4k;
         commit_status := DISK_OK |}.
Proof.
  intros w w1.
  destruct (request_commit idle_env 1 read_4k w w1)
    as (tags & w2 & Hirq & Hc & Hin & _ & Hcommit & _).
  - apply built_op. apply built_new.
  - left. reflexivity.
  - vm_compute. reflexivity.
  - vm_compute. reflexivity.
  - vm_compute. reflexivity.
  - exists tags, w2. split; [exact Hirq|]. split; [exact Hc|].
    split; [exact Hin|exact Hcommit].
Defined.

(** * Which controllers get a driver *)

Lemma create_ahci_port_bdf HE fuel dmar nr h u h' :
  create_ahci_port HE fuel nr dmar h = HOk u h' -> _bdf h' = _bdf h.
Proof.
  unfold create_ahci_port, hba_reg_read. destruct (_ && _).
  - destruct (init _ _ _ _) as [r p'|f p']; [|discriminate].
    destruct (negb (r =? 0)); intros H; injection H as _ <-; reflexivity.
  - intros H. injection H as _ <-. reflexivity.
Qed.

Lemma create_ports_bdf HE fuel dmar nrs : forall h u h',
  create_ports HE fuel dmar nrs h = HOk u h' -> _bdf h' = _bdf h.
Proof.
  induction nrs as [|nr rest IH]; intros h u h' Hrun; cbn [create_ports] in Hrun.
  - injection Hrun as _ <-. reflexivity.
  - destruct (create_ahci_port HE fuel nr dmar h) as [u1 h1|f h1] eqn:Hstep;
      [|discriminate].
    apply create_ahci_port_bdf in Hstep. apply IH in Hrun. congruence.
Qed.

Lemma HostAhci_new_bdf HE fuel conf_read alloc_iomem bdf hostirq dmar base h :
  HostAhci_new HE fuel conf_read alloc_iomem bdf hostirq dmar base = HOk tt h ->
  _bdf h = bdf.
Proof.
  unfold HostAhci_new. intros Hrun.
  destruct (map_registers _ _ _) as [regs regs_high reqs| |]; try discriminate.
  unfold hba_reg_or, hba_reg_read in Hrun.
  destruct (negb _); [discriminate|].
  match type of Hrun with
  | context [create_ports HE fuel dmar low_ports ?hh] => set (h5 := hh) in *
  end.
  destruct (create_ports HE fuel dmar low_ports h5) as [[] h6|f h6] eqn:Hlow;
    [|discriminate].
  apply create_ports_bdf in Hlow.
  destruct (regs_high =? 0).
  - injection Hrun as <-. exact Hlow.
  - destruct (create_ports HE fuel dmar high_ports h6) as [[] h7|f h7] eqn:Hhi;
      [|discriminate].
    apply create_ports_bdf in Hhi. injection Hrun as <-.
    change (_bdf h7 = bdf). rewrite Hhi. exact Hlow.
Qed.

Lemma hostahci_param_spec PE fuel mask fallback : forall n i m m',
  (i + n <= 31)%nat ->
  hostahci_param PE fuel mask fallback n (Z.of_nat i) m = Scanned m' ->
  exists k,
    (k < n)%nat /\
    wrap32 (search_device PE (Z.of_nat (i + k))) = 0 /\
    (forall j, (j < k)%nat -> wrap32 (search_device PE (Z.of_nat (i + j))) <> 0) /\
    map _bdf (controllers m')
    = map _bdf (controllers m)
      ++ map (fun j => wrap32 (search_device PE (Z.of_nat j)))
           (List.filter (fun j => Z.testbit mask (Z.of_nat j + 1)) (seq i k)).
Proof.
  induction n as [|n IH]; intros i m m' Hle Hrun; cbn [hostahci_param] in Hrun;
    [discriminate|].
  rewrite (wrap32_small (Z.of_nat i + 1)) in Hrun by lia.
  destruct (Z.eqb_spec (wrap32 (search_device PE (Z.of_nat i))) 0) as [H0|Hne].
  { injection Hrun as <-. exists 0%nat. rewrite Nat.add_0_r.
    split; [lia|]. split; [exact H0|]. split; [intros j Hj; lia|].
    cbn [seq List.filter map]. rewrite app_nil_r. reflexivity. }
  rewrite land_bit32_testbit, negb_involutive, testbit_not32 in Hrun by lia.
  assert ((Z.of_nat i + 1 <? 32) = true) as Hlt by (apply Z.ltb_lt; lia).
  rewrite Hlt in Hrun. cbn [andb] in Hrun.
  replace (Z.of_nat i + 1) with (Z.of_nat (S i)) in Hrun by lia.
  assert (Hstep : forall m1,
    hostahci_param PE fuel mask fallback n (Z.of_nat (S i)) m1 = Scanned m' ->
    map _bdf (controllers m1)
    = map _bdf (controllers m)
      ++ (if Z.testbit mask (Z.of_nat i + 1)
          then [wrap32 (search_device PE (Z.of_nat i))] else []) ->
    exists k,
      (k < S n)%nat /\
      wrap32 (search_device PE (Z.of_nat (i + k))) = 0 /\
      (forall j, (j < k)%nat -> wrap32 (search_device PE (Z.of_nat (i + j))) <> 0) /\
      map _bdf (controllers m')
      = map _bdf (controllers m)
        ++ map (fun j => wrap32 (search_device PE (Z.of_nat j)))
             (List.filter (fun j => Z.testbit mask (Z.of_nat j + 1)) (seq i k))).
  { intros m1 Hrest Hm1.
    destruct (IH (S i) m1 m' ltac:(lia) Hrest) as (k & Hk & Hend & Hbefore & Hlist).
    exists (S k). split; [lia|].
    split; [replace (i + S k)%nat with (S i + k)%nat by lia; exact Hend|].
    split.
    { intros j Hj. destruct j as [|j]; [rewrite Nat.add_0_r; exact Hne|].
      replace (i + S j)%nat with (S i + j)%nat by lia. apply Hbefore. lia. }
    rewrite Hlist, Hm1, <- app_assoc. f_equal. cbn [seq List.filter].
    destruct (Z.testbit mask (Z.of_nat i + 1)); reflexivity. }
  replace (Z.of_nat (S i)) with (Z.of_nat i + 1) in Hrun at 1 by lia.
  destruct (Z.testbit mask (Z.of_nat i + 1)) eqn:Hbit; cbn [negb] in Hrun.
  - set (bdf := wrap32 (search_device PE (Z.of_nat i))) in *.
    destruct (HostAhci_new _ _ _ _ _ _ _ _) as [[] dev|f dev] eqn:Hnew;
      [|discriminate].
    apply HostAhci_new_bdf in Hnew.
    destruct (negb _); [discriminate|].
    apply (Hstep _ Hrun). cbn [controllers]. rewrite map_app. cbn [map].
    rewrite Hnew. reflexivity.
  - apply (Hstep _ Hrun). rewrite app_nil_r. reflexivity.
Qed.

(** X16: which controllers the [hostahci] parameter gives a driver.  The
    handler asks for the AHCI functions (class 1, subclass 6) by index 0, 1,
    2, ... until [search_device] answers 0, and tests the mask with the
    counter it has already incremented: the function of index [j] gets a
    driver exactly when bit [j + 1] of the mask is set (so bit 0 is never
    looked at), and the drivers are added in the order of the indices. *)
Theorem hostahci_param_mask (PE : PciEnv) (fuel : nat) (mask fallback : Z) (n : nat)
    (m m' : Motherboard) :
  (n <= 31)%nat ->
  hostahci_param PE fuel mask fallback n 0 m = Scanned m' ->
  exists k,
    (k < n)%nat /\
    wrap32 (search_device PE (Z.of_nat k)) = 0 /\
    (forall j, (j < k)%nat -> wrap32 (search_device PE (Z.of_nat j)) <> 0) /\
    map _bdf (controllers m')
    = map _bdf (controllers m)
      ++ map (fun j => wrap32 (search_device PE (Z.of_nat j)))
           (List.filter (fun j => Z.testbit mask (Z.of_nat j + 1)) (seq 0 k)).
Proof.
  intros Hn Hrun.
  apply (hostahci_param_spec PE fuel mask fallback n 0 m m' ltac:(lia)) in Hrun
    as (k & Hk & Hend & Hbefore & Hlist).
  exists k. repeat split; assumption.
Qed.

Lemma hostahci_param_mask_witness :
  let m0 := {| controllers := []; disk_count := 0 |} in
  exists m',
    hostahci_param three_controllers 1 5 0x13 4 0 m0 = Scanned m' /\
    map _bdf (controllers m') = [0x200].
Proof.
  intros m0.
  destruct (hostahci_param three_controllers 1 5 0x13 4 0 m0) as [m'|f m'] eqn:Hrun.
  - exists m'. split; [reflexivity|].
    destruct (hostahci_param_mask three_controllers 1 5 0x13 4 m0 m' ltac:(lia) Hrun)
      as (k & Hk & Hend & Hbefore & Hlist).
    assert (Hk3 : k = 3%nat).
    { destruct k as [|[|[|[|k]]]]; try reflexivity; try lia;
        revert Hend; vm_compute; discriminate. }
    subst k. rewrite Hlist. reflexivity.
  - exfalso. revert Hrun. vm_compute. discriminate.
Defined.

(** * IDENTIFY DEVICE that completes *)

Lemma land_bit32_clear r tag :
  0 <= tag < 32 -> Z.testbit r tag = false -> (Z.land r (bit32 tag) =? 0) = true.
Proof.
  intros Ht Hr. rewrite land_bit32_testbit by exact Ht. rewrite Hr. reflexivity.
Qed.

(** X17: when the device has cleared the CI bit of the slot whenever the
    driver reads it, [identify_drive] clears the slot from [_inprogress] and
    sends no commit; if word 2 of the data the device has put in the buffer is
    0xC837 it lets [update_params] take the parameters from the buffer,
    stores them in [_params] and returns its result, and if not it fails the
    assertion, having issued the command and cleared the slot. *)
Theorem identify_drive_done (E : Env) (fuel : nat) (buffer : Z) (w : Port)
    (phys_ct phys_buf : Z) :
  port_wf w ->
  translate E w (ct_slot_addr w) = Some phys_ct ->
  translate E w buffer = Some phys_buf ->
  live E fuel ->
  (forall i, Z.testbit (wrap32 (hw_read E i CI)) (_tag w) = false) ->
  let tag := _tag w in
  exists n c,
    let w3 := advance (S (S n)) c (identify_issued w phys_ct phys_buf) in
    let buf := dma_identify E (n_reads w3) in
    let w' := world_of (identify_drive E fuel buffer w) in
    _inprogress w' = Z.land (Z.lor (_inprogress w) (bit32 tag)) (not32 (bit32 tag)) /\
    Z.testbit (_inprogress w') tag = false /\
    commits w' = commits w /\
    mmio w' = mmio w ++ [(CI, bit32 tag)] /\
    if buf 2 mod 2 ^ 16 =? 0xc837
    then identify_drive E fuel buffer w = Ok (wrap32 (fst (update_params E buf false))) w'
         /\ _params w' = snd (update_params E buf false)
    else identify_drive E fuel buffer w = Fail AssertFailed w'
         /\ _params w' = _params w.
Proof.
  intros Hwf Hct Hbuf Hlive Hdone tag.
  assert (Htag : 0 <= tag < 32) by (destruct Hwf as (? & ? & _); unfold tag; lia).
  rewrite (identify_drive_eq E fuel buffer w phys_ct phys_buf) by assumption.
  set (ws := identify_issued w phys_ct phys_buf).
  destruct (wait_timeout_run E fuel CI (bit32 tag) 0 ws Hlive) as (n & c & Hwait).
  unfold reg_sat in Hwait. rewrite land_bit32_clear in Hwait by auto.
  exists n, c. cbv zeta. fold tag.
  set (w3 := advance (S (S n)) c ws) in *.
  set (wcl := set_inprogress (Z.land (_inprogress w3) (not32 (bit32 tag))) w3).
  set (up := update_params E (dma_identify E (n_reads w3)) false).
  assert (Hrun : check2 (wait_timeout E fuel CI (bit32 tag) 0) (identify_finish E tag) ws
                 = if dma_identify E (n_reads w3) 2 mod 2 ^ 16 =? 0xc837
                   then Ok (wrap32 (fst up)) (set_params (snd up) wcl)
                   else Fail AssertFailed wcl).
  { unfold check2. unfold bind at 1. rewrite Hwait. cbn [Z.eqb].
    unfold identify_finish, bind, clear_inprogress, modify, get.
    cbn [n_reads set_inprogress]. fold wcl.
    destruct (dma_identify E (n_reads w3) 2 mod 2 ^ 16 =? 51255); [|reflexivity].
    unfold up. destruct (update_params E (dma_identify E (n_reads w3)) false).
    reflexivity. }
  rewrite Hrun.
  assert (Hclear : Z.testbit (Z.land (Z.lor (_inprogress w) (bit32 tag))
                                (not32 (bit32 tag))) tag = false).
  { rewrite Z.land_spec, testbit_not32, testbit_bit32 by lia.
    rewrite Z.eqb_refl. assert ((tag <? 32) = true) as -> by (apply Z.ltb_lt; lia).
    apply andb_false_r. }
  destruct (dma_identify E (n_reads w3) 2 mod 2 ^ 16 =? 51255);
    cbn [world_of]; repeat split; try reflexivity; exact Hclear.
Qed.

Lemma identify_drive_done_witness :
  identify_drive idle_env 200 0x5000 ready_port
  = Ok 0 (world_of (identify_drive idle_env 200 0x5000 ready_port)) /\
  Z.testbit (_inprogress (world_of (identify_drive idle_env 200 0x5000 ready_port)))
    (_tag ready_port) = false.
Proof.
  destruct (identify_drive_done idle_env 200 0x5000 ready_port 0x3480 0x5000
              ready_port_wf) as (n & c & _ & Hbit & _ & _ & Hres).
  - vm_compute. reflexivity.
  - vm_compute. reflexivity.
  - exact idle_env_live.
  - intros i. vm_compute. reflexivity.
  - split; [|exact Hbit]. vm_compute. reflexivity.
Defined.

(** * How [receive] can end *)

Lemma only_panics_ok {A} (m : M A) : (forall w, exists a w', m w = Ok a w') -> only_panics m.
Proof. intros H w f w' Hf. destruct (H w) as (a & w1 & Ha). congruence. Qed.

Lemma only_panics_bind {A B} (m : M A) (k : A -> M B) :
  only_panics m -> (forall a, only_panics (k a)) -> only_panics (bind m k).
Proof.
  intros Hm Hk w f w' Hf. unfold bind in Hf.
  destruct (m w) as [a w1|f1 w1] eqn:Hmw.
  - exact (Hk a w1 f w' Hf).
  - injection Hf as <- _. exact (Hm w f1 w1 Hmw).
Qed.

Lemma only_panics_ret {A} (a : A) : only_panics (ret a).
Proof. apply only_panics_ok. intros w. eexists _, _. reflexivity. Qed.

Lemma only_panics_get {A} (f : Port -> A) : only_panics (get f).
Proof. apply only_panics_ok. intros w. eexists _, _. reflexivity. Qed.

Lemma only_panics_modify f : only_panics (modify f).
Proof. apply only_panics_ok. intros w. eexists _, _. reflexivity. Qed.

Lemma only_panics_panic {A} : only_panics (@fail A Panicked).
Proof. intros w f w' H. injection H as <- _. reflexivity. Qed.

Lemma only_panics_store d k v : only_panics (store d k v).
Proof. destruct d; apply only_panics_modify. Qed.

Create HintDb panics.

#[local] Hint Resolve only_panics_ret only_panics_get only_panics_modify
  only_panics_panic only_panics_store : panics.

Ltac panics :=
  repeat (cbv zeta;
          lazymatch goal with
          | |- only_panics (bind _ _) => apply only_panics_bind; [|intros ?]
          | |- only_panics (if ?b then _ else _) => destruct b
          | |- only_panics (match ?x with _ => _ end) => destruct x
          | |- only_panics _ => solve [eauto with panics]
          end).

Lemma only_panics_addr2phys E ptr d : only_panics (addr2phys E ptr d).
Proof. unfold addr2phys. panics. Qed.

#[local] Hint Resolve only_panics_addr2phys : panics.

Lemma only_panics_set_command E command sector read count atapi pmp features :
  only_panics (set_command E command sector read count atapi pmp features).
Proof. unfold set_command. panics. Qed.

Lemma only_panics_add_dma E ptr count : only_panics (add_dma E ptr count).
Proof. unfold add_dma. panics. Qed.

Lemma only_panics_start_command usertag : only_panics (start_command usertag).
Proof. unfold start_command. panics. Qed.

#[local] Hint Resolve only_panics_set_command only_panics_add_dma
  only_panics_start_command : panics.

Lemma only_panics_dma_loop E msg dma : only_panics (dma_loop E msg dma).
Proof. induction dma as [|d rest IH]; cbn [dma_loop]; panics. Qed.

#[local] Hint Resolve only_panics_dma_loop : panics.

(** Programs that return when every address translates. *)
Section Translating.

Variable E : Env.

Let P : Port -> Prop := translates E.

Lemma P_set_cl v w : P w -> P (set_cl v w).
Proof. apply translates_frame. reflexivity. Qed.

Lemma P_set_ct v w : P w -> P (set_ct v w).
Proof. apply translates_frame. reflexivity. Qed.

Lemma returns_store_tables d k v :
  (forall r, d <> RegPtr r) -> returns P (store d k v).
Proof.
  intros Hd. destruct d as [r|i|i]; [destruct (Hd r); reflexivity| |];
    apply returns_modify; intros w; [apply P_set_cl|apply P_set_ct].
Qed.

Lemma returns_addr2phys_tables ptr d :
  (forall r, d <> RegPtr r) -> returns P (addr2phys E ptr d).
Proof.
  intros Hd w Hw. rewrite addr2phys_eq. specialize (Hw ptr) as Hptr.
  destruct (translate E w ptr) as [value|]; [|contradiction].
  apply returns_bind; [apply returns_store_tables; exact Hd| |exact Hw].
  intros _. apply returns_store_tables. exact Hd.
Qed.

Lemma returns_set_command command sector read count atapi pmp features :
  returns P (set_command E command sector read count atapi pmp features).
Proof.
  unfold set_command.
  apply returns_bind; [apply returns_get|]. intros tag.
  apply returns_bind; [apply returns_store_tables; discriminate|]. intros _.
  apply returns_bind; [apply returns_store_tables; discriminate|]. intros _.
  apply returns_bind; [apply returns_get|]. intros ct.
  apply returns_bind; [apply returns_addr2phys_tables; discriminate|]. intros _.
  apply returns_modify. intros w. apply P_set_ct.
Qed.

Lemma returns_add_dma ptr count : returns P (add_dma E ptr count).
Proof.
  unfold add_dma. destruct (_ || _); [apply returns_ret|].
  apply returns_bind; [apply returns_get|]. intros tag.
  apply returns_bind; [apply returns_get|]. intros hdr. cbv zeta.
  destruct (MAX_PRD_COUNT <=? _); [apply returns_ret|].
  apply returns_bind; [apply returns_store_tables; discriminate|]. intros _.
  apply returns_bind; [apply returns_addr2phys_tables; discriminate|]. intros _.
  apply returns_bind; [apply returns_store_tables; discriminate|]. intros _.
  apply returns_ret.
Qed.

Lemma returns_dma_loop msg dma : returns P (dma_loop E msg dma).
Proof.
  induction dma as [|d rest IH]; cbn [dma_loop]; [apply returns_ret|].
  destruct (_ || _); [apply returns_ret|].
  apply returns_bind; [apply returns_add_dma|]. intros failed.
  destruct failed; [apply returns_ret|exact IH].
Qed.

Lemma returns_start_command usertag : returns P (start_command usertag).
Proof.
  intros w Hw. rewrite start_command_eq. eexists _, _. split; [reflexivity|].
  revert Hw. apply translates_frame. reflexivity.
Qed.

Lemma returns_receive msg : msg_type msg <> DISK_OTHER -> returns P (receive E msg).
Proof.
  intros Hty. unfold receive.
  apply returns_bind; [apply returns_get|]. intros disknr.
  destruct (negb _); [apply returns_ret|].
  apply returns_bind; [apply returns_get|]. intros lba48.
  destruct (msg_type msg); try contradiction; try apply returns_ret.
  - cbv zeta. destruct (negb _); [apply returns_ret|].
    apply returns_bind; [apply returns_set_command|]. intros _.
    apply returns_bind; [apply returns_dma_loop|]. intros failed.
    destruct failed; [apply returns_ret|].
    apply returns_bind; [apply returns_start_command|]. intros _. apply returns_ret.
  - cbv zeta. destruct (negb _); [apply returns_ret|].
    apply returns_bind; [apply returns_set_command|]. intros _.
    apply returns_bind; [apply returns_dma_loop|]. intros failed.
    destruct failed; [apply returns_ret|].
    apply returns_bind; [apply returns_start_command|]. intros _. apply returns_ret.
  - apply returns_bind; [apply returns_set_command|]. intros _.
    apply returns_bind; [apply returns_start_command|]. intros _. apply returns_ret.
Qed.

End Translating.

(** X18: [receive] fails no assertion and needs no fuel: when it does not
    return it has panicked, on a message type it does not know or on an
    address that does not translate.  When every address translates (the
    IOMMU is in use, or OP_VIRT_TO_PHYS answers) it returns for every READ,
    WRITE, FLUSH_CACHE and GET_PARAMS, whatever the descriptors. *)
Theorem receive_total (E : Env) (msg : MessageDisk) (w : Port) :
  (forall f w', receive E msg w = Fail f w' -> f = Panicked) /\
  (translates E w -> msg_type msg <> DISK_OTHER ->
   exists r w', receive E msg w = Ok r w').
Proof.
  split.
  - intros f w'. revert w f w'. change (only_panics (receive E msg)).
    unfold receive. panics.
  - intros Htr Hty.
    destruct (returns_receive E msg Hty w Htr) as (r & w' & Hrun & _).
    exists r, w'. exact Hrun.
Qed.

Lemma receive_total_witness :
  exists r w', receive idle_env read_4k ready_port = Ok r w'.
Proof.
  apply (proj2 (receive_total idle_env read_4k ready_port)).
  - exact ready_port_translates.
  - discriminate.
Defined.

(** * The slots [receive] leaves alone *)

Lemma kept_refl tag w : kept tag w w.
Proof. split; intros; reflexivity. Qed.

Lemma kept_trans tag w1 w2 w3 : kept tag w1 w2 -> kept tag w2 w3 -> kept tag w1 w3.
Proof.
  intros [Hcl1 Hct1] [Hcl2 Hct2]. split; intros j Hj Hout.
  - rewrite Hcl2, Hcl1 by assumption. reflexivity.
  - rewrite Hct2, Hct1 by assumption. reflexivity.
Qed.

Lemma kept_header tag w v k :
  0 <= tag -> 0 <= k < 8 ->
  kept tag w (set_cl (wr (tag * CL_DWORDS + k) v (_cl w)) w).
Proof.
  intros Htag Hk. split; intros j Hj Hout; cbn [_cl _ct set_cl]; [|reflexivity].
  apply rd_wr_ne; unfold CL_DWORDS; lia.
Qed.

Lemma kept_command_set w phys header command sector count pmp features :
  port_wf w ->
  kept (_tag w) w
    (command_set w phys header (cfis command sector count pmp features)).
Proof.
  intros Hwf. destruct Hwf as (_ & Htag & _).
  split; intros j Hj Hout; unfold command_set; cbn [_cl _ct set_cl set_ct].
  - rewrite !rd_wr_ne by (unfold CL_DWORDS; lia). reflexivity.
  - rewrite ct_index_eq. apply rd_wr_list_out; [lia|lia|].
    cbn [cfis map dwords_of_bytes length]. lia.
Qed.

Lemma kept_prd_appended w phys count :
  port_wf w -> prd_count w (_tag w) < MAX_PRD_COUNT ->
  kept (_tag w) w (prd_appended w phys count).
Proof.
  intros Hwf Hlt. pose proof (prd_count_nonneg w (_tag w) Hwf) as H0.
  destruct Hwf as (_ & Htag & _). unfold MAX_PRD_COUNT in Hlt.
  split; intros j Hj Hout; unfold prd_appended; cbn [_cl _ct set_cl set_ct].
  - apply rd_wr_ne; unfold CL_DWORDS; lia.
  - fold (prd_count w (_tag w)). rewrite prd_index_eq.
    rewrite !rd_wr_ne by lia. reflexivity.
Qed.

Lemma kept_dma_loop E msg dma : forall w,
  port_wf w -> Forall dma_wf dma ->
  kept (_tag w) w (world_of (dma_loop E msg dma w)).
Proof.
  induction dma as [|d rest IH]; intros w Hwf Hdwf; [apply kept_refl|].
  inversion Hdwf as [|? ? [Hd _] Hdwf']; subst.
  rewrite dma_loop_cons by lia.
  destruct (negb (dma_accepted msg d)); [apply kept_refl|]. cbn [orb].
  destruct (Z.leb_spec MAX_PRD_COUNT (prd_count w (_tag w))) as [|Hlt];
    [apply kept_refl|].
  destruct (translate E w (dma_ptr msg d)) as [phys|].
  - apply (kept_trans _ _ (prd_appended w phys (bytecount d)));
      [apply kept_prd_appended; assumption|].
    apply (IH (prd_appended w phys (bytecount d)));
      [apply prd_appended_wf; assumption|exact Hdwf'].
  - cbn [world_of]. apply kept_header; [destruct Hwf as (_ & ? & _); lia|lia].
Qed.

Lemma kept_set_command E command sector read count atapi pmp features w :
  port_wf w ->
  kept (_tag w) w
    (world_of (set_command E command sector read count atapi pmp features w)).
Proof.
  intros Hwf. rewrite set_command_eq.
  destruct (translate E w _) as [phys|]; cbn [world_of].
  - apply kept_command_set. exact Hwf.
  - assert (Htag : 0 <= _tag w) by (destruct Hwf as (_ & ? & _); lia).
    apply (kept_trans _ _ (set_cl (wr (_tag w * CL_DWORDS + 0) (cl_header read atapi pmp)
                                     (_cl w)) w)).
    + apply kept_header; lia.
    + apply (kept_header (_tag w) (set_cl _ w)); lia.
Qed.

(** X19: a request does not disturb the commands in the other slots:
    whatever the message and however [receive] ends, the command header and
    the command table (FIS and PRDs) of every slot but the one under the
    cursor are as before. *)
Theorem receive_slot_isolation (E : Env) (msg : MessageDisk) (w : Port) :
  port_wf w ->
  Forall dma_wf (msg_dma msg) ->
  let w' := world_of (receive E msg w) in
  forall t, 0 <= t -> t <> _tag w ->
    (forall k, 0 <= k < CL_DWORDS ->
       rd (_cl w') (t * CL_DWORDS + k) = rd (_cl w) (t * CL_DWORDS + k)) /\
    (forall prd k, 0 <= prd < MAX_PRD_COUNT -> 0 <= k < 4 ->
       prd_dword w' t prd k = prd_dword w t prd k) /\
    (forall k, 0 <= k < 5 -> fis_dword w' t k = fis_dword w t k).
Proof.
  intros Hwf Hdwf.
  assert (Hkept : kept (_tag w) w (world_of (receive E msg w))).
  { assert (Hstart : forall w1 usertag,
              kept (_tag w) w w1 ->
              kept (_tag w) w
                (world_of ((do _ <- start_command usertag; ret true) w1))).
    { intros w1 usertag Hk. unfold bind. rewrite start_command_eq. exact Hk. }
    assert (Hrw : forall command read count,
              kept (_tag w) w
                (world_of
                   ((exec set_command E command (msg_sector msg) read count false 0 0;
                     do failed <- dma_loop E msg (msg_dma msg);
                     if failed then ret false
                     else do _ <- start_command (msg_usertag msg); ret true) w))).
    { intros command read count. unfold bind at 1.
      pose proof (kept_set_command E command (msg_sector msg) read count false 0 0 w Hwf)
        as Hk1.
      pose proof (port_wf_set_command E command (msg_sector msg) read count false 0 0
                    w Hwf) as Hwf1.
      pose proof (tables_frame_set_command E command (msg_sector msg) read count false
                    0 0 w) as Hf1.
      destruct (set_command E command (msg_sector msg) read count false 0 0 w)
        as [[] w1|f w1]; cbn [world_of] in *; [|exact Hk1].
      assert (Ht1 : _tag w1 = _tag w) by (unfold tables_frame in Hf1; tauto).
      pose proof (kept_dma_loop E msg (msg_dma msg) w1 Hwf1 Hdwf) as Hk2.
      rewrite Ht1 in Hk2. unfold bind at 1.
      destruct (dma_loop E msg (msg_dma msg) w1) as [[] w2|f w2]; cbn [world_of] in Hk2.
      - exact (kept_trans _ _ _ _ Hk1 Hk2).
      - apply Hstart. exact (kept_trans _ _ _ _ Hk1 Hk2).
      - exact (kept_trans _ _ _ _ Hk1 Hk2). }
    unfold receive. unfold bind at 1, get at 1.
    destruct (negb _); [apply kept_refl|].
    unfold bind at 1, get at 1.
    destruct (msg_type msg); try apply kept_refl.
    - cbv zeta. destruct (negb _); [apply kept_refl|]. apply Hrw.
    - cbv zeta. destruct (negb _); [apply kept_refl|]. apply Hrw.
    - unfold bind at 1.
      pose proof (kept_set_command E (if _lba48 (_params w) then 0xea else 0xe7) 0 true
                    0 false 0 0 w Hwf) as Hk1.
      destruct (set_command E _ 0 true 0 false 0 0 w) as [[] w1|f w1];
        cbn [world_of] in *; [|exact Hk1].
      apply Hstart. exact Hk1. }
  cbv zeta. intros t Ht Hne. destruct Hkept as [Hcl Hct].
  assert (Htag : 0 <= _tag w) by (destruct Hwf as (_ & ? & _); lia).
  split; [|split].
  - intros k Hk. apply Hcl; unfold CL_DWORDS in *; lia.
  - intros prd k Hprd Hk. unfold prd_dword. rewrite prd_index_eq.
    unfold MAX_PRD_COUNT in Hprd. apply Hct; lia.
  - intros k Hk. unfold fis_dword. rewrite ct_index_eq. apply Hct; lia.
Qed.

Lemma receive_slot_isolation_witness :
  let w' := world_of (receive idle_env read_4k ready_port) in
  fis_dword w' 0 0 = fis_dword ready_port 0 0 /\
  prd_dword w' 0 0 3 = prd_dword ready_port 0 0 3.
Proof.
  intros w'.
  destruct (receive_slot_isolation idle_env read_4k ready_port ready_port_wf) with (t := 0)
    as (_ & Hprd & Hfis).
  - repeat constructor; vm_compute; congruence.
  - lia.
  - vm_compute. discriminate.
  - split; [apply Hfis; lia|apply Hprd; unfold MAX_PRD_COUNT; lia].
Defined.
